(** * Heart-rate charts: the single-student chart and the comparison chart

    A shallow embedding of the two Svelte 5 chart components of the project:
    the single-student chart (state [studentId], [timeRange], [showAverage];
    brush zoom and [resetZoom]) and [FirstComparison.svelte] (state
    [selectedStudents], [timeRange], [showAverages]; legend, select-all).

    Numbers.  A JavaScript number is modelled by a rational [Q]: arithmetic
    is exact, binary rounding of doubles is not modelled, and [NaN] and the
    infinities have no counterpart.  Number equality ([===], truthiness) is
    [Qeq].  A [Date] is its integer count of milliseconds ([Z]); building a
    [Date] from a number drops the fraction, as the language's time clipping
    does.

    The d3 functions the components call ([d3.min], [d3.max], [d3.group],
    [d3.bisector], [d3.scaleTime], [d3.scaleLinear] with [nice],
    [d3.scaleOrdinal], [d3.brushX]) are embedded from the d3 version 7
    sources, next to the component code that calls them. *)

From Stdlib Require Import QArith Qround Qabs Qminmax Qpower ZArith.
From Stdlib Require Import List String Ascii Bool Lia Lqa Sorted Permutation.
Import ListNotations.

Local Open Scope Q_scope.

(** ** Numbers *)

Definition number := Q.

(** [a < b] on numbers, as a boolean. *)
Definition Qlt_bool (a b : Q) : bool := negb (Qle_bool b a).

(** Truthiness of a number: every number but zero. *)
Definition truthy (x : number) : bool := negb (Qeq_bool x 0).

(** Truthiness of a [number | null] field. *)
Definition truthy_opt (x : option number) : bool :=
  match x with
  | Some v => truthy v
  | None => false
  end.

(** [x || 0] for a [number | null] field. *)
Definition or0 (x : option number) : number :=
  match x with
  | Some v => if truthy v then v else 0
  | None => 0
  end.

(** [new Date(x)]: the time value keeps the integer part of [x]. *)
Definition Qtrunc (x : Q) : Z :=
  if Qle_bool 0 x then Qfloor x else Qceiling x.

(** ** Data *)

(** [type HeartRateData = { value; timestamp; student }]. *)
Record HeartRateData : Type := mkData {
  value : number;
  timestamp : number;
  student : string
}.

(** [{ start: number | null; end: number | null }]. *)
Record TimeRange : Type := mkRange {
  start : option number;
  end_ : option number
}.

(** [{ top, right, bottom, left }]. *)
Record Margin : Type := mkMargin {
  margin_top : number;
  margin_right : number;
  margin_bottom : number;
  margin_left : number
}.

(** ** d3-array: [min], [max] *)

(** [d3.min(values)]: the first smallest value, [undefined] on no value. *)
Definition d3_min (values : list number) : option number :=
  fold_left (fun acc v =>
               match acc with
               | None => Some v
               | Some m => if Qlt_bool v m then Some v else Some m
               end) values None.

(** [d3.max(values)]: the first largest value, [undefined] on no value. *)
Definition d3_max (values : list number) : option number :=
  fold_left (fun acc v =>
               match acc with
               | None => Some v
               | Some m => if Qlt_bool m v then Some v else Some m
               end) values None.

(** [d3.min(ts) ? Number(d3.min(ts)) : 0] and its [max] twin: an absent or
    zero extreme gives [0]. *)
Definition min_or0 (values : list number) : number := or0 (d3_min values).
Definition max_or0 (values : list number) : number := or0 (d3_max values).

(** ** Array.prototype.sort with the comparator [a.timestamp - b.timestamp]

    The language requires a stable sort and leaves the algorithm to the
    engine; with a comparator that is a total preorder, as this one is, the
    result is the same for every algorithm.  The embedding is the stable
    insertion sort. *)

Fixpoint insert_by_timestamp (d : HeartRateData) (l : list HeartRateData)
  : list HeartRateData :=
  match l with
  | [] => [d]
  | e :: l' =>
      if Qle_bool (timestamp d) (timestamp e) then d :: e :: l'
      else e :: insert_by_timestamp d l'
  end.

Fixpoint sort_by_timestamp (l : list HeartRateData) : list HeartRateData :=
  match l with
  | [] => []
  | d :: l' => insert_by_timestamp d (sort_by_timestamp l')
  end.

(** Ascending by timestamp. *)
Definition ts_le (a b : HeartRateData) : Prop := timestamp a <= timestamp b.

Definition ascending (l : list HeartRateData) : Prop := StronglySorted ts_le l.

(** ** d3-array: [bisector(d => d.timestamp).left]

    The loop [do { mid = (lo + hi) >>> 1;
    if (a[mid].timestamp < x) lo = mid + 1; else hi = mid; }
    while (lo < hi)], with the iteration count as fuel.  The index [mid]
    is below [hi], so [a[mid]] is an element of the array; the [None]
    branch is there for totality only. *)

Fixpoint bisect_loop (fuel : nat) (a : list HeartRateData) (x : number)
  (lo hi : nat) : nat :=
  match fuel with
  | O => lo
  | S fuel' =>
      if (lo <? hi)%nat then
        let mid := ((lo + hi) / 2)%nat in
        match nth_error a mid with
        | Some d =>
            if Qlt_bool (timestamp d) x
            then bisect_loop fuel' a x (mid + 1)%nat hi
            else bisect_loop fuel' a x lo mid
        | None => bisect_loop fuel' a x lo mid
        end
      else lo
  end.

(** [bisect(a, x)] with the defaults [lo = 0], [hi = a.length]; the interval
    at least halves at each turn, so [a.length] turns are enough. *)
Definition bisect_left (a : list HeartRateData) (x : number) : nat :=
  bisect_loop (List.length a) a x 0 (List.length a).

(** What the loop maintains between [lo] and [hi]: everything before [lo]
    is below [x], nothing from [hi] on is. *)
Definition bisect_inv (a : list HeartRateData) (x : number) (lo hi : nat)
  : Prop :=
  (lo <= hi)%nat /\ (hi <= List.length a)%nat /\
  (forall i d, (i < lo)%nat -> nth_error a i = Some d -> timestamp d < x) /\
  (forall i d, (hi <= i)%nat -> nth_error a i = Some d -> x <= timestamp d).

(** [d] is a nearest sample of [data] to the time [t]: no sample is closer,
    and no sample as close is earlier. *)
Definition nearest (data : list HeartRateData) (t : number)
  (d : HeartRateData) : Prop :=
  In d data /\
  (forall e, In e data ->
     Qabs (timestamp d - t) <= Qabs (timestamp e - t)) /\
  (forall e, In e data ->
     Qabs (timestamp e - t) == Qabs (timestamp d - t) ->
     timestamp d <= timestamp e).

(** [a[i]] for a JavaScript index, which may be negative. *)
Definition index_at {A : Type} (a : list A) (i : Z) : option A :=
  if (i <? 0)%Z then None else nth_error a (Z.to_nat i).

(** ** d3-array: [group(data, d => d.student)]

    An insertion-ordered [Map] from student to the array of its samples, in
    data order: an association list. *)

Fixpoint group_add (d : HeartRateData) (m : list (string * list HeartRateData))
  : list (string * list HeartRateData) :=
  match m with
  | [] => [(student d, [d])]
  | (k, ds) :: m' =>
      if String.eqb k (student d) then (k, ds ++ [d]) :: m'
      else (k, ds) :: group_add d m'
  end.

(** [m.get(k)]. *)
Fixpoint group_get (k : string) (m : list (string * list HeartRateData))
  : option (list HeartRateData) :=
  match m with
  | [] => None
  | (k', ds) :: m' => if String.eqb k' k then Some ds else group_get k m'
  end.

Definition d3_group (data : list HeartRateData)
  : list (string * list HeartRateData) :=
  fold_left (fun m d => group_add d m) data [].

(** The samples of the student [k], in data order. *)
Definition samples_of (k : string) (data : list HeartRateData)
  : list HeartRateData :=
  filter (fun d => String.eqb (student d) k) data.

(** ** d3-scale: continuous scales *)

(** d3-interpolate, [interpolateNumber(a, b)]: [t => a * (1 - t) + b * t]. *)
Definition interpolateNumber (a b t : number) : number := a * (1 - t) + b * t.

(** [normalize(a, b)]: [(b -= a) ? x => (x - a) / b : constant(0.5)]. *)
Definition normalize (a b x : number) : number :=
  if truthy (b - a) then (x - a) / (b - a) else 1 # 2.

(** [bimap(domain, range, interpolate)] on a two-point domain and range. *)
Definition bimap (d0 d1 r0 r1 x : number) : number :=
  if Qlt_bool d1 d0
  then interpolateNumber r1 r0 (normalize d1 d0 x)
  else interpolateNumber r0 r1 (normalize d0 d1 x).

(** A time scale: the domain is a pair of [Date]s, the range a pair of
    pixel coordinates. *)
Record TimeScale : Type := mkTimeScale {
  t_domain0 : Z;
  t_domain1 : Z;
  t_range0 : number;
  t_range1 : number
}.

(** [xScale(date)]. *)
Definition time_apply (s : TimeScale) (date : Z) : number :=
  bimap (inject_Z (t_domain0 s)) (inject_Z (t_domain1 s))
        (t_range0 s) (t_range1 s) (inject_Z date).

(** [xScale.invert(x)]: [new Date(...)] of the number mapped back. *)
Definition time_invert (s : TimeScale) (x : number) : Z :=
  Qtrunc (bimap (t_range0 s) (t_range1 s)
                (inject_Z (t_domain0 s)) (inject_Z (t_domain1 s)) x).

(** [xScale.invert(x).getTime() / 1000]: the time, in seconds, at pixel [x]. *)
Definition time_at (s : TimeScale) (x : number) : number :=
  inject_Z (time_invert s x) / 1000.

(** [xScale(new Date(t * 1000))]: the pixel of a time in seconds. *)
Definition pixel_of (s : TimeScale) (t : number) : number :=
  time_apply s (Qtrunc (t * 1000)).

(** [d3.scaleTime().domain([new Date((timeRange.start || 0) * 1000),
    new Date((timeRange.end || 0) * 1000)]).range([margin.left,
    width - margin.right])]. *)
Definition xScale_of (width : number) (margin : Margin) (tr : TimeRange)
  : TimeScale :=
  {| t_domain0 := Qtrunc (or0 (start tr) * 1000);
     t_domain1 := Qtrunc (or0 (end_ tr) * 1000);
     t_range0 := margin_left margin;
     t_range1 := width - margin_right margin |}.

(** A linear scale. *)
Record LinearScale : Type := mkLinearScale {
  l_domain0 : number;
  l_domain1 : number;
  l_range0 : number;
  l_range1 : number
}.

(** [yScale(v)]. *)
Definition linear_apply (s : LinearScale) (v : number) : number :=
  bimap (l_domain0 s) (l_domain1 s) (l_range0 s) (l_range1 s) v.

(** *** d3-array [tickIncrement] and d3-scale [nice] *)

(** [10 ^ p] for an integer [p]. *)
Definition pow10 (p : Z) : Q := Qpower 10 p.

(** [Math.floor(Math.log10(x))] for [0 < x], by moving the decimal point
    until [1 <= x < 10]. *)
Fixpoint log10_loop (fuel : nat) (x : Q) (p : Z) : Z :=
  match fuel with
  | O => p
  | S fuel' =>
      if Qle_bool 10 x then log10_loop fuel' (x / 10) (p + 1)%Z
      else if Qlt_bool x 1 then log10_loop fuel' (x * 10) (p - 1)%Z
      else p
  end.

Definition floor_log10 (x : Q) : Z :=
  log10_loop (S (Z.to_nat (Z.log2 (Qnum x) + Z.log2 (Zpos (Qden x))))) x 0.

(** [error >= e10 ? 10 : error >= e5 ? 5 : error >= e2 ? 2 : 1], where
    [e10 = sqrt(50)], [e5 = sqrt(10)], [e2 = sqrt(2)] and [0 < error]: the
    comparisons are made on the squares. *)
Definition tick_factor (error : Q) : Q :=
  if Qle_bool 50 (error * error) then 10
  else if Qle_bool 10 (error * error) then 5
  else if Qle_bool 2 (error * error) then 2
  else 1.

(** [tickIncrement(start, stop, count)] for [start <= stop] and
    [2 <= count] (the retry with a doubled count is for smaller counts): a
    positive result is the step, a negative one minus the inverse of the
    step.  On [start = stop] the JavaScript result is not a finite number;
    that case is [None]. *)
Definition tickIncrement (start_ stop count : Q) : option Q :=
  let step := (stop - start_) / count in
  if Qlt_bool 0 step then
    let power := floor_log10 step in
    let error := step / pow10 power in
    let factor := tick_factor error in
    if (power <? 0)%Z then Some (- (pow10 (- power) / factor))
    else Some (pow10 power * factor)
  else None.

(** The loop of [scale.nice(count)] with [count = 10], for [start <= stop]:
    [Some] is the domain committed when the step repeats; [None] is a loop
    that left without committing (step not a finite number, or ten turns
    used), which leaves the domain as it was. *)
Fixpoint nice_loop (maxIter : nat) (start_ stop : Q) (prestep : option Q)
  : option (Q * Q) :=
  match maxIter with
  | O => None
  | S n =>
      match tickIncrement start_ stop 10 with
      | None => None
      | Some step =>
          if match prestep with
             | Some p => Qeq_bool step p
             | None => false
             end
          then Some (start_, stop)
          else if Qlt_bool 0 step then
            nice_loop n (inject_Z (Qfloor (start_ / step)) * step)
                        (inject_Z (Qceiling (stop / step)) * step) (Some step)
          else if Qlt_bool step 0 then
            nice_loop n (inject_Z (Qceiling (start_ * step)) / step)
                        (inject_Z (Qfloor (stop * step)) / step) (Some step)
          else None
      end
  end.

(** [scale.nice()]: a descending domain is niced as the ascending one and
    stored back in its own order. *)
Definition nice (s : LinearScale) : LinearScale :=
  let d0 := l_domain0 s in
  let d1 := l_domain1 s in
  if Qlt_bool d1 d0 then
    match nice_loop 10 d1 d0 None with
    | Some (a, b) =>
        {| l_domain0 := b; l_domain1 := a;
           l_range0 := l_range0 s; l_range1 := l_range1 s |}
    | None => s
    end
  else
    match nice_loop 10 d0 d1 None with
    | Some (a, b) =>
        {| l_domain0 := a; l_domain1 := b;
           l_range0 := l_range0 s; l_range1 := l_range1 s |}
    | None => s
    end.

(** The tick size a step stands for: the step itself when positive, the
    inverse of its opposite when negative. *)
Definition tick_of (step : Q) : Q :=
  if Qlt_bool 0 step then step else - / step.

(** [x] is a whole number of ticks [t]. *)
Definition multiple_of (t x : Q) : Prop := exists k : Z, x == inject_Z k * t.

(** A nice tick size: 1, 2, 5 or 10 times a power of ten. *)
Definition nice_tick (t : Q) : Prop :=
  exists (f : Q) (p : Z),
    (f == 1 \/ f == 2 \/ f == 5 \/ f == 10) /\ t == f * pow10 p.

(** The tick that [tickIncrement] chooses for a span. *)
Definition tick_size (span : Q) : Q :=
  tick_factor (span / 10 / pow10 (floor_log10 (span / 10)))
  * pow10 (floor_log10 (span / 10)).

(** [Math.max(0, x)]. *)
Definition max0 (x : number) : number := if Qlt_bool x 0 then 0 else x.

(** [d3.scaleLinear().domain([Math.max(0, (d3.min(values) || 0) * 0.9),
    (d3.max(values) || 0) * 1.1]).range([height - margin.bottom,
    margin.top]).nice()]. *)
Definition yScale_raw (height : number) (margin : Margin)
  (values : list number) : LinearScale :=
  {| l_domain0 := max0 (or0 (d3_min values) * (9 # 10));
     l_domain1 := or0 (d3_max values) * (11 # 10);
     l_range0 := height - margin_bottom margin;
     l_range1 := margin_top margin |}.

Definition yScale_of (height : number) (margin : Margin)
  (values : list number) : LinearScale :=
  nice (yScale_raw height margin values).

(** [d3.mean(data, d => d.value) || 0]. *)
Definition mean_or0 (values : list number) : number :=
  match values with
  | [] => 0
  | _ => fold_left Qplus values 0 / inject_Z (Z.of_nat (List.length values))
  end.

(** ** Code shared by the two components *)

(** [hr_data.map(d => d.timestamp)]. *)
Definition timestamps (hr_data : list HeartRateData) : list number :=
  map timestamp hr_data.

(** The full extent: [{ start: d3.min(ts) ? Number(d3.min(ts)) : 0,
    end: d3.max(ts) ? Number(d3.max(ts)) : 0 }]. *)
Definition full_extent (hr_data : list HeartRateData) : TimeRange :=
  {| start := Some (min_or0 (timestamps hr_data));
     end_ := Some (max_or0 (timestamps hr_data)) |}.

(** [!timeRange.start || !timeRange.end]. *)
Definition not_set (tr : TimeRange) : bool :=
  negb (truthy_opt (start tr)) || negb (truthy_opt (end_ tr)).

(** [if (!timeRange.start || !timeRange.end) { ... }] at the head of
    [createChart]. *)
Definition init_timeRange (hr_data : list HeartRateData) (tr : TimeRange)
  : TimeRange :=
  if not_set tr then full_extent hr_data else tr.

(** [(d.timestamp >= (timeRange.start || 0)) &&
    (d.timestamp <= (timeRange.end || 0))]. *)
Definition in_window (tr : TimeRange) (d : HeartRateData) : bool :=
  Qle_bool (or0 (start tr)) (timestamp d) &&
  Qle_bool (timestamp d) (or0 (end_ tr)).


(** d3-brush, [brushX] with extent [[e0, _], [e1, _]]: the selection
    reported at the end of a plain drag from pixel [a] to pixel [b].  The
    overlay that starts a drag covers the extent: a press outside it starts
    nothing.  The moving end is kept inside the extent, the selection is
    ordered, and an empty one is reported as [null]. *)
Definition clamp (e0 e1 x : number) : number := Qmax e0 (Qmin e1 x).

Definition brush_selection (e0 e1 a b : number) : option (number * number) :=
  if Qlt_bool a e0 || Qlt_bool e1 a then None
  else
    let b' := clamp e0 e1 b in
    if Qeq_bool a b' then None else Some (Qmin a b', Qmax a b').

(** A window bound that is zero, or not set. *)
Definition zero_or_unset (x : option number) : Prop :=
  match x with
  | Some v => v == 0
  | None => True
  end.

(** A window with both bounds set, in order. *)
Definition ordered (tr : TimeRange) : Prop :=
  exists lo hi, tr = {| start := Some lo; end_ := Some hi |} /\ lo <= hi.

(** The window [tr] spans the samples [hr]: its start is the least
    timestamp of a sample of [hr], its end the greatest. *)
Definition spans_samples (hr : list HeartRateData) (tr : TimeRange) : Prop :=
  exists lo hi,
    tr = {| start := Some lo; end_ := Some hi |} /\
    (exists d, In d hr /\ timestamp d == lo) /\
    (forall d, In d hr -> lo <= timestamp d) /\
    (exists d, In d hr /\ timestamp d == hi) /\
    (forall d, In d hr -> timestamp d <= hi).

(** ** The single-student chart *)

Module Single.

Definition width : number := 800.
Definition height : number := 450.
Definition margin : Margin :=
  {| margin_top := 50; margin_right := 100;
     margin_bottom := 80; margin_left := 80 |}.

(** What one run of [createChart] leaves on the page and in its closures:
    the sorted [filteredData], the two scales, and the average line when it
    is drawn. *)
Record Chart : Type := mkChart {
  filteredData : list HeartRateData;
  xScale : TimeScale;
  yScale : LinearScale;
  averageLine : option number
}.

(** The component: the [hr_data] prop, the [$state] variables, and the
    chart on the page ([None]: the no-data message, no overlay, no brush). *)
Record State : Type := mkState {
  hr_data : list HeartRateData;
  studentId : string;
  timeRange : TimeRange;
  showAverage : bool;
  chart : option Chart
}.

(** [hr_data.filter(d => (d.student === studentId) && ... )]. *)
Definition filter_data (hr : list HeartRateData) (id : string)
  (tr : TimeRange) : list HeartRateData :=
  filter (fun d => String.eqb (student d) id && in_window tr d) hr.

Definition createChart (st : State) : State :=
  let tr := init_timeRange (hr_data st) (timeRange st) in
  let fd := filter_data (hr_data st) (studentId st) tr in
  if (List.length fd =? 0)%nat then
    {| hr_data := hr_data st; studentId := studentId st; timeRange := tr;
       showAverage := showAverage st; chart := None |}
  else
    let sorted := sort_by_timestamp fd in
    let ys := yScale_of height margin (map value sorted) in
    {| hr_data := hr_data st; studentId := studentId st; timeRange := tr;
       showAverage := showAverage st;
       chart := Some {| filteredData := sorted;
                        xScale := xScale_of width margin tr;
                        yScale := ys;
                        averageLine :=
                          if showAverage st && negb (List.length sorted =? 0)%nat
                          then Some (mean_or0 (map value sorted))
                          else None |} |}.

(** The nearest point of the mousemove handler: [bisect], the two
    neighbours with their indices kept inside the array, the closer one. *)
Definition locate (data : list HeartRateData) (t : number)
  : option HeartRateData :=
  let index := Z.of_nat (bisect_left data t) in
  let d0 := index_at data (Z.max 0 (index - 1)) in
  let d1 := index_at data (Z.min (Z.of_nat (List.length data) - 1) index) in
  match d1, d0 with
  | Some e1, Some e0 =>
      Some (if Qlt_bool (timestamp e1 - t) (t - timestamp e0) then e1 else e0)
  | _, _ => match d0 with Some e0 => Some e0 | None => d1 end
  end.

(** The mousemove handler: the sample shown in the tooltip, if any. *)
Definition mousemove (st : State) (mouseX : number) : option HeartRateData :=
  match chart st with
  | None => None
  | Some c =>
      if (List.length (filteredData c) =? 0)%nat then None
      else if Qlt_bool mouseX (margin_left margin)
              || Qlt_bool (width - margin_right margin) mouseX then None
      else locate (filteredData c) (time_at (xScale c) mouseX)
  end.

(** [brushed(event)], in the closure of the chart [c]. *)
Definition brushed (c : Chart) (st : State)
  (selection : option (number * number)) : State :=
  match selection with
  | None => st
  | Some (p0, p1) =>
      createChart
        {| hr_data := hr_data st; studentId := studentId st;
           timeRange := {| start := Some (time_at (xScale c) p0);
                           end_ := Some (time_at (xScale c) p1) |};
           showAverage := showAverage st; chart := chart st |}
  end.

(** A drag from pixel [a] to pixel [b] on the brush of the chart. *)
Definition drag (st : State) (a b : number) : State :=
  match chart st with
  | None => st
  | Some c =>
      brushed c st
        (brush_selection (margin_left margin) (width - margin_right margin) a b)
  end.

Definition resetZoom (st : State) : State :=
  createChart
    {| hr_data := hr_data st; studentId := studentId st;
       timeRange := full_extent (hr_data st);
       showAverage := showAverage st; chart := chart st |}.

(** [handleStudentChange]: the assignment to [studentId]. *)
Definition handleStudentChange (st : State) (id : string) : State :=
  {| hr_data := hr_data st; studentId := id; timeRange := timeRange st;
     showAverage := showAverage st; chart := chart st |}.

Definition toggleAverage (st : State) : State :=
  createChart
    {| hr_data := hr_data st; studentId := studentId st;
       timeRange := timeRange st;
       showAverage := negb (showAverage st); chart := chart st |}.

(** The component before it is mounted. *)
Definition initial (hr : list HeartRateData) : State :=
  {| hr_data := hr; studentId := "S1"%string;
     timeRange := {| start := None; end_ := None |};
     showAverage := false; chart := None |}.

(** The events of the page.  [onMount] runs [createChart]; choosing a
    student assigns [studentId], and the [$effect] that reads it runs
    [createChart] again. *)
Inductive Event : Type :=
| Drag (a b : number)
| ResetZoom
| SelectStudent (id : string)
| ToggleAverage.

Definition step (st : State) (e : Event) : State :=
  match e with
  | Drag a b => drag st a b
  | ResetZoom => resetZoom st
  | SelectStudent id => createChart (handleStudentChange st id)
  | ToggleAverage => toggleAverage st
  end.

Definition mounted (hr : list HeartRateData) : State :=
  createChart (initial hr).

Definition run (hr : list HeartRateData) (events : list Event) : State :=
  fold_left step events (mounted hr).

(** The window of the state is the one a recompute would leave. *)
Definition settled (st : State) : Prop :=
  init_timeRange (hr_data st) (timeRange st) = timeRange st.

(** The window is in order, and the time scale in the closures of the
    chart on the page is the one of the window. *)
Definition consistent (st : State) : Prop :=
  ordered (timeRange st) /\
  forall ch, chart st = Some ch ->
             xScale ch = xScale_of width margin (timeRange st).

(** The state with another window. *)
Definition with_timeRange (st : State) (tr : TimeRange) : State :=
  {| hr_data := hr_data st; studentId := studentId st; timeRange := tr;
     showAverage := showAverage st; chart := chart st |}.

End Single.

(** ** Student identifiers *)

(** [s.substring(1)]. *)
Definition substring1 (s : string) : string :=
  match s with
  | EmptyString => EmptyString
  | String _ rest => rest
  end.

Definition is_white_space (c : ascii) : bool :=
  let n := nat_of_ascii c in
  ((n =? 32) || (n =? 9) || (n =? 10) || (n =? 11) || (n =? 12) || (n =? 13))%nat.

Fixpoint trim_start (s : string) : string :=
  match s with
  | String c rest => if is_white_space c then trim_start rest else s
  | EmptyString => EmptyString
  end.

(** The value of a digit in a radix up to 16. *)
Definition digit_value (radix : Z) (c : ascii) : option Z :=
  let n := Z.of_nat (nat_of_ascii c) in
  let v :=
    if ((48 <=? n) && (n <=? 57))%Z then Some (n - 48)%Z
    else if ((97 <=? n) && (n <=? 102))%Z then Some (n - 87)%Z
    else if ((65 <=? n) && (n <=? 70))%Z then Some (n - 55)%Z
    else None in
  match v with
  | Some d => if (d <? radix)%Z then Some d else None
  | None => None
  end.

(** The longest run of digits at the head of [s], read in [radix];
    [None] when [s] starts with no digit. *)
Fixpoint read_digits (radix : Z) (s : string) (acc : option Z) : option Z :=
  match s with
  | String c rest =>
      match digit_value radix c with
      | Some d =>
          read_digits radix rest
            (Some (match acc with Some a => a * radix + d | None => d end)%Z)
      | None => acc
      end
  | EmptyString => acc
  end.

(** [parseInt(s)] with no radix given: leading white space, a sign, a
    [0x] prefix, then digits; [None] is [NaN]. *)
Definition parseInt (s : string) : option Z :=
  let s1 := trim_start s in
  let '(sign, s2) :=
    match s1 with
    | String "-"%char rest => ((-1)%Z, rest)
    | String "+"%char rest => (1%Z, rest)
    | _ => (1%Z, s1)
    end in
  let '(radix, s3) :=
    match s2 with
    | String "0"%char (String "x"%char rest) => (16%Z, rest)
    | String "0"%char (String "X"%char rest) => (16%Z, rest)
    | _ => (10%Z, s2)
    end in
  match read_digits radix s3 None with
  | Some n => Some (sign * n)%Z
  | None => None
  end.

(** The sort key of [sortStudentIds]: [parseInt(a.substring(1))]. *)
Definition student_number (s : string) : option Z := parseInt (substring1 s).

(** [numA - numB > 0]; a difference with [NaN] is [NaN], which orders
    nothing. *)
Definition number_after (a b : string) : bool :=
  match student_number a, student_number b with
  | Some x, Some y => (y <? x)%Z
  | _, _ => false
  end.

(** [students.sort((a, b) => numA - numB)], as the stable insertion sort. *)
Fixpoint insert_student (a : string) (l : list string) : list string :=
  match l with
  | [] => [a]
  | b :: l' =>
      if number_after a b then b :: insert_student a l' else a :: b :: l'
  end.

Fixpoint sortStudentIds (students : list string) : list string :=
  match students with
  | [] => []
  | a :: l => insert_student a (sortStudentIds l)
  end.

(** Ascending numeric order of two identifiers that both carry a number. *)
Definition numeric_le (a b : string) : Prop :=
  exists x y, student_number a = Some x /\ student_number b = Some y /\
              (x <= y)%Z.

(** [[...new Set(xs)]]: the first occurrence of each string, in order. *)
Definition includes (xs : list string) (x : string) : bool :=
  existsb (String.eqb x) xs.

Definition unique (xs : list string) : list string :=
  fold_left (fun seen x => if includes seen x then seen else seen ++ [x]) xs [].

(** ** d3-scale: the ordinal colour scale *)

Definition palette : list string :=
  ["#4361EE"; "#3A0CA3"; "#7209B7"; "#F72585"; "#4CC9F0";
   "#06D6A0"; "#118AB2"; "#FFD166"; "#FB8500"; "#2EC4B6"]%string.

Definition color_domain0 : list string :=
  ["S1"; "S2"; "S3"; "S4"; "S5"; "S6"; "S7"; "S8"; "S9"; "S10"]%string.

(** [index.get(d)]: the position of [d] in the domain. *)
Fixpoint index_of (d : string) (domain : list string) : option nat :=
  match domain with
  | [] => None
  | k :: rest =>
      if String.eqb k d then Some O
      else match index_of d rest with
           | Some i => Some (S i)
           | None => None
           end
  end.

(** [colorScale(d)]: a value outside the domain is pushed at its end; the
    colour is [range[i % range.length]].  The domain is the scale's state. *)
Definition colorScale (domain : list string) (d : string)
  : string * list string :=
  match index_of d domain with
  | Some i => (nth (i mod List.length palette) palette EmptyString, domain)
  | None =>
      (nth (List.length domain mod List.length palette) palette EmptyString,
       domain ++ [d])
  end.

(** The calls [colorScale(s)] for [s] along a list, in order. *)
Fixpoint color_each (domain : list string) (ids : list string)
  : list (string * string) * list string :=
  match ids with
  | [] => ([], domain)
  | s :: rest =>
      let '(c, domain1) := colorScale domain s in
      let '(items, domain2) := color_each domain1 rest in
      ((s, c) :: items, domain2)
  end.

(** ** The comparison chart, [FirstComparison.svelte] *)

Module Comparison.

Definition width : number := 1800.
Definition height : number := 500.
Definition margin : Margin :=
  {| margin_top := 50; margin_right := 250;
     margin_bottom := 80; margin_left := 80 |}.

(** What one run of [createChart] leaves on the page and in its closures:
    the groups of [studentData], each sorted in place while its line is
    drawn, the scales, the stroke colour of each line, the average lines,
    and the legend items from top to bottom. *)
Record Chart : Type := mkChart {
  studentData : list (string * list HeartRateData);
  xScale : TimeScale;
  yScale : LinearScale;
  lines : list (string * string);
  averageLines : list (string * number);
  legend : list (string * string)
}.

(** The component: the [hr_data] prop, the [$state] variables, the domain
    of the module-level [colorScale], and the chart on the page ([None]:
    the empty-selection message). *)
Record State : Type := mkState {
  hr_data : list HeartRateData;
  selectedStudents : list string;
  timeRange : TimeRange;
  showAverages : bool;
  colorDomain : list string;
  chart : option Chart
}.

(** [hr_data.filter(d => selectedStudents.includes(d.student) && ... )]. *)
Definition filter_data (hr : list HeartRateData) (selected : list string)
  (tr : TimeRange) : list HeartRateData :=
  filter (fun d => includes selected (student d) && in_window tr d) hr.

(** [data.sort(...)] on every group, in the [forEach] that draws the lines. *)
Definition sort_groups (groups : list (string * list HeartRateData))
  : list (string * list HeartRateData) :=
  map (fun g => (fst g, sort_by_timestamp (snd g))) groups.

(** [Array.from(studentData.values()).flat().map(d => d.value)]. *)
Definition allValues (groups : list (string * list HeartRateData))
  : list number :=
  map value (List.concat (map snd groups)).

(** The average lines: one for each group, when [showAverages] is set and
    the group has data. *)
Definition averages (show : bool) (groups : list (string * list HeartRateData))
  : list (string * number) :=
  flat_map (fun g =>
              if show && negb (List.length (snd g) =? 0)%nat
              then [(fst g, mean_or0 (map value (snd g)))]
              else []) groups.

Definition createChart (st : State) : State :=
  if (List.length (selectedStudents st) =? 0)%nat then
    {| hr_data := hr_data st; selectedStudents := selectedStudents st;
       timeRange := timeRange st; showAverages := showAverages st;
       colorDomain := colorDomain st; chart := None |}
  else
    let tr := init_timeRange (hr_data st) (timeRange st) in
    let fd := filter_data (hr_data st) (selectedStudents st) tr in
    let groups := d3_group fd in
    let ys := yScale_of height margin (allValues groups) in
    let sorted := sort_groups groups in
    let '(strokes, domain1) := color_each (colorDomain st) (map fst sorted) in
    let '(items, domain2) := color_each domain1 (selectedStudents st) in
    {| hr_data := hr_data st; selectedStudents := selectedStudents st;
       timeRange := tr; showAverages := showAverages st;
       colorDomain := domain2;
       chart := Some {| studentData := sorted;
                        xScale := xScale_of width margin tr;
                        yScale := ys;
                        lines := strokes;
                        averageLines := averages (showAverages st) sorted;
                        legend := items |} |}.

(** The nearest point of the mousemove handler, for one student's line:
    a point is shown only for [0 < index < data.length]. *)
Definition locate (data : list HeartRateData) (t : number)
  : option HeartRateData :=
  let index := Z.of_nat (bisect_left data t) in
  if ((0 <? index) && (index <? Z.of_nat (List.length data)))%Z then
    match index_at data (index - 1), index_at data index with
    | Some e0, Some e1 =>
        Some (if Qlt_bool (timestamp e1 - t) (t - timestamp e0) then e1 else e0)
    | _, _ => None
    end
  else None.

(** The mousemove handler: the points shown, one per line that has one. *)
Definition mousemove (st : State) (mouseX : number)
  : list (string * HeartRateData) :=
  match chart st with
  | None => []
  | Some c =>
      if Qlt_bool mouseX (margin_left margin)
         || Qlt_bool (width - margin_right margin) mouseX then []
      else
        flat_map (fun g =>
                    match locate (snd g) (time_at (xScale c) mouseX) with
                    | Some d => [(fst g, d)]
                    | None => []
                    end) (studentData c)
  end.

(** [brushed(event)], in the closure of the chart [c].  The component
    declares it and creates no brush: no event of the page calls it. *)
Definition brushed (c : Chart) (st : State)
  (selection : option (number * number)) : State :=
  match selection with
  | None => st
  | Some (p0, p1) =>
      createChart
        {| hr_data := hr_data st; selectedStudents := selectedStudents st;
           timeRange := {| start := Some (time_at (xScale c) p0);
                           end_ := Some (time_at (xScale c) p1) |};
           showAverages := showAverages st;
           colorDomain := colorDomain st; chart := chart st |}
  end.

(** The chart cleared, with the empty-selection message in its place. *)
Definition cleared (st : State) (selected : list string) : State :=
  {| hr_data := hr_data st; selectedStudents := selected;
     timeRange := timeRange st; showAverages := showAverages st;
     colorDomain := colorDomain st; chart := None |}.

Definition with_selection (st : State) (selected : list string) : State :=
  {| hr_data := hr_data st; selectedStudents := selected;
     timeRange := timeRange st; showAverages := showAverages st;
     colorDomain := colorDomain st; chart := chart st |}.

Definition toggleStudentSelection (st : State) (s : string) : State :=
  let selected :=
    if includes (selectedStudents st) s
    then filter (fun x => negb (String.eqb x s)) (selectedStudents st)
    else selectedStudents st ++ [s] in
  if (0 <? List.length selected)%nat
  then createChart (with_selection st selected)
  else cleared st selected.

Definition selectAllStudents (st : State) : State :=
  createChart
    (with_selection st (sortStudentIds (unique (map student (hr_data st))))).

Definition clearSelections (st : State) : State := cleared st [].

Definition toggleAverages (st : State) : State :=
  let st' :=
    {| hr_data := hr_data st; selectedStudents := selectedStudents st;
       timeRange := timeRange st; showAverages := negb (showAverages st);
       colorDomain := colorDomain st; chart := chart st |} in
  if (0 <? List.length (selectedStudents st'))%nat then createChart st' else st'.

(** The component before and after it is mounted: with no student selected,
    [onMount] and the [$effect] show the message and run no [createChart]. *)
Definition initial (hr : list HeartRateData) : State :=
  {| hr_data := hr; selectedStudents := [];
     timeRange := {| start := None; end_ := None |};
     showAverages := false; colorDomain := color_domain0; chart := None |}.

(** The events of the page.  A student button exists for each student of
    [hr_data]. *)
Inductive Event : Type :=
| ToggleStudent (s : string)
| SelectAll
| Clear
| ToggleAverages.

Definition step (st : State) (e : Event) : State :=
  match e with
  | ToggleStudent s => toggleStudentSelection st s
  | SelectAll => selectAllStudents st
  | Clear => clearSelections st
  | ToggleAverages => toggleAverages st
  end.

Definition run (hr : list HeartRateData) (events : list Event) : State :=
  fold_left step events (initial hr).

(** The legend as read on the page: the student names from top to bottom. *)
Definition legend_names (st : State) : list string :=
  match chart st with
  | Some c => map fst (legend c)
  | None => []
  end.

(** With a student selected, the window of the state is the one a
    recompute would leave. *)
Definition settled (st : State) : Prop :=
  selectedStudents st <> [] ->
  init_timeRange (hr_data st) (timeRange st) = timeRange st.

(** The legend on the page lists the selection, and each item has the
    colour that [colorScale] gives its student. *)
Definition legend_matches (st : State) : Prop :=
  legend_names st = selectedStudents st /\
  forall ch s col, chart st = Some ch -> In (s, col) (legend ch) ->
    In s (colorDomain st) /\ fst (colorScale (colorDomain st) s) = col.

End Comparison.

(** ** The comparison chart as a function of the state *)

(** The colours that the scale with the domain [domain] gives the
    students [ids]. *)
Definition paint (domain ids : list string) : list (string * string) :=
  map (fun s => (s, fst (colorScale domain s))) ids.

(** The chart that the state variables of the comparison view determine. *)
Definition comparison_chart_of (st : Comparison.State) : Comparison.Chart :=
  let groups :=
    d3_group (Comparison.filter_data (Comparison.hr_data st)
                (Comparison.selectedStudents st) (Comparison.timeRange st)) in
  let sorted := Comparison.sort_groups groups in
  {| Comparison.studentData := sorted;
     Comparison.xScale :=
       xScale_of Comparison.width Comparison.margin (Comparison.timeRange st);
     Comparison.yScale :=
       yScale_of Comparison.height Comparison.margin
                 (Comparison.allValues groups);
     Comparison.lines := paint (Comparison.colorDomain st) (map fst sorted);
     Comparison.averageLines :=
       Comparison.averages (Comparison.showAverages st) sorted;
     Comparison.legend :=
       paint (Comparison.colorDomain st) (Comparison.selectedStudents st) |}.

(** What is on the page of the comparison view is what the state
    variables determine: the message with no student selected, and
    otherwise the chart of the state, with a settled window and every
    selected student in the domain of the colour scale. *)
Definition comparison_drawn (st : Comparison.State) : Prop :=
  match Comparison.selectedStudents st with
  | [] => Comparison.chart st = None
  | _ :: _ =>
      init_timeRange (Comparison.hr_data st) (Comparison.timeRange st)
        = Comparison.timeRange st /\
      (forall s, In s (Comparison.selectedStudents st) ->
                 In s (Comparison.colorDomain st)) /\
      Comparison.chart st = Some (comparison_chart_of st)
  end.

(** ** The ECG monitor *)

(** [a % b] on numbers: the remainder has the sign of [a]. *)
Definition js_rem (a b : number) : number :=
  a - b * inject_Z (Qtrunc (a / b)).

(** [a.slice(-n)]: the last [n] elements. *)
Definition slice_last {A : Type} (n : nat) (a : list A) : list A :=
  skipn (List.length a - n) a.

Module Monitor.

(** [keyof typeof studentData]. *)
Inductive Student : Type :=
| S1 | S2 | S3 | S4 | S5 | S6 | S7 | S8 | S9 | S10.

Definition studentData (s : Student) : number :=
  match s with
  | S1 => 106 | S2 => 120 | S3 => 104 | S4 => 93 | S5 => 95
  | S6 => 104 | S7 => 101 | S8 => 102 | S9 => 87 | S10 => 106
  end.

(** The component: the [$state] variables; [audio], whether
    [loadHeartbeatSound] left an [audioContext] and a [heartbeatBuffer];
    the variables of the animation loop; and [beats], the sounds started
    so far, latest first, each with the time of its frame and the gain it
    was played at. *)
Record State : Type := mkState {
  heartRate : number;
  isRunning : bool;
  volume : number;
  ecgData : list number;
  showSettings : bool;
  selectedStudent : option Student;
  audio : bool;
  lastHeartbeat : number;
  startTime : option number;
  beats : list (number * number)
}.

(** [handleStudentChange(event)], with the value of the select:
    [None] is the empty option. *)
Definition handleStudentChange (st : State) (student : option Student)
  : State :=
  {| heartRate := match student with
                  | Some s => studentData s
                  | None => heartRate st
                  end;
     isRunning := isRunning st; volume := volume st; ecgData := ecgData st;
     showSettings := showSettings st; selectedStudent := student;
     audio := audio st; lastHeartbeat := lastHeartbeat st;
     startTime := startTime st; beats := beats st |}.

Section Wave.

(** [sine x] stands for [Math.sin(x * Math.PI)]. *)
Variable sine : number -> number.

(** [generateEcgPoint(heartRate, time)]; [rnd] is the value that
    [Math.random()] returns in it. *)
Definition generateEcgPoint (rnd : number) (heartRate time : number)
  : number :=
  let cycleTime := 60 / heartRate in
  let t := js_rem time cycleTime / cycleTime in
  let value :=
    if Qle_bool 0 t && Qle_bool t 0.1 then
      0.25 * sine ((t - 0) / (0.1 - 0))
    else if Qle_bool 0.15 t && Qle_bool t 0.25 then
      let qrsT := (t - 0.15) / (0.25 - 0.15) in
      if Qlt_bool qrsT 0.2 then - 0.2 * (qrsT / 0.2)
      else if Qlt_bool qrsT 0.4 then - 0.2 + (qrsT - 0.2) * 5
      else if Qlt_bool qrsT 0.6 then 0.8 - (qrsT - 0.4) * 5
      else - 0.2 + (qrsT - 0.6) * 1
    else if Qle_bool 0.3 t && Qle_bool t 0.45 then
      0.35 * sine ((t - 0.3) / (0.45 - 0.3))
    else 0 in
  value + (rnd - 0.5) * 0.03.

(** [animate(timestamp)]. *)
Definition animate (st : State) (timestamp rnd : number) : State :=
  let start_ :=
    match startTime st with
    | Some s => if truthy s then s else timestamp
    | None => timestamp
    end in
  let elapsed := (timestamp - start_) / 1000 in
  let heartbeatInterval := 60 / heartRate st in
  let beat := Qle_bool heartbeatInterval (elapsed - lastHeartbeat st) in
  let data := ecgData st ++ [generateEcgPoint rnd (heartRate st) elapsed] in
  {| heartRate := heartRate st; isRunning := isRunning st;
     volume := volume st;
     ecgData :=
       if isRunning st then
         if (150 <? List.length data)%nat then slice_last 150 data else data
       else ecgData st;
     showSettings := showSettings st; selectedStudent := selectedStudent st;
     audio := audio st;
     lastHeartbeat := if beat then elapsed else lastHeartbeat st;
     startTime := Some start_;
     beats :=
       if beat && (audio st && isRunning st)
       then (elapsed, volume st) :: beats st else beats st |}.

End Wave.

Definition toggleMonitor (st : State) : State :=
  {| heartRate := heartRate st; isRunning := negb (isRunning st);
     volume := volume st; ecgData := ecgData st;
     showSettings := showSettings st; selectedStudent := selectedStudent st;
     audio := audio st; lastHeartbeat := lastHeartbeat st;
     startTime := startTime st; beats := beats st |}.

(** The assignment [heartRate = rate]. *)
Definition with_heartRate (st : State) (rate : number) : State :=
  {| heartRate := rate; isRunning := isRunning st;
     volume := volume st; ecgData := ecgData st;
     showSettings := showSettings st; selectedStudent := selectedStudent st;
     audio := audio st; lastHeartbeat := lastHeartbeat st;
     startTime := startTime st; beats := beats st |}.

(** [heartRate = Math.max(40, Math.min(200, heartRate + amount))]. *)
Definition adjustHeartRate (st : State) (amount : number) : State :=
  with_heartRate st (Qmax 40 (Qmin 200 (heartRate st + amount))).

(** [volume = Math.max(0, Math.min(1, volume + amount))]. *)
Definition adjustVolume (st : State) (amount : number) : State :=
  {| heartRate := heartRate st; isRunning := isRunning st;
     volume := Qmax 0 (Qmin 1 (volume st + amount)); ecgData := ecgData st;
     showSettings := showSettings st; selectedStudent := selectedStudent st;
     audio := audio st; lastHeartbeat := lastHeartbeat st;
     startTime := startTime st; beats := beats st |}.

Definition toggleSettings (st : State) : State :=
  {| heartRate := heartRate st; isRunning := isRunning st;
     volume := volume st; ecgData := ecgData st;
     showSettings := negb (showSettings st);
     selectedStudent := selectedStudent st;
     audio := audio st; lastHeartbeat := lastHeartbeat st;
     startTime := startTime st; beats := beats st |}.

(** The component as declared. *)
Definition initial (audio : bool) : State :=
  {| heartRate := 100; isRunning := true; volume := 1; ecgData := [];
     showSettings := false; selectedStudent := None; audio := audio;
     lastHeartbeat := 0; startTime := None; beats := [] |}.

(** The three preset buttons. *)
Inductive Preset : Type := Rest | Exercise | Critical.

Definition preset_rate (p : Preset) : number :=
  match p with Rest => 60 | Exercise => 120 | Critical => 180 end.

(** What happens on the page: an animation frame, with its timestamp and
    the value of [Math.random()] in it, and the controls of the template. *)
Inductive Event : Type :=
| Frame (timestamp rnd : number)
| SelectStudent (student : option Student)
| ToggleSettings
| AdjustHeartRate (amount : number)
| SetPreset (p : Preset)
| AdjustVolume (amount : number)
| ToggleMonitor.

Definition step (sine : number -> number) (st : State) (e : Event) : State :=
  match e with
  | Frame timestamp rnd => animate sine st timestamp rnd
  | SelectStudent student => handleStudentChange st student
  | ToggleSettings => toggleSettings st
  | AdjustHeartRate amount => adjustHeartRate st amount
  | SetPreset p => with_heartRate st (preset_rate p)
  | AdjustVolume amount => adjustVolume st amount
  | ToggleMonitor => toggleMonitor st
  end.

Definition run (sine : number -> number) (audio : bool)
  (events : list Event) : State :=
  fold_left (step sine) events (initial audio).

(** The value that [Math.random()] returned is in [[0, 1)]. *)
Definition random_value (e : Event) : Prop :=
  match e with
  | Frame _ rnd => 0 <= rnd < 1
  | _ => True
  end.

(** What every event keeps: the rate and the gain in their ranges, at most
    150 points in the buffer, and each beat played at least 0.3 seconds
    after the one before, none later than the last trigger. *)
Definition kept (st : State) : Prop :=
  40 <= heartRate st <= 200 /\
  0 <= volume st <= 1 /\
  (List.length (ecgData st) <= 150)%nat /\
  Forall (fun b => 0 <= snd b <= 1) (beats st) /\
  Forall (fun b => fst b <= lastHeartbeat st) (beats st) /\
  StronglySorted (fun b a => fst a + 0.3 <= fst b) (beats st) /\
  (audio st = false -> beats st = []).

(** The vertical coordinate of a point of the polyline:
    [50 - value * 40]. *)
Definition trace_y (value : number) : number := 50 - value * 40.

End Monitor.

(** * Properties *)

(** ** Numbers *)

Lemma Qlt_bool_iff (a b : Q) : Qlt_bool a b = true <-> a < b.
Proof.
  unfold Qlt_bool. rewrite negb_true_iff. split; intro H.
  - apply Qnot_le_lt. intro Hle. apply Qle_bool_iff in Hle. congruence.
  - destruct (Qle_bool b a) eqn:E; trivial.
    apply Qle_bool_iff in E. exfalso. apply (Qlt_not_le _ _ H E).
Qed.

Lemma Qlt_bool_false_iff (a b : Q) : Qlt_bool a b = false <-> b <= a.
Proof.
  unfold Qlt_bool. rewrite negb_false_iff. apply Qle_bool_iff.
Qed.

Lemma Qle_bool_false_iff (a b : Q) : Qle_bool a b = false <-> b < a.
Proof.
  rewrite <- Qlt_bool_iff. unfold Qlt_bool.
  destruct (Qle_bool a b); simpl; intuition congruence.
Qed.

Lemma truthy_false_iff (x : number) : truthy x = false <-> x == 0.
Proof.
  unfold truthy. rewrite negb_false_iff. apply Qeq_bool_iff.
Qed.

Lemma truthy_true_iff (x : number) : truthy x = true <-> ~ x == 0.
Proof.
  unfold truthy. rewrite negb_true_iff. split; intro H.
  - now apply Qeq_bool_neq.
  - destruct (Qeq_bool x 0) eqn:E; trivial.
    apply Qeq_bool_eq in E. contradiction.
Qed.

Lemma or0_Some (v : number) : or0 (Some v) == v.
Proof.
  unfold or0. destruct (truthy v) eqn:E.
  - reflexivity.
  - apply truthy_false_iff in E. symmetry. exact E.
Qed.

(** The integer part is within one of the number, on the side of zero. *)
Lemma Qtrunc_close (x : Q) :
  x - 1 < inject_Z (Qtrunc x) /\ inject_Z (Qtrunc x) < x + 1.
Proof.
  unfold Qtrunc. destruct (Qle_bool 0 x) eqn:E.
  - pose proof (Qfloor_le x). pose proof (Qlt_floor x).
    rewrite inject_Z_plus in H0. change (inject_Z 1) with 1 in H0.
    split; lra.
  - pose proof (Qle_ceiling x). pose proof (Qceiling_lt x).
    unfold Z.sub in H0. rewrite inject_Z_plus, inject_Z_opp in H0.
    change (inject_Z 1) with 1 in H0. split; lra.
Qed.

Lemma Qtrunc_le (x y : Q) : x <= y -> (Qtrunc x <= Qtrunc y)%Z.
Proof.
  intro H. unfold Qtrunc.
  destruct (Qle_bool 0 x) eqn:Ex, (Qle_bool 0 y) eqn:Ey.
  - now apply Qfloor_resp_le.
  - apply Qle_bool_iff in Ex. apply Qle_bool_false_iff in Ey. exfalso. lra.
  - apply Qle_bool_false_iff in Ex. apply Qle_bool_iff in Ey.
    assert (H1 : (Qceiling x <= 0)%Z).
    { change 0%Z with (Qceiling 0). apply Qceiling_resp_le. lra. }
    assert (H2 : (0 <= Qfloor y)%Z).
    { change 0%Z with (Qfloor 0). now apply Qfloor_resp_le. }
    lia.
  - now apply Qceiling_resp_le.
Qed.

Lemma Qtrunc_Z (z : Z) : Qtrunc (inject_Z z) = z.
Proof.
  unfold Qtrunc. destruct (Qle_bool 0 (inject_Z z)).
  - apply Qfloor_Z.
  - apply Qceiling_Z.
Qed.

(** ** Sorting by timestamp *)

Section SortByTimestamp.

Lemma insert_by_timestamp_perm (d : HeartRateData) (l : list HeartRateData) :
  Permutation (insert_by_timestamp d l) (d :: l).
Proof.
  induction l as [|e l IH]; simpl.
  - apply Permutation_refl.
  - destruct (Qle_bool (timestamp d) (timestamp e)).
    + apply Permutation_refl.
    + eapply perm_trans; [apply perm_skip, IH | apply perm_swap].
Qed.

Lemma sort_by_timestamp_perm (l : list HeartRateData) :
  Permutation (sort_by_timestamp l) l.
Proof.
  induction l as [|d l IH]; simpl.
  - constructor.
  - eapply perm_trans; [apply insert_by_timestamp_perm | now apply perm_skip].
Qed.

Lemma sort_by_timestamp_In (l : list HeartRateData) (d : HeartRateData) :
  In d (sort_by_timestamp l) <-> In d l.
Proof.
  split; apply Permutation_in.
  - apply sort_by_timestamp_perm.
  - apply Permutation_sym, sort_by_timestamp_perm.
Qed.

Lemma sort_by_timestamp_length (l : list HeartRateData) :
  List.length (sort_by_timestamp l) = List.length l.
Proof. apply Permutation_length, sort_by_timestamp_perm. Qed.

Lemma insert_by_timestamp_ascending (d : HeartRateData)
  (l : list HeartRateData) :
  ascending l -> ascending (insert_by_timestamp d l).
Proof.
  unfold ascending. induction l as [|e l IH]; simpl; intro H.
  - constructor; constructor.
  - inversion H as [|? ? Hl He]; subst.
    destruct (Qle_bool (timestamp d) (timestamp e)) eqn:E.
    + apply Qle_bool_iff in E. constructor; [exact H|].
      constructor; [exact E|].
      rewrite Forall_forall in He |- *. intros x Hx.
      unfold ts_le in *. specialize (He x Hx). lra.
    + apply Qle_bool_false_iff in E. constructor; [now apply IH|].
      rewrite Forall_forall in He |- *. intros x Hx.
      apply (Permutation_in _ (insert_by_timestamp_perm d l)) in Hx.
      destruct Hx as [<-|Hx]; [unfold ts_le; lra | now apply He].
Qed.

Lemma sort_by_timestamp_ascending (l : list HeartRateData) :
  ascending (sort_by_timestamp l).
Proof.
  induction l as [|d l IH]; simpl.
  - constructor.
  - now apply insert_by_timestamp_ascending.
Qed.

(** In an ascending array the timestamps grow with the index. *)
Lemma ascending_nth (l : list HeartRateData) :
  ascending l ->
  forall i j a b, (i <= j)%nat ->
    nth_error l i = Some a -> nth_error l j = Some b ->
    timestamp a <= timestamp b.
Proof.
  unfold ascending. induction 1 as [|e l Hl IH He]; intros i j a b Hij Ha Hb.
  - destruct i; discriminate.
  - destruct i as [|i], j as [|j]; simpl in *.
    + injection Ha as <-. injection Hb as <-. lra.
    + injection Ha as <-. rewrite Forall_forall in He.
      apply nth_error_In in Hb. apply (He _ Hb).
    + lia.
    + apply (IH i j); trivial. lia.
Qed.

End SortByTimestamp.

(** ** Bisection *)

Section Bisect.

Variable a : list HeartRateData.
Variable x : number.
Hypothesis a_ascending : ascending a.

Lemma bisect_loop_spec (fuel : nat) :
  forall lo hi, (hi - lo <= fuel)%nat -> bisect_inv a x lo hi ->
    bisect_inv a x (bisect_loop fuel a x lo hi)
               (bisect_loop fuel a x lo hi).
Proof.
  induction fuel as [|fuel IH]; intros lo hi Hfuel (Hle & Hlen & Hlo & Hhi).
  - cbn [bisect_loop]. assert (hi = lo) by lia. subst hi.
    repeat split; trivial.
  - cbn [bisect_loop]. destruct (Nat.ltb_spec lo hi) as [Hlt|Hge].
    + assert (Hhalf := Nat.div_mod_eq (lo + hi) 2).
      assert (Hm := Nat.mod_upper_bound (lo + hi) 2).
      set (mid := ((lo + hi) / 2)%nat) in *.
      assert (Hmid : (lo <= mid < hi)%nat) by lia.
      destruct (nth_error a mid) as [d|] eqn:Ed.
      * destruct (Qlt_bool (timestamp d) x) eqn:E.
        -- apply Qlt_bool_iff in E. apply IH; [lia|].
           repeat split; trivial; try lia.
           intros i e Hi He.
           assert (timestamp e <= timestamp d).
           { apply (ascending_nth a a_ascending i mid); trivial. lia. }
           lra.
        -- apply Qlt_bool_false_iff in E. apply IH; [lia|].
           repeat split; trivial; try lia.
           intros i e Hi He.
           assert (timestamp d <= timestamp e).
           { now apply (ascending_nth a a_ascending mid i). }
           lra.
      * apply nth_error_None in Ed. lia.
    + assert (hi = lo) by lia. subst hi. repeat split; trivial.
Qed.

(** [bisect_left] returns the insertion index of [x]. *)
Lemma bisect_left_spec :
  (bisect_left a x <= List.length a)%nat /\
  (forall i d, (i < bisect_left a x)%nat ->
     nth_error a i = Some d -> timestamp d < x) /\
  (forall i d, (bisect_left a x <= i)%nat ->
     nth_error a i = Some d -> x <= timestamp d).
Proof.
  unfold bisect_left.
  destruct (bisect_loop_spec (List.length a) 0 (List.length a)) as (_ & H1 & H2 & H3).
  - lia.
  - repeat split; try lia.
    intros i d Hi Hd.
    assert (nth_error a i <> None) by congruence.
    apply nth_error_Some in H. lia.
  - auto.
Qed.

End Bisect.

(** ** The nearest point *)

Section Nearest.

Variable data : list HeartRateData.
Variable t : number.
Hypothesis data_ascending : ascending data.

Let index := bisect_left data t.

Lemma before_index (i : nat) (e : HeartRateData) :
  (i < index)%nat -> nth_error data i = Some e -> timestamp e < t.
Proof. apply (bisect_left_spec data t data_ascending). Qed.

Lemma from_index (i : nat) (e : HeartRateData) :
  (index <= i)%nat -> nth_error data i = Some e -> t <= timestamp e.
Proof. apply (bisect_left_spec data t data_ascending). Qed.

Lemma index_le_length : (index <= List.length data)%nat.
Proof. apply (bisect_left_spec data t data_ascending). Qed.

(** Nothing before the insertion index: the first sample is nearest. *)
Lemma nearest_first (e0 : HeartRateData) :
  index = 0%nat -> nth_error data 0 = Some e0 -> nearest data t e0.
Proof.
  intros Hi H0. split; [now apply nth_error_In in H0|].
  assert (Hq : t <= timestamp e0) by (apply (from_index 0); trivial; lia).
  assert (Hall : forall e, In e data -> timestamp e0 <= timestamp e).
  { intros e He. apply In_nth_error in He. destruct He as [i He].
    apply (ascending_nth data data_ascending 0 i); trivial. lia. }
  split; intros e He.
  - specialize (Hall e He).
    rewrite !Qabs_pos by lra. lra.
  - intros _. now apply Hall.
Qed.

(** Nothing from the insertion index on: the last sample is nearest. *)
Lemma nearest_last (e0 : HeartRateData) :
  index = List.length data ->
  nth_error data (List.length data - 1) = Some e0 -> nearest data t e0.
Proof.
  intros Hi H0. split; [now apply nth_error_In in H0|].
  assert (Hlen : (0 < List.length data)%nat).
  { destruct data; [discriminate | simpl; lia]. }
  assert (Hq : timestamp e0 < t).
  { apply (before_index (List.length data - 1)); trivial. lia. }
  assert (Hall : forall e, In e data ->
            timestamp e <= timestamp e0 /\ timestamp e < t).
  { intros e He. apply In_nth_error in He. destruct He as [i He]. split.
    - apply (ascending_nth data data_ascending i (List.length data - 1));
        trivial.
      assert (nth_error data i <> None) by congruence.
      apply nth_error_Some in H. lia.
    - apply (before_index i); trivial.
      assert (nth_error data i <> None) by congruence.
      apply nth_error_Some in H. lia. }
  split; intros e He; destruct (Hall e He) as [H1 H2].
  - rewrite !Qabs_neg by lra. lra.
  - rewrite !Qabs_neg by lra. lra.
Qed.

(** Between two samples: the closer neighbour of the insertion index is
    nearest, the left one on a tie. *)
Lemma nearest_between (e0 e1 : HeartRateData) :
  (0 < index)%nat ->
  nth_error data (index - 1) = Some e0 -> nth_error data index = Some e1 ->
  nearest data t
    (if Qlt_bool (timestamp e1 - t) (t - timestamp e0) then e1 else e0).
Proof.
  intros Hpos H0 H1.
  assert (Hq0 : timestamp e0 < t) by (apply (before_index (index - 1)); trivial; lia).
  assert (Hq1 : t <= timestamp e1) by (apply (from_index index); trivial; lia).
  assert (Hall : forall e, In e data ->
            timestamp e <= timestamp e0 \/ timestamp e1 <= timestamp e).
  { intros e He. apply In_nth_error in He. destruct He as [i He].
    destruct (Nat.lt_ge_cases i index) as [Hlt|Hge].
    - left. apply (ascending_nth data data_ascending i (index - 1)); trivial.
      lia.
    - right. now apply (ascending_nth data data_ascending index i). }
  destruct (Qlt_bool (timestamp e1 - t) (t - timestamp e0)) eqn:E.
  - apply Qlt_bool_iff in E. split; [now apply nth_error_In in H1|].
    split; intros e He; destruct (Hall e He) as [Hl|Hr].
    + rewrite (Qabs_pos (timestamp e1 - t)) by lra.
      rewrite (Qabs_neg (timestamp e - t)) by lra. lra.
    + rewrite !Qabs_pos by lra. lra.
    + rewrite (Qabs_pos (timestamp e1 - t)) by lra.
      rewrite (Qabs_neg (timestamp e - t)) by lra. lra.
    + intros _. exact Hr.
  - apply Qlt_bool_false_iff in E. split; [now apply nth_error_In in H0|].
    split; intros e He; destruct (Hall e He) as [Hl|Hr].
    + rewrite !Qabs_neg by lra. lra.
    + rewrite (Qabs_neg (timestamp e0 - t)) by lra.
      rewrite (Qabs_pos (timestamp e - t)) by lra. lra.
    + rewrite !Qabs_neg by lra. lra.
    + intros _. lra.
Qed.

End Nearest.

Lemma index_at_nat {A : Type} (l : list A) (i : nat) :
  index_at l (Z.of_nat i) = nth_error l i.
Proof.
  unfold index_at. destruct (Z.ltb_spec (Z.of_nat i) 0); [lia|].
  now rewrite Nat2Z.id.
Qed.

Lemma nth_error_in_range {A : Type} (l : list A) (i : nat) :
  (i < List.length l)%nat -> exists e, nth_error l i = Some e.
Proof.
  intro H. destruct (nth_error l i) eqn:E; [eauto|].
  apply nth_error_None in E. lia.
Qed.

(** The single-student lookup on a series that is not empty. *)
Lemma single_locate_nearest (data : list HeartRateData) (t : number) :
  ascending data -> data <> [] ->
  exists d, Single.locate data t = Some d /\ nearest data t d.
Proof.
  intros Hasc Hne.
  assert (Hlen : (0 < List.length data)%nat).
  { destruct data; [congruence | simpl; lia]. }
  pose proof (index_le_length data t Hasc) as Hidx.
  unfold Single.locate. set (index := bisect_left data t) in *.
  destruct (Nat.eq_dec index 0) as [E0|E0].
  - rewrite E0. change (Z.max 0 (Z.of_nat 0 - 1)) with (Z.of_nat 0).
    replace (Z.min (Z.of_nat (List.length data) - 1) (Z.of_nat 0))
      with (Z.of_nat 0) by lia.
    rewrite index_at_nat.
    destruct (nth_error_in_range data 0 Hlen) as [e He]. rewrite He.
    exists e. split.
    + now destruct (Qlt_bool _ _).
    + now apply nearest_first.
  - replace (Z.max 0 (Z.of_nat index - 1)) with (Z.of_nat (index - 1)) by lia.
    rewrite index_at_nat.
    destruct (nth_error_in_range data (index - 1)) as [e0 He0]; [lia|].
    rewrite He0.
    destruct (Nat.eq_dec index (List.length data)) as [El|El].
    + replace (Z.min (Z.of_nat (List.length data) - 1) (Z.of_nat index))
        with (Z.of_nat (index - 1)) by lia.
      rewrite index_at_nat, He0. exists e0. split.
      * now destruct (Qlt_bool _ _).
      * apply nearest_last; trivial. now rewrite <- El.
    + replace (Z.min (Z.of_nat (List.length data) - 1) (Z.of_nat index))
        with (Z.of_nat index) by lia.
      rewrite index_at_nat.
      destruct (nth_error_in_range data index) as [e1 He1]; [lia|].
      rewrite He1. eexists. split; [reflexivity|].
      apply nearest_between; trivial. lia.
Qed.

(** The comparison lookup shows a point exactly when the insertion index
    is inside the array, and then a nearest one. *)
Lemma comparison_locate_inside (data : list HeartRateData) (t : number) :
  ascending data ->
  (0 < bisect_left data t < List.length data)%nat ->
  exists d, Comparison.locate data t = Some d /\ nearest data t d.
Proof.
  intros Hasc [Hpos Hlt]. unfold Comparison.locate.
  set (index := bisect_left data t) in *.
  destruct (Z.ltb_spec 0 (Z.of_nat index)); [|lia].
  destruct (Z.ltb_spec (Z.of_nat index) (Z.of_nat (List.length data))); [|lia].
  cbn [andb].
  replace (Z.of_nat index - 1)%Z with (Z.of_nat (index - 1)) by lia.
  rewrite !index_at_nat.
  destruct (nth_error_in_range data (index - 1)) as [e0 He0]; [lia|].
  destruct (nth_error_in_range data index) as [e1 He1]; [lia|].
  rewrite He0, He1. eexists. split; [reflexivity|].
  now apply nearest_between.
Qed.

Lemma comparison_locate_outside (data : list HeartRateData) (t : number) :
  ~ (0 < bisect_left data t < List.length data)%nat ->
  Comparison.locate data t = None.
Proof.
  intro H. unfold Comparison.locate.
  destruct (Z.ltb_spec 0 (Z.of_nat (bisect_left data t))); trivial.
  destruct (Z.ltb_spec (Z.of_nat (bisect_left data t))
              (Z.of_nat (List.length data))); trivial.
  lia.
Qed.

(** The insertion index is inside the array exactly for a time after the
    first sample and not after the last. *)
Lemma index_inside_iff (data : list HeartRateData) (t : number)
  (first last_ : HeartRateData) :
  ascending data ->
  nth_error data 0 = Some first ->
  nth_error data (List.length data - 1) = Some last_ ->
  (0 < bisect_left data t < List.length data)%nat <->
  timestamp first < t <= timestamp last_.
Proof.
  intros Hasc Hf Hl.
  assert (Hlen : (0 < List.length data)%nat).
  { destruct data; [discriminate | simpl; lia]. }
  pose proof (index_le_length data t Hasc) as Hidx.
  split.
  - intros [Hpos Hlt]. split.
    + now apply (before_index data t Hasc 0).
    + apply (from_index data t Hasc (List.length data - 1)); trivial. lia.
  - intros [H1 H2]. split.
    + destruct (Nat.eq_dec (bisect_left data t) 0) as [E|E]; [|lia].
      assert (t <= timestamp first).
      { apply (from_index data t Hasc 0); trivial. lia. }
      lra.
    + destruct (Nat.eq_dec (bisect_left data t) (List.length data)) as [E|E];
        [|lia].
      assert (timestamp last_ < t).
      { apply (before_index data t Hasc (List.length data - 1)); trivial. lia. }
      lra.
Qed.

(** Two neighbours of the insertion index at the same distance from the
    query: both lookups return the one on the left, at the lower index. *)
Lemma locate_tie_left (data : list HeartRateData) (t : number)
  (e0 e1 : HeartRateData) :
  (0 < bisect_left data t)%nat ->
  nth_error data (bisect_left data t - 1) = Some e0 ->
  nth_error data (bisect_left data t) = Some e1 ->
  timestamp e1 - t == t - timestamp e0 ->
  Single.locate data t = Some e0 /\ Comparison.locate data t = Some e0.
Proof.
  intros Hpos H0 H1 Htie.
  assert (Hlt : (bisect_left data t < List.length data)%nat).
  { apply nth_error_Some. congruence. }
  assert (E : Qlt_bool (timestamp e1 - t) (t - timestamp e0) = false).
  { apply Qlt_bool_false_iff. lra. }
  unfold Single.locate, Comparison.locate.
  set (index := bisect_left data t) in *.
  replace (Z.max 0 (Z.of_nat index - 1)) with (Z.of_nat (index - 1)) by lia.
  replace (Z.min (Z.of_nat (List.length data) - 1) (Z.of_nat index))
    with (Z.of_nat index) by lia.
  replace (Z.of_nat index - 1)%Z with (Z.of_nat (index - 1)) by lia.
  rewrite !index_at_nat, H0, H1, E.
  destruct (Z.ltb_spec 0 (Z.of_nat index)); [|lia].
  destruct (Z.ltb_spec (Z.of_nat index) (Z.of_nat (List.length data))); [|lia].
  split; reflexivity.
Qed.

Lemma last_cons {A : Type} (l : list A) (x y : A) :
  last (y :: l) x = last l y.
Proof.
  revert x y. induction l as [|z l IH]; intros x y; [reflexivity|].
  change (last (y :: z :: l) x) with (last (z :: l) x).
  now rewrite !IH.
Qed.

Lemma nth_error_last {A : Type} (x : A) (l : list A) :
  nth_error (x :: l) (List.length l) = Some (last l x).
Proof.
  revert x. induction l as [|y l IH]; intro x; [reflexivity|].
  cbn [List.length nth_error]. rewrite IH. now rewrite last_cons.
Qed.

Ltac ascending_list :=
  unfold ascending;
  repeat (constructor; try (unfold ts_le; cbn; unfold Qle; cbn; lia)).

(** C1, as amended.  On a series sorted by timestamp: the lookup of the
    single-student chart returns a nearest sample (none closer to the
    query, none as close and earlier) whenever the series is not empty, and
    returns none on the empty series; the lookup of the comparison chart
    returns a nearest sample when the query is after the first timestamp
    of the series and not after the last, and returns none otherwise.
    When the two neighbours of the insertion index are at the same
    distance from the query, both lookups return the left one. *)
Theorem nearest_point_lookup (data : list HeartRateData) (t : number) :
  ascending data ->
  match data with
  | [] => Single.locate data t = None /\ Comparison.locate data t = None
  | first :: rest =>
      (exists d, Single.locate data t = Some d /\ nearest data t d) /\
      (timestamp first < t <= timestamp (last rest first) ->
       exists d, Comparison.locate data t = Some d /\ nearest data t d) /\
      (~ timestamp first < t <= timestamp (last rest first) ->
       Comparison.locate data t = None) /\
      (forall e0 e1,
         (0 < bisect_left data t)%nat ->
         nth_error data (bisect_left data t - 1) = Some e0 ->
         nth_error data (bisect_left data t) = Some e1 ->
         timestamp e1 - t == t - timestamp e0 ->
         Single.locate data t = Some e0 /\ Comparison.locate data t = Some e0)
  end.
Proof.
  intro Hasc. destruct data as [|first rest] eqn:Ed.
  - split; reflexivity.
  - rewrite <- Ed in *.
    assert (Hf : nth_error data 0 = Some first) by now rewrite Ed.
    assert (Hl : nth_error data (List.length data - 1) = Some (last rest first)).
    { rewrite Ed. cbn [List.length]. rewrite Nat.sub_1_r. cbn [Nat.pred].
      apply nth_error_last. }
    pose proof (index_inside_iff data t first _ Hasc Hf Hl) as Hin.
    split; [|split; [|split]].
    + apply single_locate_nearest; [exact Hasc | congruence].
    + intro H. apply comparison_locate_inside; [exact Hasc | now apply Hin].
    + intro H. apply comparison_locate_outside. intro H'. now apply H, Hin.
    + intros e0 e1. apply locate_tie_left.
Qed.

(** The comparison chart, hovered before the only sample of a line, shows
    no point for that line. *)
Lemma nearest_point_lookup_none_on_nonempty :
  let data := [mkData 70 10 "S2"] in
  ascending data /\ data <> [] /\ Comparison.locate data 5 = None.
Proof.
  cbv zeta. split; [ascending_list | split; [discriminate | reflexivity]].
Qed.

Lemma nearest_point_lookup_witness :
  let data := [mkData 100 0 "S1"; mkData 110 10 "S1"; mkData 90 20 "S1"] in
  (exists d, Single.locate data 9 = Some d /\ nearest data 9 d) /\
  (timestamp (mkData 100 0 "S1") < 9 <= timestamp (mkData 90 20 "S1") ->
   exists d, Comparison.locate data 9 = Some d /\ nearest data 9 d) /\
  (~ timestamp (mkData 100 0 "S1") < 9 <= timestamp (mkData 90 20 "S1") ->
   Comparison.locate data 9 = None) /\
  (forall e0 e1,
     (0 < bisect_left data 9%Q)%nat ->
     nth_error data (bisect_left data 9 - 1) = Some e0 ->
     nth_error data (bisect_left data 9) = Some e1 ->
     timestamp e1 - 9 == 9 - timestamp e0 ->
     Single.locate data 9 = Some e0 /\ Comparison.locate data 9 = Some e0).
Proof.
  apply (nearest_point_lookup
           [mkData 100 0 "S1"; mkData 110 10 "S1"; mkData 90 20 "S1"] 9).
  ascending_list.
Defined.

(** ** Extremes *)

Lemma d3_min_from (values : list number) (m : number) :
  exists r,
    fold_left (fun acc v =>
                 match acc with
                 | None => Some v
                 | Some m => if Qlt_bool v m then Some v else Some m
                 end) values (Some m) = Some r /\
    (r = m \/ In r values) /\ r <= m /\ (forall v, In v values -> r <= v).
Proof.
  revert m. induction values as [|v values IH]; intro m; cbn [fold_left].
  - exists m. repeat split; auto; try lra. intros v [].
  - destruct (Qlt_bool v m) eqn:E.
    + apply Qlt_bool_iff in E. destruct (IH v) as (r & Hr & Hin & Hle & Hall).
      exists r. split; [exact Hr|]. split; [|split].
      * right. destruct Hin as [->|Hin]; [now left | now right].
      * lra.
      * intros w [<-|Hw]; [exact Hle | now apply Hall].
    + apply Qlt_bool_false_iff in E. destruct (IH m) as (r & Hr & Hin & Hle & Hall).
      exists r. split; [exact Hr|]. split; [|split].
      * destruct Hin as [->|Hin]; [now left | right; now right].
      * exact Hle.
      * intros w [<-|Hw]; [lra | now apply Hall].
Qed.

Lemma d3_max_from (values : list number) (m : number) :
  exists r,
    fold_left (fun acc v =>
                 match acc with
                 | None => Some v
                 | Some m => if Qlt_bool m v then Some v else Some m
                 end) values (Some m) = Some r /\
    (r = m \/ In r values) /\ m <= r /\ (forall v, In v values -> v <= r).
Proof.
  revert m. induction values as [|v values IH]; intro m; cbn [fold_left].
  - exists m. repeat split; auto; try lra. intros v [].
  - destruct (Qlt_bool m v) eqn:E.
    + apply Qlt_bool_iff in E. destruct (IH v) as (r & Hr & Hin & Hle & Hall).
      exists r. split; [exact Hr|]. split; [|split].
      * right. destruct Hin as [->|Hin]; [now left | now right].
      * lra.
      * intros w [<-|Hw]; [exact Hle | now apply Hall].
    + apply Qlt_bool_false_iff in E. destruct (IH m) as (r & Hr & Hin & Hle & Hall).
      exists r. split; [exact Hr|]. split; [|split].
      * destruct Hin as [->|Hin]; [now left | right; now right].
      * exact Hle.
      * intros w [<-|Hw]; [lra | now apply Hall].
Qed.

(** [d3.min] of values, not all absent: a value of the list below all. *)
Lemma d3_min_spec (values : list number) :
  values <> [] ->
  exists r, d3_min values = Some r /\ In r values /\
            forall v, In v values -> r <= v.
Proof.
  destruct values as [|v values]; [congruence|]. intros _.
  unfold d3_min. cbn [fold_left].
  destruct (d3_min_from values v) as (r & Hr & Hin & Hle & Hall).
  exists r. split; [exact Hr|]. split.
  - destruct Hin as [->|Hin]; [now left | now right].
  - intros w [<-|Hw]; [exact Hle | now apply Hall].
Qed.

Lemma d3_max_spec (values : list number) :
  values <> [] ->
  exists r, d3_max values = Some r /\ In r values /\
            forall v, In v values -> v <= r.
Proof.
  destruct values as [|v values]; [congruence|]. intros _.
  unfold d3_max. cbn [fold_left].
  destruct (d3_max_from values v) as (r & Hr & Hin & Hle & Hall).
  exists r. split; [exact Hr|]. split.
  - destruct Hin as [->|Hin]; [now left | now right].
  - intros w [<-|Hw]; [exact Hle | now apply Hall].
Qed.

(** The full extent of a sample set that is not empty: its bounds are the
    least and the greatest timestamp of the set. *)
Lemma full_extent_spec (hr : list HeartRateData) :
  hr <> [] ->
  exists lo hi,
    full_extent hr = {| start := Some lo; end_ := Some hi |} /\
    (exists d, In d hr /\ timestamp d == lo) /\
    (forall d, In d hr -> lo <= timestamp d) /\
    (exists d, In d hr /\ timestamp d == hi) /\
    (forall d, In d hr -> timestamp d <= hi).
Proof.
  intro Hne.
  assert (Hts : timestamps hr <> []).
  { unfold timestamps. destruct hr; [congruence | discriminate]. }
  destruct (d3_min_spec _ Hts) as (lo & Elo & Hlo & Hlo').
  destruct (d3_max_spec _ Hts) as (hi & Ehi & Hhi & Hhi').
  exists (min_or0 (timestamps hr)), (max_or0 (timestamps hr)).
  split; [reflexivity|].
  unfold min_or0, max_or0. rewrite Elo, Ehi.
  pose proof (or0_Some lo) as Ho1. pose proof (or0_Some hi) as Ho2.
  unfold timestamps in *. apply in_map_iff in Hlo, Hhi.
  destruct Hlo as (dlo & <- & Hdlo). destruct Hhi as (dhi & <- & Hdhi).
  repeat split.
  - exists dlo. split; [exact Hdlo | now symmetry].
  - intros d Hd. rewrite Ho1. apply Hlo'. now apply in_map.
  - exists dhi. split; [exact Hdhi | now symmetry].
  - intros d Hd. rewrite Ho2. apply Hhi'. now apply in_map.
Qed.

(** ** The time window across recomputes *)

Lemma not_set_iff (tr : TimeRange) :
  not_set tr = true <-> zero_or_unset (start tr) \/ zero_or_unset (end_ tr).
Proof.
  unfold not_set. rewrite orb_true_iff, !negb_true_iff.
  destruct tr as [[s|] [e|]]; cbn [start end_ truthy_opt zero_or_unset];
    rewrite ?truthy_false_iff; intuition congruence.
Qed.

Lemma init_timeRange_not_set (hr : list HeartRateData) (tr : TimeRange) :
  not_set tr = true -> init_timeRange hr tr = full_extent hr.
Proof. unfold init_timeRange. now intros ->. Qed.

Lemma init_timeRange_set (hr : list HeartRateData) (tr : TimeRange) :
  not_set tr = false -> init_timeRange hr tr = tr.
Proof. unfold init_timeRange. now intros ->. Qed.

(** A second initialisation changes nothing. *)
Lemma init_timeRange_idem (hr : list HeartRateData) (tr : TimeRange) :
  init_timeRange hr (init_timeRange hr tr) = init_timeRange hr tr.
Proof.
  unfold init_timeRange at 2 3. destruct (not_set tr) eqn:E.
  - unfold init_timeRange. now destruct (not_set (full_extent hr)).
  - now apply init_timeRange_set.
Qed.

Module SingleFacts.
Import Single.

Lemma single_createChart_timeRange (st : State) :
  timeRange (createChart st) = init_timeRange (hr_data st) (timeRange st).
Proof. unfold createChart. now destruct (_ =? _)%nat. Qed.

Lemma single_createChart_hr_data (st : State) : hr_data (createChart st) = hr_data st.
Proof. unfold createChart. now destruct (_ =? _)%nat. Qed.

Lemma single_createChart_studentId (st : State) :
  studentId (createChart st) = studentId st.
Proof. unfold createChart. now destruct (_ =? _)%nat. Qed.

Lemma single_createChart_showAverage (st : State) :
  showAverage (createChart st) = showAverage st.
Proof. unfold createChart. now destruct (_ =? _)%nat. Qed.

Lemma single_createChart_settled (st : State) : settled (createChart st).
Proof.
  unfold settled. rewrite single_createChart_timeRange, single_createChart_hr_data.
  apply init_timeRange_idem.
Qed.

Lemma single_step_settled (st : State) (e : Event) : settled st -> settled (step st e).
Proof.
  intro H. destruct e; cbn [step]; try apply single_createChart_settled.
  unfold drag. destruct (chart st) as [c|]; [|exact H].
  unfold brushed. destruct (brush_selection _ _ _ _) as [[p0 p1]|]; [|exact H].
  apply single_createChart_settled.
Qed.

Lemma single_run_settled (hr : list HeartRateData) (events : list Event) :
  settled (run hr events).
Proof.
  unfold run. assert (H : settled (mounted hr)) by apply single_createChart_settled.
  revert H. generalize (mounted hr). induction events as [|e events IH];
    intros st H; cbn [fold_left]; [exact H|].
  apply IH. now apply single_step_settled.
Qed.

End SingleFacts.

Module ComparisonFacts.
Import Comparison.

Lemma comparison_createChart_timeRange (st : State) :
  timeRange (createChart st) =
  if (List.length (selectedStudents st) =? 0)%nat then timeRange st
  else init_timeRange (hr_data st) (timeRange st).
Proof.
  unfold createChart. destruct (_ =? _)%nat; [reflexivity|].
  destruct (color_each _ _) as [strokes domain1].
  now destruct (color_each _ _) as [items domain2].
Qed.

Lemma comparison_createChart_hr_data (st : State) : hr_data (createChart st) = hr_data st.
Proof.
  unfold createChart. destruct (_ =? _)%nat; [reflexivity|].
  destruct (color_each _ _) as [strokes domain1].
  now destruct (color_each _ _) as [items domain2].
Qed.

Lemma comparison_createChart_selectedStudents (st : State) :
  selectedStudents (createChart st) = selectedStudents st.
Proof.
  unfold createChart. destruct (_ =? _)%nat; [reflexivity|].
  destruct (color_each _ _) as [strokes domain1].
  now destruct (color_each _ _) as [items domain2].
Qed.

Lemma comparison_createChart_showAverages (st : State) :
  showAverages (createChart st) = showAverages st.
Proof.
  unfold createChart. destruct (_ =? _)%nat; [reflexivity|].
  destruct (color_each _ _) as [strokes domain1].
  now destruct (color_each _ _) as [items domain2].
Qed.

Lemma comparison_createChart_settled (st : State) : settled (createChart st).
Proof.
  unfold settled.
  rewrite comparison_createChart_timeRange, comparison_createChart_hr_data,
    comparison_createChart_selectedStudents.
  intro Hne. destruct (selectedStudents st) as [|s l]; [congruence|].
  cbn [List.length Nat.eqb]. apply init_timeRange_idem.
Qed.

Lemma comparison_cleared_settled (st : State) (selected : list string) :
  List.length selected = 0%nat -> settled (cleared st selected).
Proof.
  intros H Hne. cbn in Hne. destruct selected; [congruence | discriminate].
Qed.

Lemma comparison_step_settled (st : State) (e : Event) : settled st -> settled (step st e).
Proof.
  intro H. destruct e; cbn [step].
  - unfold toggleStudentSelection.
    destruct (Nat.ltb_spec 0
      (List.length
         (if includes (selectedStudents st) s
          then filter (fun x => negb (String.eqb x s)) (selectedStudents st)
          else selectedStudents st ++ [s]))).
    + apply comparison_createChart_settled.
    + apply comparison_cleared_settled. lia.
  - apply comparison_createChart_settled.
  - now apply comparison_cleared_settled.
  - unfold toggleAverages. cbn [selectedStudents].
    destruct (Nat.ltb_spec 0 (List.length (selectedStudents st))).
    + apply comparison_createChart_settled.
    + exact H.
Qed.

Lemma comparison_run_settled (hr : list HeartRateData) (events : list Event) :
  settled (run hr events).
Proof.
  unfold run. assert (H : settled (initial hr)) by (intro; now cbn in *).
  revert H. generalize (initial hr). induction events as [|e events IH];
    intros st H; cbn [fold_left]; [exact H|].
  apply IH. now apply comparison_step_settled.
Qed.

End ComparisonFacts.

(** C6.  Whatever the state of the single-student chart (its student, its
    window, its toggle), [resetZoom] leaves as window the least and the
    greatest timestamp of all of [hr_data]: the result depends on the
    loaded samples alone, and the selected student is kept. *)
Theorem resetZoom_restores_full_extent (st : Single.State) :
  Single.hr_data st <> [] ->
  exists lo hi,
    Single.timeRange (Single.resetZoom st)
      = {| start := Some lo; end_ := Some hi |} /\
    (exists d, In d (Single.hr_data st) /\ timestamp d == lo) /\
    (forall d, In d (Single.hr_data st) -> lo <= timestamp d) /\
    (exists d, In d (Single.hr_data st) /\ timestamp d == hi) /\
    (forall d, In d (Single.hr_data st) -> timestamp d <= hi) /\
    Single.studentId (Single.resetZoom st) = Single.studentId st /\
    (forall st', Single.hr_data st' = Single.hr_data st ->
       Single.timeRange (Single.resetZoom st')
         = Single.timeRange (Single.resetZoom st)).
Proof.
  intro Hne.
  assert (Hreset : forall s, Single.timeRange (Single.resetZoom s)
                             = full_extent (Single.hr_data s)).
  { intro s. unfold Single.resetZoom.
    rewrite SingleFacts.single_createChart_timeRange. cbn [Single.hr_data Single.timeRange].
    unfold init_timeRange. now destruct (not_set _). }
  destruct (full_extent_spec _ Hne) as (lo & hi & E & H1 & H2 & H3 & H4).
  exists lo, hi. rewrite Hreset, E. repeat split; trivial.
  - unfold Single.resetZoom. now rewrite SingleFacts.single_createChart_studentId.
  - intros st' Hst'. now rewrite Hreset, Hst'.
Qed.

Lemma resetZoom_restores_full_extent_witness :
  let hr := [mkData 100 0 "S1"; mkData 110 10 "S1"; mkData 70 25 "S2"] in
  let st := Single.run hr [Single.Drag 200 400; Single.SelectStudent "S2"] in
  exists lo hi,
    Single.timeRange (Single.resetZoom st)
      = {| start := Some lo; end_ := Some hi |} /\
    (exists d, In d (Single.hr_data st) /\ timestamp d == lo) /\
    (forall d, In d (Single.hr_data st) -> lo <= timestamp d) /\
    (exists d, In d (Single.hr_data st) /\ timestamp d == hi) /\
    (forall d, In d (Single.hr_data st) -> timestamp d <= hi) /\
    Single.studentId (Single.resetZoom st) = Single.studentId st /\
    (forall st', Single.hr_data st' = Single.hr_data st ->
       Single.timeRange (Single.resetZoom st')
         = Single.timeRange (Single.resetZoom st)).
Proof.
  intros hr st. apply (resetZoom_restores_full_extent st).
  vm_compute. discriminate.
Defined.

(** C9.  In every state the page can reach, toggling the average overlay
    flips the flag and leaves the time window and the selection as they
    were: the student of the single-student chart, the selected students
    of the comparison chart. *)
Theorem toggle_average_frame (hr : list HeartRateData)
  (es : list Single.Event) (ec : list Comparison.Event) :
  let s := Single.run hr es in
  let c := Comparison.run hr ec in
  (Single.timeRange (Single.toggleAverage s) = Single.timeRange s /\
   Single.studentId (Single.toggleAverage s) = Single.studentId s /\
   Single.showAverage (Single.toggleAverage s)
     = negb (Single.showAverage s)) /\
  (Comparison.timeRange (Comparison.toggleAverages c)
     = Comparison.timeRange c /\
   Comparison.selectedStudents (Comparison.toggleAverages c)
     = Comparison.selectedStudents c /\
   Comparison.showAverages (Comparison.toggleAverages c)
     = negb (Comparison.showAverages c)).
Proof.
  intros s c. split.
  - unfold Single.toggleAverage.
    rewrite SingleFacts.single_createChart_timeRange,
      SingleFacts.single_createChart_studentId, SingleFacts.single_createChart_showAverage.
    cbn [Single.hr_data Single.timeRange Single.studentId Single.showAverage].
    repeat split. apply (SingleFacts.single_run_settled hr es).
  - pose proof (ComparisonFacts.comparison_run_settled hr ec) as Hs. fold c in Hs.
    unfold Comparison.toggleAverages. cbn [Comparison.selectedStudents].
    destruct (Nat.ltb_spec 0 (List.length (Comparison.selectedStudents c)))
      as [Hlt|Hge]; [|repeat split].
    rewrite ComparisonFacts.comparison_createChart_timeRange,
      ComparisonFacts.comparison_createChart_selectedStudents,
      ComparisonFacts.comparison_createChart_showAverages.
    cbn [Comparison.hr_data Comparison.timeRange Comparison.selectedStudents
         Comparison.showAverages].
    destruct (Nat.eqb_spec (List.length (Comparison.selectedStudents c)) 0);
      [lia|].
    repeat split. apply Hs. intro E. rewrite E in Hlt. cbn in Hlt. lia.
Qed.

(** C10.  A recompute treats a window bound of zero as a bound not set.
    From a window with such a bound, [createChart] leaves as window the
    least and the greatest timestamp of all of [hr_data] (in the
    comparison chart when a student is selected, the case in which it
    reaches that code), while a window with two bounds that are not zero
    is kept as it is.  The window that spans samples whose least timestamp
    is zero is itself a window with a zero bound, and a brush selection
    whose start time is zero is replaced by the least and the greatest
    timestamp of all of [hr_data] in the recompute that [brushed] runs. *)
Theorem zero_window_bound_reinitialised
  (s : Single.State) (c : Comparison.State) :
  (Single.hr_data s <> [] ->
   zero_or_unset (start (Single.timeRange s))
     \/ zero_or_unset (end_ (Single.timeRange s)) ->
   spans_samples (Single.hr_data s)
     (Single.timeRange (Single.createChart s))) /\
  (forall lo hi, ~ lo == 0 -> ~ hi == 0 ->
     Single.timeRange s = {| start := Some lo; end_ := Some hi |} ->
     Single.timeRange (Single.createChart s)
       = {| start := Some lo; end_ := Some hi |}) /\
  (Comparison.hr_data c <> [] -> Comparison.selectedStudents c <> [] ->
   zero_or_unset (start (Comparison.timeRange c))
     \/ zero_or_unset (end_ (Comparison.timeRange c)) ->
   spans_samples (Comparison.hr_data c)
     (Comparison.timeRange (Comparison.createChart c))) /\
  (forall lo hi, ~ lo == 0 -> ~ hi == 0 ->
     Comparison.timeRange c = {| start := Some lo; end_ := Some hi |} ->
     Comparison.timeRange (Comparison.createChart c)
       = {| start := Some lo; end_ := Some hi |}) /\
  (forall tr d0,
     spans_samples (Single.hr_data s) tr ->
     In d0 (Single.hr_data s) -> timestamp d0 == 0 ->
     (forall d, In d (Single.hr_data s) -> 0 <= timestamp d) ->
     zero_or_unset (start tr)) /\
  (forall ch p0 p1,
     Single.hr_data s <> [] -> time_at (Single.xScale ch) p0 == 0 ->
     spans_samples (Single.hr_data s)
       (Single.timeRange (Single.brushed ch s (Some (p0, p1))))).
Proof.
  assert (Hkeep : forall hr lo hi, ~ lo == 0 -> ~ hi == 0 ->
            init_timeRange hr {| start := Some lo; end_ := Some hi |}
            = {| start := Some lo; end_ := Some hi |}).
  { intros hr lo hi Hlo Hhi. apply init_timeRange_set.
    destruct (not_set _) eqn:E; [|reflexivity].
    apply not_set_iff in E. cbn [start end_ zero_or_unset] in E. tauto. }
  split; [|split; [|split; [|split; [|split]]]].
  - intros Hne Hz. rewrite SingleFacts.single_createChart_timeRange.
    rewrite init_timeRange_not_set by now apply not_set_iff.
    now apply full_extent_spec.
  - intros lo hi Hlo Hhi E.
    rewrite SingleFacts.single_createChart_timeRange, E. now apply Hkeep.
  - intros Hne Hsel Hz.
    rewrite ComparisonFacts.comparison_createChart_timeRange.
    destruct (Comparison.selectedStudents c) as [|x l]; [congruence|].
    cbn [List.length Nat.eqb].
    rewrite init_timeRange_not_set by now apply not_set_iff.
    now apply full_extent_spec.
  - intros lo hi Hlo Hhi E.
    rewrite ComparisonFacts.comparison_createChart_timeRange, E.
    destruct (_ =? _)%nat; [reflexivity | now apply Hkeep].
  - intros tr d0 (lo & hi & -> & (d & Hd & Ed) & Hleast & _) Hd0 E0 Hpos.
    cbn [start zero_or_unset].
    pose proof (Hleast d0 Hd0) as H1. pose proof (Hpos d Hd) as H2. lra.
  - intros ch p0 p1 Hne H0. unfold Single.brushed.
    rewrite SingleFacts.single_createChart_timeRange.
    cbn [Single.hr_data Single.timeRange].
    rewrite init_timeRange_not_set
      by (apply not_set_iff; left; exact H0).
    now apply full_extent_spec.
Qed.

(** A window [[0, 4]] in the single-student chart and a window [[3, 0]]
    in the comparison chart, on samples from 0 to 25 seconds, and a brush
    selection that starts at the left edge of a chart whose window starts
    at zero. *)
Lemma zero_window_bound_reinitialised_witness :
  let hr := [mkData 100 0 "S1"; mkData 110 10 "S1"; mkData 70 25 "S2"] in
  let s := {| Single.hr_data := hr; Single.studentId := "S1";
              Single.timeRange := {| start := Some 0; end_ := Some 4 |};
              Single.showAverage := false; Single.chart := None |} in
  let c := {| Comparison.hr_data := hr;
              Comparison.selectedStudents := ["S2"%string];
              Comparison.timeRange := {| start := Some 3; end_ := Some 0 |};
              Comparison.showAverages := false;
              Comparison.colorDomain := color_domain0;
              Comparison.chart := None |} in
  let ch := {| Single.filteredData := [];
               Single.xScale :=
                 xScale_of Single.width Single.margin
                   {| start := Some 0; end_ := Some 25 |};
               Single.yScale := yScale_of Single.height Single.margin [];
               Single.averageLine := None |} in
  spans_samples hr (Single.timeRange (Single.createChart s)) /\
  Single.timeRange (Single.createChart s)
    = {| start := Some 0; end_ := Some 25 |} /\
  spans_samples hr (Comparison.timeRange (Comparison.createChart c)) /\
  Comparison.timeRange (Comparison.createChart c)
    = {| start := Some 0; end_ := Some 25 |} /\
  spans_samples hr
    (Single.timeRange (Single.brushed ch s (Some (80, 300)))).
Proof.
  intros hr s c ch.
  destruct (zero_window_bound_reinitialised s c)
    as (H1 & _ & H2 & _ & _ & H3).
  split; [apply H1; [discriminate | left; reflexivity]|].
  split; [reflexivity|].
  split; [apply H2; [discriminate | discriminate | right; reflexivity]|].
  split; [reflexivity|].
  apply H3; [discriminate | reflexivity].
Defined.

(** A drag of the brush from the left edge of a chart whose window starts
    at zero: the zoom is dropped, the window is the full extent. *)
Example zero_start_zoom_dropped :
  let hr := [mkData 100 0 "S1"; mkData 110 10 "S1"; mkData 90 20 "S1"] in
  Single.timeRange (Single.drag (Single.mounted hr) 80 300)
  = {| start := Some 0; end_ := Some 20 |}.
Proof. vm_compute. reflexivity. Qed.

(** ** Grouping by student *)

Section Group.

Implicit Types (m : list (string * list HeartRateData)) (d : HeartRateData).

Lemma group_get_add (k : string) d m :
  group_get k (group_add d m) =
  if String.eqb (student d) k
  then Some (match group_get k m with Some ds => ds ++ [d] | None => [d] end)
  else group_get k m.
Proof.
  induction m as [|[k' ds] m IH]; cbn [group_add group_get].
  - now destruct (String.eqb (student d) k).
  - destruct (String.eqb_spec k' (student d)) as [->|Hk'];
      cbn [group_get].
    + now destruct (String.eqb_spec (student d) k).
    + destruct (String.eqb_spec k' k) as [->|Hk].
      * destruct (String.eqb_spec (student d) k); [congruence | reflexivity].
      * exact IH.
Qed.

Lemma group_add_keys (k : string) d m :
  In k (map fst (group_add d m)) <-> k = student d \/ In k (map fst m).
Proof.
  induction m as [|[k' ds] m IH]; cbn [group_add map fst In].
  - intuition.
  - destruct (String.eqb_spec k' (student d)) as [->|Hk'];
      cbn [map fst In]; intuition.
Qed.

Lemma group_add_NoDup d m :
  NoDup (map fst m) -> NoDup (map fst (group_add d m)).
Proof.
  induction m as [|[k' ds] m IH]; cbn [group_add map fst]; intro H.
  - constructor; [intros [] | constructor].
  - inversion H as [|? ? Hnin Hnd]; subst.
    destruct (String.eqb_spec k' (student d)) as [->|Hk']; cbn [map fst].
    + now constructor.
    + constructor; [|now apply IH].
      rewrite group_add_keys. intros [->|Hin]; congruence.
Qed.

Lemma group_get_In (k : string) (ds : list HeartRateData) m :
  NoDup (map fst m) -> In (k, ds) m -> group_get k m = Some ds.
Proof.
  induction m as [|[k' ds'] m IH]; cbn [map fst In group_get]; intros Hnd H.
  - contradiction.
  - inversion Hnd as [|? ? Hnin Hnd']; subst. destruct H as [H|H].
    + injection H as -> ->. now rewrite String.eqb_refl.
    + destruct (String.eqb_spec k' k) as [->|Hk]; [|now apply IH].
      exfalso. apply Hnin. change k with (fst (k, ds)). now apply in_map.
Qed.

Lemma group_get_Some_In (k : string) (ds : list HeartRateData) m :
  group_get k m = Some ds -> In (k, ds) m.
Proof.
  induction m as [|[k' ds'] m IH]; cbn [group_get In]; intro H.
  - discriminate.
  - destruct (String.eqb_spec k' k) as [->|Hk].
    + injection H as ->. now left.
    + right. now apply IH.
Qed.

Lemma fold_group_add (data : list HeartRateData) m (k : string) :
  NoDup (map fst m) ->
  NoDup (map fst (fold_left (fun m d => group_add d m) data m)) /\
  group_get k (fold_left (fun m d => group_add d m) data m) =
  match group_get k m, samples_of k data with
  | None, [] => None
  | None, l => Some l
  | Some ds, l => Some (ds ++ l)
  end.
Proof.
  revert m. induction data as [|d data IH]; intros m Hnd;
    cbn [fold_left samples_of filter].
  - split; [exact Hnd|]. destruct (group_get k m); [|reflexivity].
    now rewrite app_nil_r.
  - destruct (IH (group_add d m) (group_add_NoDup d m Hnd)) as [H1 H2].
    split; [exact H1|]. rewrite H2, group_get_add.
    fold (samples_of k data).
    destruct (String.eqb (student d) k).
    + destruct (group_get k m) as [ds|].
      * now rewrite <- app_assoc.
      * reflexivity.
    + reflexivity.
Qed.

(** A group of [d3.group] holds the samples of its student, in data order,
    and there is a group for each student that has a sample. *)
Lemma d3_group_spec (data : list HeartRateData) (k : string)
  (ds : list HeartRateData) :
  In (k, ds) (d3_group data) <-> ds = samples_of k data /\ ds <> [].
Proof.
  unfold d3_group.
  destruct (fold_group_add data [] k) as [Hnd Hget]; [constructor|].
  cbn [group_get] in Hget. split.
  - intro H. apply (group_get_In _ _ _ Hnd) in H. rewrite H in Hget.
    destruct (samples_of k data); [discriminate|].
    injection Hget as ->. split; [reflexivity | discriminate].
  - intros [-> Hne]. apply group_get_Some_In. rewrite Hget.
    destruct (samples_of k data); [congruence | reflexivity].
Qed.

End Group.

(** ** The filter *)

Lemma includes_iff (xs : list string) (x : string) :
  includes xs x = true <-> In x xs.
Proof.
  unfold includes. rewrite existsb_exists. split.
  - intros (y & Hy & E). apply String.eqb_eq in E. now subst.
  - intro H. exists x. split; [exact H | apply String.eqb_refl].
Qed.

Lemma in_window_iff (lo hi : number) (d : HeartRateData) :
  in_window {| start := Some lo; end_ := Some hi |} d = true <->
  lo <= timestamp d <= hi.
Proof.
  unfold in_window. cbn [start end_].
  rewrite andb_true_iff, !Qle_bool_iff, !or0_Some. tauto.
Qed.

Lemma init_timeRange_bounds (hr : list HeartRateData) (tr : TimeRange) :
  exists lo hi, init_timeRange hr tr = {| start := Some lo; end_ := Some hi |}.
Proof.
  unfold init_timeRange. destruct (not_set tr) eqn:E.
  - eexists _, _. reflexivity.
  - unfold not_set in E. apply orb_false_iff in E. destruct E as [E1 E2].
    destruct tr as [[lo|] [hi|]]; cbn in E1, E2; try discriminate.
    now exists lo, hi.
Qed.

Lemma single_filter_data_iff (hr : list HeartRateData) (id : string)
  (lo hi : number) (d : HeartRateData) :
  In d (Single.filter_data hr id {| start := Some lo; end_ := Some hi |}) <->
  In d hr /\ student d = id /\ lo <= timestamp d <= hi.
Proof.
  unfold Single.filter_data.
  rewrite filter_In, andb_true_iff, String.eqb_eq, in_window_iff. tauto.
Qed.

Lemma comparison_filter_data_iff (hr : list HeartRateData)
  (selected : list string) (lo hi : number) (d : HeartRateData) :
  In d (Comparison.filter_data hr selected
          {| start := Some lo; end_ := Some hi |}) <->
  In d hr /\ In (student d) selected /\ lo <= timestamp d <= hi.
Proof.
  unfold Comparison.filter_data.
  rewrite filter_In, andb_true_iff, includes_iff, in_window_iff. tauto.
Qed.

Lemma sort_groups_In (groups : list (string * list HeartRateData))
  (k : string) (ds : list HeartRateData) :
  In (k, ds) (Comparison.sort_groups groups) <->
  exists ds0, In (k, ds0) groups /\ ds = sort_by_timestamp ds0.
Proof.
  unfold Comparison.sort_groups. rewrite in_map_iff. split.
  - intros ([k0 ds0] & E & H). cbn in E. injection E as <- <-. eauto.
  - intros (ds0 & H & ->). now exists (k, ds0).
Qed.

Lemma samples_of_In (k : string) (data : list HeartRateData)
  (d : HeartRateData) :
  In d (samples_of k data) <-> In d data /\ student d = k.
Proof. unfold samples_of. now rewrite filter_In, String.eqb_eq. Qed.

Lemma length_zero_iff_nil {A : Type} (l : list A) :
  (List.length l =? 0)%nat = true <-> l = [].
Proof.
  destruct l; cbn; split; intro H; trivial; discriminate.
Qed.

(** Every sample is inside the full extent. *)
Lemma in_full_extent (hr : list HeartRateData) (d : HeartRateData) :
  In d hr -> in_window (full_extent hr) d = true.
Proof.
  intro Hd.
  assert (Hne : hr <> []) by (intros ->; contradiction).
  destruct (full_extent_spec hr Hne) as (lo & hi & -> & _ & Hlo & _ & Hhi).
  apply in_window_iff. split; [now apply Hlo | now apply Hhi].
Qed.

Lemma sort_groups_names (groups : list (string * list HeartRateData)) :
  map fst (Comparison.sort_groups groups) = map fst groups.
Proof.
  unfold Comparison.sort_groups. rewrite map_map. reflexivity.
Qed.

Lemma d3_group_NoDup (data : list HeartRateData) :
  NoDup (map fst (d3_group data)).
Proof.
  unfold d3_group.
  apply (fold_group_add data [] EmptyString). constructor.
Qed.











(** C5, as amended.  The filters test the student and the timestamp of a
    sample and nothing else: a sample of [hr_data] is in the filtered
    output exactly when its student is selected and its timestamp is
    within the window, whatever its bpm value, and it is still there in
    the sorted series.  No sample is left out for its bpm value. *)
Theorem filter_keeps_any_bpm (hr : list HeartRateData) (id : string)
  (selected : list string) (lo hi : number) (v t : number) (k : string) :
  let tr := {| start := Some lo; end_ := Some hi |} in
  let d := {| value := v; timestamp := t; student := k |} in
  (In d (sort_by_timestamp (Single.filter_data hr id tr)) <->
   In d hr /\ k = id /\ lo <= t <= hi) /\
  (In d (Comparison.filter_data hr selected tr) <->
   In d hr /\ In k selected /\ lo <= t <= hi).
Proof.
  intros tr d. split.
  - rewrite sort_by_timestamp_In. apply single_filter_data_iff.
  - apply comparison_filter_data_iff.
Qed.

(** A sample with a negative bpm value is drawn by both charts. *)
Lemma negative_bpm_sample_kept :
  let bad := mkData (-5) 10 "S1" in
  let hr := [mkData 80 0 "S1"; bad; mkData 90 20 "S1"] in
  value bad < 0 /\
  (exists ch, Single.chart (Single.mounted hr) = Some ch /\
              In bad (Single.filteredData ch)) /\
  (exists ch ds,
     Comparison.chart (Comparison.run hr [Comparison.ToggleStudent "S1"])
       = Some ch /\
     In ("S1"%string, ds) (Comparison.studentData ch) /\ In bad ds).
Proof.
  cbv zeta. split; [reflexivity|]. split.
  - eexists. split; [vm_compute; reflexivity|]. right. left. reflexivity.
  - eexists _, _. split; [vm_compute; reflexivity|].
    split; [left; reflexivity|]. right. left. reflexivity.
Qed.

(** ** Scales *)

Lemma bimap_up (d0 d1 r0 r1 x : number) :
  d0 < d1 ->
  bimap d0 d1 r0 r1 x == r0 + (x - d0) / (d1 - d0) * (r1 - r0).
Proof.
  intro H. unfold bimap, normalize, interpolateNumber.
  assert (E1 : Qlt_bool d1 d0 = false) by (apply Qlt_bool_false_iff; lra).
  assert (E2 : truthy (d1 - d0) = true) by (apply truthy_true_iff; lra).
  rewrite E1, E2. field. lra.
Qed.

Lemma bimap_flat (d0 d1 r0 r1 x : number) :
  d0 == d1 -> bimap d0 d1 r0 r1 x == (r0 + r1) / 2.
Proof.
  intro H. unfold bimap, normalize, interpolateNumber.
  assert (E1 : Qlt_bool d1 d0 = false) by (apply Qlt_bool_false_iff; lra).
  assert (E2 : truthy (d1 - d0) = false) by (apply truthy_false_iff; lra).
  rewrite E1, E2. field.
Qed.

Lemma bimap_mono (d0 d1 r0 r1 x y : number) :
  d0 < d1 -> r0 <= r1 -> x <= y ->
  bimap d0 d1 r0 r1 x <= bimap d0 d1 r0 r1 y.
Proof.
  intros Hd Hr Hxy. rewrite !bimap_up by exact Hd.
  assert (H : (x - d0) / (d1 - d0) <= (y - d0) / (d1 - d0)).
  { apply Qmult_le_compat_r; [lra|]. apply Qlt_le_weak, Qinv_lt_0_compat. lra. }
  assert (H' : (x - d0) / (d1 - d0) * (r1 - r0)
               <= (y - d0) / (d1 - d0) * (r1 - r0)).
  { apply Qmult_le_compat_r; [exact H | lra]. }
  lra.
Qed.

(** The time at a pixel grows with the pixel, on a scale whose domain and
    range are both ascending. *)
Lemma time_at_mono (s : TimeScale) (x y : number) :
  t_range0 s < t_range1 s -> (t_domain0 s <= t_domain1 s)%Z -> x <= y ->
  time_at s x <= time_at s y.
Proof.
  intros Hr Hd Hxy. unfold time_at, time_invert.
  assert (H : (Qtrunc (bimap (t_range0 s) (t_range1 s)
                         (inject_Z (t_domain0 s)) (inject_Z (t_domain1 s)) x)
               <= Qtrunc (bimap (t_range0 s) (t_range1 s)
                            (inject_Z (t_domain0 s)) (inject_Z (t_domain1 s)) y))%Z).
  { apply Qtrunc_le, bimap_mono; trivial. now rewrite <- Zle_Qle. }
  rewrite Zle_Qle in H.
  apply Qmult_le_compat_r; [exact H | easy].
Qed.

Lemma Qtrunc_comp (x y : Q) : x == y -> Qtrunc x = Qtrunc y.
Proof.
  intro H. unfold Qtrunc.
  rewrite (Qleb_comp 0 0 (Qeq_refl 0) x y H).
  now rewrite (Qfloor_comp x y H), (Qceiling_comp x y H).
Qed.

Lemma bimap_comp (d0 d1 r0 r1 x y : number) :
  x == y -> bimap d0 d1 r0 r1 x == bimap d0 d1 r0 r1 y.
Proof.
  intro H. unfold bimap, normalize, interpolateNumber.
  destruct (Qlt_bool d1 d0), (truthy (d0 - d1)), (truthy (d1 - d0));
    now rewrite ?H.
Qed.

Lemma time_at_comp (s : TimeScale) (x y : number) :
  x == y -> time_at s x = time_at s y.
Proof.
  intro H. unfold time_at, time_invert.
  now rewrite (Qtrunc_comp _ _ (bimap_comp _ _ _ _ x y H)).
Qed.

(** From a pixel to its [Date] and back: the pixel moves by less than the
    width of one millisecond on the screen. *)
Lemma round_trip_error (s : TimeScale) (x : number) :
  t_range0 s < t_range1 s -> (t_domain0 s < t_domain1 s)%Z ->
  Qabs (time_apply s (time_invert s x) - x)
  < (t_range1 s - t_range0 s) / inject_Z (t_domain1 s - t_domain0 s).
Proof.
  intros Hr Hd. unfold time_apply, time_invert.
  set (r0 := t_range0 s) in *. set (r1 := t_range1 s) in *.
  assert (HD : inject_Z (t_domain0 s) < inject_Z (t_domain1 s))
    by now rewrite <- Zlt_Qlt.
  unfold Z.sub. rewrite inject_Z_plus, inject_Z_opp.
  set (D0 := inject_Z (t_domain0 s)) in *.
  set (D1 := inject_Z (t_domain1 s)) in *.
  pose proof (bimap_up r0 r1 D0 D1 x Hr) as Ev.
  set (v := bimap r0 r1 D0 D1 x) in *.
  destruct (Qtrunc_close v) as [Hlo Hhi].
  set (z := inject_Z (Qtrunc v)) in *.
  rewrite (bimap_up D0 D1 r0 r1 z HD).
  assert (E : r0 + (z - D0) / (D1 - D0) * (r1 - r0) - x
              == (z - v) * ((r1 - r0) / (D1 + - D0))).
  { rewrite Ev. field. split; lra. }
  rewrite E, Qabs_Qmult.
  assert (Hk : 0 < (r1 - r0) / (D1 + - D0)).
  { apply Qlt_shift_div_l; lra. }
  rewrite (Qabs_pos ((r1 - r0) / (D1 + - D0))) by lra.
  assert (Ha : Qabs (z - v) < 1).
  { apply Qabs_Qlt_condition. split; lra. }
  setoid_replace ((r1 - r0) / (D1 + - D0))
    with (1 * ((r1 - r0) / (D1 + - D0))) at 2 by ring.
  now apply Qmult_lt_compat_r.
Qed.

(** C8, as amended.  On the time scale of either chart, each for its own
    window: taking a pixel to its [Date] and the [Date] back to a pixel
    moves the pixel by less than the width of one millisecond on the
    screen, which is the width of the chart area (620 pixels in the
    single-student chart, 1470 in the comparison chart) over the
    milliseconds of the window.  So the pixel comes back within one pixel
    for every window whose two [Date]s are at least as many milliseconds
    apart as the chart area is pixels wide: from 620 milliseconds in the
    single-student chart, from 1470 in the comparison chart. *)
Theorem time_scale_round_trip (tr1 tr2 : TimeRange) (x : number) :
  let s1 := xScale_of Single.width Single.margin tr1 in
  let s2 := xScale_of Comparison.width Comparison.margin tr2 in
  ((t_domain0 s1 < t_domain1 s1)%Z ->
   Qabs (time_apply s1 (time_invert s1 x) - x)
   < 620 / inject_Z (t_domain1 s1 - t_domain0 s1)) /\
  ((620 <= t_domain1 s1 - t_domain0 s1)%Z ->
   Qabs (time_apply s1 (time_invert s1 x) - x) < 1) /\
  ((t_domain0 s2 < t_domain1 s2)%Z ->
   Qabs (time_apply s2 (time_invert s2 x) - x)
   < 1470 / inject_Z (t_domain1 s2 - t_domain0 s2)) /\
  ((1470 <= t_domain1 s2 - t_domain0 s2)%Z ->
   Qabs (time_apply s2 (time_invert s2 x) - x) < 1).
Proof.
  intros s1 s2.
  assert (B1 : (t_domain0 s1 < t_domain1 s1)%Z ->
               Qabs (time_apply s1 (time_invert s1 x) - x)
               < 620 / inject_Z (t_domain1 s1 - t_domain0 s1)).
  { intro H. apply (round_trip_error s1 x); [reflexivity | exact H]. }
  assert (B2 : (t_domain0 s2 < t_domain1 s2)%Z ->
               Qabs (time_apply s2 (time_invert s2 x) - x)
               < 1470 / inject_Z (t_domain1 s2 - t_domain0 s2)).
  { intro H. apply (round_trip_error s2 x); [reflexivity | exact H]. }
  split; [exact B1|]. split; [|split; [exact B2|]].
  - intro H. eapply Qlt_le_trans; [apply B1; lia|].
    apply Qle_shift_div_r.
    + change 0 with (inject_Z 0). rewrite <- Zlt_Qlt. lia.
    + rewrite Zle_Qle in H. change 620 with (inject_Z 620). lra.
  - intro H. eapply Qlt_le_trans; [apply B2; lia|].
    apply Qle_shift_div_r.
    + change 0 with (inject_Z 0). rewrite <- Zlt_Qlt. lia.
    + rewrite Zle_Qle in H. change 1470 with (inject_Z 1470). lra.
Qed.

(** A window of one second is wide enough for the single-student chart,
    and not for the comparison chart, which has its own window here. *)
Lemma time_scale_round_trip_witness :
  let tr1 := {| start := Some 1; end_ := Some 2 |} in
  let tr2 := {| start := Some 0; end_ := Some 20 |} in
  let s1 := xScale_of Single.width Single.margin tr1 in
  let s2 := xScale_of Comparison.width Comparison.margin tr2 in
  (620 <= t_domain1 s1 - t_domain0 s1 < 1470)%Z /\
  (1470 <= t_domain1 s2 - t_domain0 s2)%Z /\
  Qabs (time_apply s1 (time_invert s1 (1001 # 3)) - (1001 # 3)) < 1 /\
  Qabs (time_apply s2 (time_invert s2 (1001 # 3)) - (1001 # 3)) < 1.
Proof.
  cbv zeta.
  destruct (time_scale_round_trip {| start := Some 1; end_ := Some 2 |}
              {| start := Some 0; end_ := Some 20 |} (1001 # 3))
    as (_ & H1 & _ & H2).
  split; [vm_compute; split; discriminate || reflexivity|].
  split; [vm_compute; discriminate|].
  split; [apply H1 | apply H2]; vm_compute; discriminate.
Defined.

(** A window a quarter of a second wide, [start < end], on the 620 pixels
    of the single-student chart: the pixel 82 comes back at 80. *)
Lemma time_scale_round_trip_fails_on_narrow_window :
  let tr := {| start := Some 1; end_ := Some (5 # 4) |} in
  let s := xScale_of Single.width Single.margin tr in
  1 < 5 # 4 /\
  margin_left Single.margin <= 82
    <= Single.width - margin_right Single.margin /\
  time_invert s 82 = 1000%Z /\
  time_apply s (time_invert s 82) == 80 /\
  ~ Qabs (time_apply s (time_invert s 82) - 82) <= 1.
Proof.
  cbv zeta. split; [reflexivity|]. split; [split; discriminate|].
  split; [reflexivity|]. split; [reflexivity|].
  vm_compute. intro H. now apply H.
Qed.

(** ** The brush *)

Lemma full_extent_ordered (hr : list HeartRateData) : ordered (full_extent hr).
Proof.
  eexists _, _. split; [reflexivity|]. unfold min_or0, max_or0.
  destruct (timestamps hr) as [|v vs] eqn:E.
  - cbn. lra.
  - assert (Hne : v :: vs <> []) by discriminate.
    destruct (d3_min_spec _ Hne) as (lo & Elo & Hlo & Hlo').
    destruct (d3_max_spec _ Hne) as (hi & Ehi & Hhi & Hhi').
    rewrite Elo, Ehi, !or0_Some. specialize (Hlo' v (or_introl eq_refl)).
    specialize (Hhi' v (or_introl eq_refl)). lra.
Qed.

Lemma init_timeRange_ordered (hr : list HeartRateData) (tr : TimeRange) :
  ordered tr \/ not_set tr = true -> ordered (init_timeRange hr tr).
Proof.
  intros [H|H]; unfold init_timeRange.
  - destruct (not_set tr); [apply full_extent_ordered | exact H].
  - rewrite H. apply full_extent_ordered.
Qed.

Lemma xScale_of_ascending (width : number) (margin : Margin) (tr : TimeRange) :
  ordered tr ->
  (t_domain0 (xScale_of width margin tr)
   <= t_domain1 (xScale_of width margin tr))%Z.
Proof.
  intros (lo & hi & -> & H). cbn [xScale_of t_domain0 t_domain1 start end_].
  apply Qtrunc_le. rewrite !or0_Some. lra.
Qed.

Module BrushFacts.
Import Single.

Lemma createChart_consistent (st : State) :
  ordered (timeRange st) \/ not_set (timeRange st) = true ->
  consistent (createChart st).
Proof.
  intro H. split.
  - rewrite SingleFacts.single_createChart_timeRange.
    now apply init_timeRange_ordered.
  - intro ch. unfold createChart.
    destruct (_ =? _)%nat; cbn [chart timeRange]; [discriminate|].
    now intros [= <-].
Qed.

Lemma consistent_time_order (st : State) (ch : Chart) (x y : number) :
  consistent st -> chart st = Some ch -> x <= y ->
  time_at (xScale ch) x <= time_at (xScale ch) y.
Proof.
  intros [Hord Hch] E Hxy. rewrite (Hch ch E).
  apply time_at_mono; trivial.
  - reflexivity.
  - now apply xScale_of_ascending.
Qed.

Lemma brush_selection_order (e0 e1 a b p0 p1 : number) :
  brush_selection e0 e1 a b = Some (p0, p1) -> p0 <= p1.
Proof.
  unfold brush_selection. destruct (_ || _); [discriminate|].
  destruct (Qeq_bool _ _); [discriminate|].
  intros [= <- <-].
  eapply Qle_trans; [apply Q.le_min_l | apply Q.le_max_l].
Qed.

Lemma step_consistent (st : State) (e : Event) :
  consistent st -> consistent (step st e).
Proof.
  intro H. destruct e; cbn [step].
  - unfold drag. destruct (chart st) as [ch|] eqn:Ech; [|exact H].
    unfold brushed.
    destruct (brush_selection _ _ a b) as [[p0 p1]|] eqn:Eb; [|exact H].
    apply createChart_consistent. left. cbn [timeRange].
    eexists _, _. split; [reflexivity|].
    apply (consistent_time_order st ch); trivial.
    now apply brush_selection_order in Eb.
  - apply createChart_consistent. left. apply full_extent_ordered.
  - apply createChart_consistent. left. apply H.
  - apply createChart_consistent. left. apply H.
Qed.

Lemma run_consistent (hr : list HeartRateData) (events : list Event) :
  consistent (run hr events).
Proof.
  unfold run.
  assert (H : consistent (mounted hr)).
  { apply createChart_consistent. now right. }
  revert H. generalize (mounted hr). induction events as [|e events IH];
    intros st H; cbn [fold_left]; [exact H|].
  apply IH. now apply step_consistent.
Qed.

End BrushFacts.

Lemma time_at_min (s : TimeScale) (x y : number) :
  t_range0 s < t_range1 s -> (t_domain0 s <= t_domain1 s)%Z ->
  time_at s (Qmin x y) == Qmin (time_at s x) (time_at s y) /\
  time_at s (Qmax x y) == Qmax (time_at s x) (time_at s y).
Proof.
  intros Hr Hd. destruct (Qlt_le_dec y x) as [H|H].
  - assert (Hxy : y <= x) by lra.
    pose proof (time_at_mono s y x Hr Hd Hxy) as Ht.
    rewrite (time_at_comp s _ _ (Q.min_r x y Hxy)).
    rewrite (time_at_comp s _ _ (Q.max_l x y Hxy)).
    now rewrite (Q.min_r _ _ Ht), (Q.max_l _ _ Ht).
  - pose proof (time_at_mono s x y Hr Hd H) as Ht.
    rewrite (time_at_comp s _ _ (Q.min_l x y H)).
    rewrite (time_at_comp s _ _ (Q.max_r x y H)).
    now rewrite (Q.min_l _ _ Ht), (Q.max_r _ _ Ht).
Qed.

(** C2, as amended.  In every state the single-student chart can reach,
    with a chart on the page, a drag of the brush that starts at pixel [a]
    inside the brush extent and ends at pixel [b] (kept inside the extent)
    leaves the state as it is when the selection is empty, [a = b]; every
    other drag, however short, sets the window to
    [(time(min(a, b)), time(max(a, b)))], which is
    [(min(time(a), time(b)), max(time(a), time(b)))], and runs
    [createChart], whose head re-initialises a window with a zero bound.
    A press outside the extent starts no drag, and with no chart on the
    page there is no brush: nothing changes. *)
Theorem brush_commits_window (hr : list HeartRateData)
  (events : list Single.Event) (a b : number) :
  let st := Single.run hr events in
  let e0 := margin_left Single.margin in
  let e1 := Single.width - margin_right Single.margin in
  let b' := clamp e0 e1 b in
  match Single.chart st with
  | None => Single.drag st a b = st
  | Some ch =>
      let time := time_at (Single.xScale ch) in
      let window := {| start := Some (time (Qmin a b'));
                       end_ := Some (time (Qmax a b')) |} in
      (a < e0 \/ e1 < a -> Single.drag st a b = st) /\
      (e0 <= a <= e1 -> a == b' -> Single.drag st a b = st) /\
      (e0 <= a <= e1 -> ~ a == b' ->
       Single.drag st a b
         = Single.createChart (Single.with_timeRange st window) /\
       Single.timeRange (Single.drag st a b)
         = init_timeRange (Single.hr_data st) window /\
       time (Qmin a b') == Qmin (time a) (time b') /\
       time (Qmax a b') == Qmax (time a) (time b'))
  end.
Proof.
  intros st e0 e1 b'.
  pose proof (BrushFacts.run_consistent hr events) as Hc. fold st in Hc.
  unfold Single.drag. destruct (Single.chart st) as [ch|] eqn:Ech; [|reflexivity].
  cbv zeta. unfold brush_selection. fold e0 e1 b'.
  assert (Hin : e0 <= a <= e1 -> Qlt_bool a e0 || Qlt_bool e1 a = false).
  { intros [H0 H1]. apply orb_false_iff. split; apply Qlt_bool_false_iff; lra. }
  split; [|split].
  - intros [H|H]; apply Qlt_bool_iff in H; rewrite H; [reflexivity|].
    now rewrite orb_true_r.
  - intros Ha E. rewrite (Hin Ha). apply Qeq_eq_bool in E. now rewrite E.
  - intros Ha N. rewrite (Hin Ha). destruct (Qeq_bool a b') eqn:E.
    { apply Qeq_bool_eq in E. contradiction. }
    cbn [Single.brushed]. split; [reflexivity|]. split.
    + now rewrite SingleFacts.single_createChart_timeRange.
    + destruct Hc as [Hord Hch]. rewrite (Hch ch Ech).
      apply time_at_min; [reflexivity | now apply xScale_of_ascending].
Qed.

(** A drag of one pixel changes the window. *)
Lemma short_drag_changes_window :
  let hr := [mkData 100 0 "S1"; mkData 110 10 "S1"; mkData 90 20 "S1"] in
  let st := Single.mounted hr in
  Qabs (100 - 101) < 2 /\
  Single.timeRange st = {| start := Some 0; end_ := Some 20 |} /\
  Single.timeRange (Single.drag st 100 101)
    = {| start := Some (645 # 1000); end_ := Some (677 # 1000) |} /\
  Single.timeRange (Single.drag st 100 101) <> Single.timeRange st.
Proof.
  cbv zeta. split; [reflexivity|]. split; [vm_compute; reflexivity|].
  split; [vm_compute; reflexivity|]. vm_compute. discriminate.
Qed.

(** ** Colours and the legend *)

Lemma index_of_app (d : string) (domain more : list string) (i : nat) :
  index_of d domain = Some i -> index_of d (domain ++ more) = Some i.
Proof.
  revert i. induction domain as [|k domain IH]; intros i; cbn [index_of app].
  - discriminate.
  - destruct (String.eqb k d); [trivial|].
    destruct (index_of d domain) as [j|]; [|discriminate].
    intros [= <-]. now rewrite (IH j eq_refl).
Qed.

Lemma index_of_In (d : string) (domain : list string) :
  In d domain <-> exists i, index_of d domain = Some i.
Proof.
  induction domain as [|k domain IH]; cbn [index_of In].
  - split; [contradiction | intros [i H]; discriminate].
  - destruct (String.eqb_spec k d) as [->|Hk].
    + split; eauto.
    + split.
      * intros [E|H]; [congruence|]. apply IH in H. destruct H as [i ->]. eauto.
      * intros [i H]. right. apply IH.
        destruct (index_of d domain); [eauto | discriminate].
Qed.

Lemma index_of_fresh (d : string) (domain : list string) :
  index_of d domain = None ->
  index_of d (domain ++ [d]) = Some (List.length domain).
Proof.
  induction domain as [|k domain IH]; cbn [index_of app List.length].
  - now rewrite String.eqb_refl.
  - destruct (String.eqb k d); [discriminate|].
    destruct (index_of d domain); [discriminate|].
    intros _. now rewrite IH.
Qed.

(** A colour, once given, stays: the domain grows at its end only. *)
Lemma colorScale_stable (domain more : list string) (d : string) :
  In d domain ->
  fst (colorScale (domain ++ more) d) = fst (colorScale domain d).
Proof.
  intro H. apply index_of_In in H. destruct H as [i H].
  unfold colorScale. now rewrite (index_of_app d domain more i H), H.
Qed.

Lemma colorScale_grows (domain : list string) (d : string) :
  exists more,
    snd (colorScale domain d) = domain ++ more /\
    In d (snd (colorScale domain d)) /\
    fst (colorScale (snd (colorScale domain d)) d) = fst (colorScale domain d).
Proof.
  unfold colorScale. destruct (index_of d domain) as [i|] eqn:E;
    cbn [fst snd].
  - exists []. split; [now rewrite app_nil_r|]. split.
    + apply index_of_In. eauto.
    + now rewrite E.
  - exists [d]. split; [reflexivity|]. split.
    + apply in_or_app. right. now left.
    + now rewrite (index_of_fresh d domain E).
Qed.

Lemma color_each_spec (ids domain : list string) :
  exists more,
    snd (color_each domain ids) = domain ++ more /\
    map fst (fst (color_each domain ids)) = ids /\
    forall s col, In (s, col) (fst (color_each domain ids)) ->
      In s (snd (color_each domain ids)) /\
      fst (colorScale (snd (color_each domain ids)) s) = col.
Proof.
  revert domain. induction ids as [|s ids IH]; intro domain;
    cbn [color_each].
  - exists []. cbn. split; [now rewrite app_nil_r|]. split; [reflexivity|].
    intros s col [].
  - destruct (colorScale_grows domain s) as (m1 & E1 & Hin1 & Hc1).
    destruct (colorScale domain s) as [c domain1]. cbn [fst snd] in *.
    destruct (IH domain1) as (m2 & E2 & Hids & Hitems).
    destruct (color_each domain1 ids) as [items domain2]. cbn [fst snd] in *.
    exists (m1 ++ m2). split; [now rewrite E2, E1, app_assoc|].
    split; [cbn; now rewrite Hids|].
    intros s' col [H|H].
    + injection H as <- <-. rewrite E2. split.
      * apply in_or_app. now left.
      * now rewrite colorScale_stable.
    + now apply Hitems.
Qed.

Module LegendFacts.
Import Comparison.

(** The legend lists the selection, and the colour of each item is the one
    [colorScale] gives the student from now on. *)
Lemma createChart_legend (st : State) :
  selectedStudents st <> [] ->
  legend_names (createChart st) = selectedStudents st /\
  (exists more, colorDomain (createChart st) = colorDomain st ++ more) /\
  forall ch s col, chart (createChart st) = Some ch -> In (s, col) (legend ch) ->
    In s (colorDomain (createChart st)) /\
    fst (colorScale (colorDomain (createChart st)) s) = col.
Proof.
  intro Hne. unfold legend_names, createChart.
  destruct (selectedStudents st) as [|x l] eqn:Es; [congruence|].
  cbn [List.length Nat.eqb]. rewrite <- Es.
  set (ids := map fst _).
  destruct (color_each_spec ids (colorDomain st)) as (m1 & E1 & _ & _).
  destruct (color_each (colorDomain st) ids) as [strokes domain1].
  cbn [fst snd] in E1.
  destruct (color_each_spec (selectedStudents st) domain1)
    as (m2 & E2 & Hids & Hitems).
  destruct (color_each domain1 (selectedStudents st)) as [items domain2].
  cbn [fst snd] in *. cbn [chart legend colorDomain].
  split; [exact Hids|]. split.
  - exists (m1 ++ m2). now rewrite E2, E1, app_assoc.
  - intros ch s col [= <-]. cbn [legend]. apply Hitems.
Qed.

Lemma createChart_empty (st : State) :
  selectedStudents st = [] ->
  chart (createChart st) = None /\ colorDomain (createChart st) = colorDomain st.
Proof. intro E. unfold createChart. rewrite E. now cbn. Qed.

Lemma createChart_domain_grows (st : State) :
  exists more, colorDomain (createChart st) = colorDomain st ++ more.
Proof.
  destruct (selectedStudents st) as [|x l] eqn:E.
  - exists []. rewrite app_nil_r. now apply createChart_empty.
  - apply createChart_legend. congruence.
Qed.

End LegendFacts.

(** ** Sorting student identifiers *)

Lemma insert_student_perm (a : string) (l : list string) :
  Permutation (insert_student a l) (a :: l).
Proof.
  induction l as [|b l IH]; cbn [insert_student].
  - apply Permutation_refl.
  - destruct (number_after a b).
    + eapply perm_trans; [apply perm_skip, IH | apply perm_swap].
    + apply Permutation_refl.
Qed.

Lemma sortStudentIds_perm (l : list string) : Permutation (sortStudentIds l) l.
Proof.
  induction l as [|a l IH]; cbn [sortStudentIds].
  - constructor.
  - eapply perm_trans; [apply insert_student_perm | now apply perm_skip].
Qed.

Lemma number_after_false (a b : string) (x y : Z) :
  student_number a = Some x -> student_number b = Some y ->
  number_after a b = false -> (x <= y)%Z.
Proof.
  unfold number_after. intros -> ->. apply Z.ltb_ge.
Qed.

Lemma number_after_true (a b : string) :
  number_after a b = true -> numeric_le b a.
Proof.
  unfold number_after, numeric_le.
  destruct (student_number a) as [x|], (student_number b) as [y|];
    try discriminate.
  intro H. apply Z.ltb_lt in H. exists y, x. repeat split. lia.
Qed.

Lemma numeric_le_trans (a b c : string) :
  numeric_le a b -> numeric_le b c -> numeric_le a c.
Proof.
  intros (x & y & Ha & Hb & Hxy) (y' & z & Hb' & Hc & Hyz).
  rewrite Hb in Hb'. injection Hb' as <-. exists x, z. repeat split; trivial.
  lia.
Qed.

Lemma insert_student_sorted (a : string) (l : list string) :
  student_number a <> None ->
  (forall b, In b l -> student_number b <> None) ->
  StronglySorted numeric_le l ->
  StronglySorted numeric_le (insert_student a l).
Proof.
  intros Ha. induction l as [|b l IH]; cbn [insert_student]; intros Hall Hs.
  - constructor; constructor.
  - inversion Hs as [|? ? Hl Hb]; subst.
    destruct (number_after a b) eqn:E.
    + constructor.
      * apply IH; [|exact Hl]. intros c Hc. apply Hall. now right.
      * rewrite Forall_forall in Hb |- *. intros c Hc.
        apply (Permutation_in _ (insert_student_perm a l)) in Hc.
        destruct Hc as [<-|Hc]; [now apply number_after_true | now apply Hb].
    + assert (Hab : numeric_le a b).
      { destruct (student_number a) as [x|] eqn:Ex; [|congruence].
        destruct (student_number b) as [y|] eqn:Ey.
        - exists x, y. repeat split; trivial.
          now apply (number_after_false a b).
        - exfalso. apply (Hall b); [now left | exact Ey]. }
      constructor; [exact Hs|]. constructor; [exact Hab|].
      rewrite Forall_forall in Hb |- *. intros c Hc.
      apply (numeric_le_trans a b c); [exact Hab | now apply Hb].
Qed.

(** Identifiers that all carry a number come out of [sortStudentIds] in
    ascending numeric order. *)
Lemma sortStudentIds_sorted (l : list string) :
  (forall b, In b l -> student_number b <> None) ->
  StronglySorted numeric_le (sortStudentIds l).
Proof.
  induction l as [|a l IH]; cbn [sortStudentIds]; intro Hall.
  - constructor.
  - apply insert_student_sorted.
    + apply Hall. now left.
    + intros b Hb. apply Hall. right.
      now apply (Permutation_in _ (sortStudentIds_perm l)).
    + apply IH. intros b Hb. apply Hall. now right.
Qed.

Lemma unique_from_In (xs seen : list string) (x : string) :
  In x (fold_left (fun seen x => if includes seen x then seen else seen ++ [x])
          xs seen) <-> In x seen \/ In x xs.
Proof.
  revert seen. induction xs as [|y xs IH]; intro seen; cbn [fold_left In].
  - tauto.
  - rewrite IH. destruct (includes seen y) eqn:E.
    + apply includes_iff in E. split; [tauto|].
      intros [H|[<-|H]]; tauto.
    + rewrite in_app_iff. cbn [In]. tauto.
Qed.

Lemma unique_In (xs : list string) (x : string) : In x (unique xs) <-> In x xs.
Proof. unfold unique. rewrite unique_from_In. cbn [In]. tauto. Qed.

Module SelectionFacts.
Import Comparison.

Lemma createChart_matches (st : State) : legend_matches (createChart st).
Proof.
  destruct (selectedStudents st) as [|x l] eqn:E.
  - destruct (LegendFacts.createChart_empty st E) as [Hc _].
    split.
    + unfold legend_names. rewrite Hc.
      now rewrite ComparisonFacts.comparison_createChart_selectedStudents.
    + intros ch s col H. rewrite Hc in H. discriminate.
  - assert (Hne : selectedStudents st <> []) by congruence.
    destruct (LegendFacts.createChart_legend st Hne) as (H1 & _ & H2).
    split; [|exact H2].
    now rewrite ComparisonFacts.comparison_createChart_selectedStudents.
Qed.

Lemma cleared_matches (st : State) : legend_matches (cleared st []).
Proof. split; [reflexivity|]. intros ch s col H. discriminate. Qed.

Lemma nil_of_length {A : Type} (l : list A) :
  ~ (0 < List.length l)%nat -> l = [].
Proof. destruct l; cbn; [trivial | lia]. Qed.

Lemma step_matches (st : State) (e : Event) :
  legend_matches st -> legend_matches (step st e).
Proof.
  intro H. destruct e; cbn [step].
  - unfold toggleStudentSelection.
    set (selected := if includes _ _ then _ else _).
    destruct (Nat.ltb_spec 0 (List.length selected)) as [Hlt|Hge].
    + apply createChart_matches.
    + rewrite (nil_of_length selected) by lia. apply cleared_matches.
  - apply createChart_matches.
  - apply cleared_matches.
  - unfold toggleAverages. cbn [selectedStudents].
    destruct (Nat.ltb_spec 0 (List.length (selectedStudents st))).
    + apply createChart_matches.
    + exact H.
Qed.

Lemma run_matches (hr : list HeartRateData) (events : list Event) :
  legend_matches (run hr events).
Proof.
  unfold run.
  assert (H : legend_matches (initial hr)).
  { split; [reflexivity|]. intros ch s col H. discriminate. }
  revert H. generalize (initial hr). induction events as [|e events IH];
    intros st H; cbn [fold_left]; [exact H|].
  apply IH. now apply step_matches.
Qed.

Lemma step_hr_data (st : State) (e : Event) : hr_data (step st e) = hr_data st.
Proof.
  destruct e; cbn [step].
  - unfold toggleStudentSelection. destruct (_ <? _)%nat; [|reflexivity].
    now rewrite ComparisonFacts.comparison_createChart_hr_data.
  - unfold selectAllStudents. now rewrite ComparisonFacts.comparison_createChart_hr_data.
  - reflexivity.
  - unfold toggleAverages. destruct (_ <? _)%nat; [|reflexivity].
    now rewrite ComparisonFacts.comparison_createChart_hr_data.
Qed.

Lemma run_hr_data (hr : list HeartRateData) (events : list Event) :
  hr_data (run hr events) = hr.
Proof.
  unfold run. assert (H : hr_data (initial hr) = hr) by reflexivity.
  revert H. generalize (initial hr). induction events as [|e events IH];
    intros st H; cbn [fold_left]; [exact H|].
  apply IH. now rewrite step_hr_data.
Qed.

(** No event takes a student out of the domain of the colour scale. *)
Lemma step_domain_grows (st : State) (e : Event) :
  exists more, colorDomain (step st e) = colorDomain st ++ more.
Proof.
  assert (Hsame : exists more, colorDomain st = colorDomain st ++ more).
  { exists []. now rewrite app_nil_r. }
  destruct e; cbn [step].
  - unfold toggleStudentSelection. destruct (_ <? _)%nat; [|exact Hsame].
    apply (LegendFacts.createChart_domain_grows (with_selection st _)).
  - apply (LegendFacts.createChart_domain_grows (with_selection st _)).
  - exact Hsame.
  - unfold toggleAverages. destruct (_ <? _)%nat; [|exact Hsame].
    apply (LegendFacts.createChart_domain_grows
             {| hr_data := hr_data st; selectedStudents := selectedStudents st;
                timeRange := timeRange st; showAverages := negb (showAverages st);
                colorDomain := colorDomain st; chart := chart st |}).
Qed.

End SelectionFacts.

(** C3, as amended.  In every state the comparison chart can reach, the
    legend lists exactly the selected students, in the order of the
    selection list, each with the colour that [colorScale] gives it and
    keeps giving it after any further event.  The order is that of the
    list: toggling a student that is not selected puts it at the end of the
    legend, whatever its number, and after select-all the legend lists the
    students of [hr_data] in ascending order of the integer part of their
    identifiers, when every identifier has one. *)
Theorem legend_follows_selection (hr : list HeartRateData)
  (events : list Comparison.Event) :
  let st := Comparison.run hr events in
  Comparison.legend_names st = Comparison.selectedStudents st /\
  (forall ch s col, Comparison.chart st = Some ch ->
     In (s, col) (Comparison.legend ch) ->
     fst (colorScale (Comparison.colorDomain st) s) = col /\
     forall e, fst (colorScale (Comparison.colorDomain (Comparison.step st e)) s)
               = col) /\
  (forall s, ~ In s (Comparison.selectedStudents st) ->
     Comparison.legend_names (Comparison.toggleStudentSelection st s)
       = Comparison.legend_names st ++ [s]) /\
  ((forall d, In d hr -> student_number (student d) <> None) ->
   StronglySorted numeric_le
     (Comparison.legend_names (Comparison.selectAllStudents st)) /\
   forall name,
     In name (Comparison.legend_names (Comparison.selectAllStudents st)) <->
     exists d, In d hr /\ student d = name).
Proof.
  intro st.
  destruct (SelectionFacts.run_matches hr events) as [Hnames Hcol].
  fold st in Hnames, Hcol.
  split; [exact Hnames|]. split; [|split].
  - intros ch s col Hch Hin. destruct (Hcol ch s col Hch Hin) as [Hdom Hc].
    split; [exact Hc|]. intro e.
    destruct (SelectionFacts.step_domain_grows st e) as [more ->].
    now rewrite colorScale_stable.
  - intros s Hs. rewrite Hnames. unfold Comparison.toggleStudentSelection.
    assert (E : includes (Comparison.selectedStudents st) s = false).
    { destruct (includes _ s) eqn:E; trivial.
      apply includes_iff in E. contradiction. }
    rewrite E.
    assert (Hlen : (0 <? List.length (Comparison.selectedStudents st ++ [s]))%nat
                   = true).
    { apply Nat.ltb_lt. rewrite length_app. cbn. lia. }
    rewrite Hlen.
    destruct (SelectionFacts.createChart_matches
                (Comparison.with_selection st
                   (Comparison.selectedStudents st ++ [s]))) as [-> _].
    now rewrite ComparisonFacts.comparison_createChart_selectedStudents.
  - intro Hall. unfold Comparison.selectAllStudents.
    destruct (SelectionFacts.createChart_matches
                (Comparison.with_selection st
                   (sortStudentIds
                      (unique (map student (Comparison.hr_data st))))))
      as [-> _].
    rewrite ComparisonFacts.comparison_createChart_selectedStudents.
    cbn [Comparison.with_selection Comparison.selectedStudents].
    unfold st at 1 2. rewrite SelectionFacts.run_hr_data.
    assert (Hin : forall name,
              In name (sortStudentIds (unique (map student hr))) <->
              exists d, In d hr /\ student d = name).
    { intro name. split.
      - intro H. apply (Permutation_in _ (sortStudentIds_perm _)) in H.
        apply unique_In, in_map_iff in H. destruct H as (d & <- & H). eauto.
      - intros (d & H & <-).
        apply (Permutation_in _ (Permutation_sym (sortStudentIds_perm _))).
        apply unique_In. now apply in_map. }
    split; [|exact Hin].
    apply sortStudentIds_sorted. intros b Hb.
    apply (Permutation_in _ (Permutation_sym (sortStudentIds_perm _))) in Hb.
    apply Hin in Hb. destruct Hb as (d & Hd & <-). now apply Hall.
Qed.

(** Selecting S10 and then S2: the legend lists S10 above S2. *)
Lemma legend_in_selection_order :
  let hr := [mkData 80 0 "S2"; mkData 90 0 "S10"] in
  let st := Comparison.run hr [Comparison.ToggleStudent "S10";
                               Comparison.ToggleStudent "S2"] in
  Comparison.selectedStudents st = ["S10"; "S2"]%string /\
  Comparison.legend_names st = ["S10"; "S2"]%string /\
  student_number "S10" = Some 10%Z /\ student_number "S2" = Some 2%Z /\
  ~ StronglySorted numeric_le (Comparison.legend_names st).
Proof.
  cbv zeta. repeat (split; [vm_compute; reflexivity|]).
  replace (Comparison.legend_names _) with ["S10"; "S2"]%string
    by (vm_compute; reflexivity).
  intro H. inversion H as [|? ? _ Hall]; subst.
  inversion Hall as [|? ? (x & y & Hx & Hy & Hxy) _]; subst.
  vm_compute in Hx, Hy. injection Hx as <-. injection Hy as <-. lia.
Qed.

(** ** Nice domains *)

Lemma pow10_pos (p : Z) : 0 < pow10 p.
Proof. apply Qpower_0_lt. reflexivity. Qed.

(** The factor by the square of the mantissa. *)
Lemma tick_factor_spec (e : Q) :
  (e * e < 2 /\ tick_factor e == 1) \/
  (2 <= e * e < 10 /\ tick_factor e == 2) \/
  (10 <= e * e < 50 /\ tick_factor e == 5) \/
  (50 <= e * e /\ tick_factor e == 10).
Proof.
  unfold tick_factor.
  destruct (Qle_bool 50 (e * e)) eqn:E50.
  { apply Qle_bool_iff in E50. right; right; right. now split. }
  apply Qle_bool_false_iff in E50.
  destruct (Qle_bool 10 (e * e)) eqn:E10.
  { apply Qle_bool_iff in E10. right; right; left. now repeat split. }
  apply Qle_bool_false_iff in E10.
  destruct (Qle_bool 2 (e * e)) eqn:E2.
  { apply Qle_bool_iff in E2. right; left. now repeat split. }
  apply Qle_bool_false_iff in E2. left. now split.
Qed.

Lemma tick_factor_cases (e : Q) :
  tick_factor e == 1 \/ tick_factor e == 2 \/ tick_factor e == 5
  \/ tick_factor e == 10.
Proof.
  destruct (tick_factor_spec e) as [[_ H]|[[_ H]|[[_ H]|[_ H]]]]; tauto.
Qed.

Lemma tick_factor_pos (e : Q) : 0 < tick_factor e.
Proof.
  destruct (tick_factor_cases e) as [H|[H|[H|H]]]; rewrite H; reflexivity.
Qed.

(** The step of [tickIncrement] is not zero and stands for a nice tick. *)
Lemma tickIncrement_tick (a b step : Q) :
  tickIncrement a b 10 = Some step ->
  ~ step == 0 /\ 0 < tick_of step /\ nice_tick (tick_of step).
Proof.
  unfold tickIncrement. destruct (Qlt_bool 0 ((b - a) / 10)); [|discriminate].
  set (power := floor_log10 _). set (f := tick_factor _).
  pose proof (tick_factor_pos ((b - a) / 10 / pow10 power)) as Hf. fold f in Hf.
  pose proof (tick_factor_cases ((b - a) / 10 / pow10 power)) as Hc.
  fold f in Hc.
  destruct (Z.ltb_spec power 0) as [Hneg|Hpos]; intros [= <-].
  - pose proof (pow10_pos (- power)) as Hp.
    assert (Hq : 0 < pow10 (- power) / f) by (apply Qlt_shift_div_l; lra).
    assert (Ht : tick_of (- (pow10 (- power) / f)) == f * pow10 power).
    { unfold tick_of.
      assert (E : Qlt_bool 0 (- (pow10 (- power) / f)) = false)
        by (apply Qlt_bool_false_iff; lra).
      rewrite E. unfold pow10 in *. rewrite Qpower_opp in *.
      pose proof (pow10_pos power) as Hpp. unfold pow10 in Hpp.
      field. split; lra. }
    split; [lra|]. split.
    + rewrite Ht. pose proof (pow10_pos power). apply Qmult_lt_0_compat; lra.
    + now exists f, power.
  - pose proof (pow10_pos power) as Hp.
    assert (Hq : 0 < pow10 power * f) by (apply Qmult_lt_0_compat; lra).
    assert (Ht : tick_of (pow10 power * f) == f * pow10 power).
    { unfold tick_of.
      assert (E : Qlt_bool 0 (pow10 power * f) = true)
        by now apply Qlt_bool_iff.
      rewrite E. ring. }
    split; [lra|]. split; [rewrite Ht; lra|]. now exists f, power.
Qed.

Lemma tick_of_comp (s1 s2 : Q) : s1 == s2 -> tick_of s1 == tick_of s2.
Proof.
  intro H. unfold tick_of.
  destruct (Qlt_bool 0 s1) eqn:E1, (Qlt_bool 0 s2) eqn:E2.
  - exact H.
  - apply Qlt_bool_iff in E1. apply Qlt_bool_false_iff in E2. lra.
  - apply Qlt_bool_iff in E2. apply Qlt_bool_false_iff in E1. lra.
  - now rewrite H.
Qed.

(** Rounding by a positive step: down to a multiple for the start, up to
    a multiple for the stop, each by less than a tick. *)
Lemma round_by_positive_step (step a b : Q) :
  0 < step ->
  let a' := inject_Z (Qfloor (a / step)) * step in
  let b' := inject_Z (Qceiling (b / step)) * step in
  a - step < a' /\ a' <= a /\ b <= b' /\ b' < b + step.
Proof.
  intros Hs a' b'.
  pose proof (Qfloor_le (a / step)) as H1.
  pose proof (Qlt_floor (a / step)) as H2.
  pose proof (Qle_ceiling (b / step)) as H3.
  pose proof (Qceiling_lt (b / step)) as H4.
  rewrite inject_Z_plus in H2. unfold Z.sub in H4.
  rewrite inject_Z_plus, inject_Z_opp in H4.
  change (inject_Z 1) with 1 in *.
  assert (Ea : a == a / step * step) by (field; lra).
  assert (Eb : b == b / step * step) by (field; lra).
  set (fa := inject_Z (Qfloor (a / step))) in *.
  set (cb := inject_Z (Qceiling (b / step))) in *.
  assert (Hfa : fa * step <= a / step * step)
    by (apply Qmult_le_compat_r; lra).
  assert (Hfa' : a / step * step < (fa + 1) * step)
    by (apply Qmult_lt_compat_r; lra).
  assert (Hcb : b / step * step <= cb * step)
    by (apply Qmult_le_compat_r; lra).
  assert (Hcb' : (cb + - 1) * step < b / step * step)
    by (apply Qmult_lt_compat_r; lra).
  unfold a', b'. repeat split; lra.
Qed.

(** Rounding by a negative step [- 1 / t]: the same, by the tick [t]. *)
Lemma round_by_negative_step (step a b : Q) :
  step < 0 ->
  let t := - / step in
  let a' := inject_Z (Qceiling (a * step)) / step in
  let b' := inject_Z (Qfloor (b * step)) / step in
  a - t < a' /\ a' <= a /\ b <= b' /\ b' < b + t /\
  a' == inject_Z (- Qceiling (a * step)) * t /\
  b' == inject_Z (- Qfloor (b * step)) * t.
Proof.
  intros Hs t a' b'.
  assert (Ht : 0 < t).
  { unfold t. assert (0 < / - step) by (apply Qinv_lt_0_compat; lra).
    assert (E : - / step == / - step) by (field; lra). lra. }
  pose proof (Qle_ceiling (a * step)) as H1.
  pose proof (Qceiling_lt (a * step)) as H2.
  pose proof (Qfloor_le (b * step)) as H3.
  pose proof (Qlt_floor (b * step)) as H4.
  rewrite inject_Z_plus in H4. unfold Z.sub in H2.
  rewrite inject_Z_plus, inject_Z_opp in H2.
  change (inject_Z 1) with 1 in *.
  set (ca := inject_Z (Qceiling (a * step))) in *.
  set (fb := inject_Z (Qfloor (b * step))) in *.
  assert (Ea' : a' == - ca * t) by (unfold a', t; fold ca; field; lra).
  assert (Eb' : b' == - fb * t) by (unfold b', t; fold fb; field; lra).
  assert (Ea : a == - (a * step) * t) by (unfold t; field; lra).
  assert (Eb : b == - (b * step) * t) by (unfold t; field; lra).
  assert (Hca : - ca * t <= - (a * step) * t)
    by (apply Qmult_le_compat_r; lra).
  assert (Hca' : - (a * step) * t < (- ca + 1) * t)
    by (apply Qmult_lt_compat_r; lra).
  assert (Hfb : - (b * step) * t <= - fb * t)
    by (apply Qmult_le_compat_r; lra).
  assert (Hfb' : (- fb - 1) * t < - (b * step) * t)
    by (apply Qmult_lt_compat_r; lra).
  repeat split; try lra.
  - now rewrite inject_Z_opp.
  - now rewrite inject_Z_opp.
Qed.

Lemma multiple_of_comp (t1 t2 x : Q) :
  t1 == t2 -> multiple_of t1 x -> multiple_of t2 x.
Proof. intros E [k H]. exists k. now rewrite <- E. Qed.

(** What [nice] commits: a domain around the one it started from, with
    both ends on multiples of the tick of its own step. *)
Lemma nice_loop_spec (n : nat) :
  forall (a b : Q) (pre : option Q) (a' b' : Q),
    match pre with
    | Some p => multiple_of (tick_of p) a /\ multiple_of (tick_of p) b
    | None => True
    end ->
    nice_loop n a b pre = Some (a', b') ->
    a' <= a /\ b <= b' /\
    exists step, tickIncrement a' b' 10 = Some step /\
                 multiple_of (tick_of step) a' /\
                 multiple_of (tick_of step) b'.
Proof.
  induction n as [|n IH]; intros a b pre a' b' Hpre; cbn [nice_loop].
  - discriminate.
  - destruct (tickIncrement a b 10) as [step|] eqn:Et; [|discriminate].
    destruct (match pre with Some p => Qeq_bool step p | None => false end)
      eqn:Esame.
    + intros [= <- <-]. destruct pre as [p|]; [|discriminate].
      apply Qeq_bool_eq in Esame. destruct Hpre as [Ha Hb].
      split; [lra|]. split; [lra|]. exists step. split; [exact Et|].
      assert (E : tick_of p == tick_of step) by now apply tick_of_comp.
      split; eapply multiple_of_comp; eauto.
    + destruct (Qlt_bool 0 step) eqn:Epos.
      * pose proof Epos as Hpos. apply Qlt_bool_iff in Hpos.
        destruct (round_by_positive_step step a b Hpos) as (_ & H1 & H2 & _).
        intro H. apply IH in H.
        -- destruct H as (H3 & H4 & H5). split; [lra|]. split; [lra | exact H5].
        -- unfold tick_of. rewrite Epos. split; eexists; reflexivity.
      * destruct (Qlt_bool step 0) eqn:Eneg; [|discriminate].
        pose proof Eneg as Hneg. apply Qlt_bool_iff in Hneg.
        destruct (round_by_negative_step step a b Hneg)
          as (_ & H1 & H2 & _ & Ma & Mb).
        intro H. apply IH in H.
        -- destruct H as (H3 & H4 & H5). split; [lra|]. split; [lra | exact H5].
        -- unfold tick_of. rewrite Epos. split; eexists; eassumption.
Qed.

(** *** The decimal exponent *)

Lemma pow10_succ (p : Z) : pow10 (p + 1) == 10 * pow10 p.
Proof.
  unfold pow10. rewrite Qpower_plus by easy. rewrite Qpower_1_r. ring.
Qed.

Lemma pow10_pred (p : Z) : pow10 (p - 1) == pow10 p / 10.
Proof.
  unfold pow10. rewrite Qpower_minus by easy. now rewrite Qpower_1_r.
Qed.

Lemma pow10_le (p q : Z) : (p <= q)%Z -> pow10 p <= pow10 q.
Proof. intro H. apply Qpower_le_compat_l; [exact H | easy]. Qed.

Lemma pow10_lt_inv (p q : Z) : pow10 p < pow10 q -> (p < q)%Z.
Proof. intro H. apply (Qpower_lt_compat_l_inv 10); [exact H | easy]. Qed.

(** With fuel enough for the size of [x], the loop ends on the decimal
    exponent of [x]. *)
Lemma log10_loop_spec (fuel : nat) :
  forall (x : Q) (p : Z),
    pow10 (- Z.of_nat fuel) <= x -> x < pow10 (Z.of_nat fuel + 1) ->
    pow10 (log10_loop fuel x p - p) <= x /\
    x < pow10 (log10_loop fuel x p - p + 1).
Proof.
  induction fuel as [|fuel IH]; intros x p Hlo Hhi.
  - cbn [log10_loop]. rewrite Z.sub_diag. exact (conj Hlo Hhi).
  - cbn [log10_loop].
    assert (E1 : (- Z.of_nat (S fuel) = - Z.of_nat fuel - 1)%Z) by lia.
    assert (E2 : (Z.of_nat (S fuel) + 1 = Z.of_nat fuel + 1 + 1)%Z) by lia.
    rewrite E1, pow10_pred in Hlo. rewrite E2, pow10_succ in Hhi.
    pose proof (pow10_le (- Z.of_nat fuel) 0 ltac:(lia)) as Hone.
    pose proof (pow10_le 1 (Z.of_nat fuel + 1) ltac:(lia)) as Hten.
    change (pow10 0) with 1 in Hone. change (pow10 1) with 10 in Hten.
    pose proof (pow10_pos (- Z.of_nat fuel)) as Hp0.
    destruct (Qle_bool 10 x) eqn:Ebig.
    + apply Qle_bool_iff in Ebig.
      destruct (IH (x / 10) (p + 1)%Z) as [H1 H2].
      * apply Qle_shift_div_l; lra.
      * apply Qlt_shift_div_r; lra.
      * set (r := log10_loop fuel (x / 10) (p + 1)) in *.
        replace (r - p)%Z with (r - (p + 1) + 1)%Z by lia.
        rewrite !pow10_succ in *. split.
        -- assert (H : 10 * pow10 (r - (p + 1)) <= 10 * (x / 10)) by lra.
           setoid_replace (10 * (x / 10)) with x in H by field. exact H.
        -- assert (H : 10 * (x / 10) < 10 * (10 * pow10 (r - (p + 1)))) by lra.
           setoid_replace (10 * (x / 10)) with x in H by field. exact H.
    + apply Qle_bool_false_iff in Ebig.
      destruct (Qlt_bool x 1) eqn:Esmall.
      * apply Qlt_bool_iff in Esmall.
        destruct (IH (x * 10) (p - 1)%Z) as [H1 H2].
        -- assert (H : pow10 (- Z.of_nat fuel) / 10 * 10 <= x * 10) by lra.
           setoid_replace (pow10 (- Z.of_nat fuel) / 10 * 10)
             with (pow10 (- Z.of_nat fuel)) in H by field.
           exact H.
        -- lra.
        -- set (r := log10_loop fuel (x * 10) (p - 1)) in *.
           replace (r - (p - 1))%Z with (r - p + 1)%Z in * by lia.
           rewrite !pow10_succ in *. split; lra.
      * apply Qlt_bool_false_iff in Esmall.
        rewrite Z.sub_diag. change (pow10 0) with 1.
        change (pow10 (0 + 1)) with 10. split; lra.
Qed.

Lemma two_pow_le_pow10 (k : Z) : (0 <= k)%Z -> inject_Z (2 ^ k) <= pow10 k.
Proof.
  intro H. unfold pow10. change 10 with (inject_Z 10).
  rewrite <- Zpower_Qpower by exact H. rewrite <- Zle_Qle.
  apply Z.pow_le_mono_l. lia.
Qed.

(** The decimal exponent of a positive number. *)
Lemma floor_log10_spec (x : Q) :
  0 < x -> pow10 (floor_log10 x) <= x /\ x < pow10 (floor_log10 x + 1).
Proof.
  intro Hx. unfold floor_log10.
  set (fuel := S (Z.to_nat (Z.log2 (Qnum x) + Z.log2 (Z.pos (Qden x))))).
  assert (Hn : (0 < Qnum x)%Z).
  { destruct x as [n d]. unfold Qlt in Hx. cbn in *. lia. }
  pose proof (Z.log2_spec _ Hn) as [_ Hnum].
  pose proof (Z.log2_spec (Z.pos (Qden x)) ltac:(lia)) as [_ Hden].
  pose proof (Z.log2_nonneg (Qnum x)) as Hl1.
  pose proof (Z.log2_nonneg (Z.pos (Qden x))) as Hl2.
  set (ln := Z.log2 (Qnum x)) in *. set (ld := Z.log2 (Z.pos (Qden x))) in *.
  assert (Hfuel : Z.of_nat fuel = (ln + ld + 1)%Z) by (unfold fuel; lia).
  assert (Hxn : x <= inject_Z (Qnum x)).
  { destruct x as [n d]. unfold Qle. cbn in *. nia. }
  assert (Hxd : 1 <= x * inject_Z (Z.pos (Qden x))).
  { destruct x as [n d]. unfold Qle, Qmult. cbn in *. nia. }
  pose proof (two_pow_le_pow10 (Z.succ ln) ltac:(lia)) as Hp1.
  pose proof (two_pow_le_pow10 (Z.succ ld) ltac:(lia)) as Hp2.
  rewrite Zlt_Qlt in Hnum, Hden.
  pose proof (log10_loop_spec fuel x 0) as Hspec.
  rewrite Z.sub_0_r in Hspec. apply Hspec.
  - rewrite Hfuel. unfold pow10. rewrite Qpower_opp. fold (pow10 (ln + ld + 1)).
    pose proof (pow10_le (Z.succ ld) (ln + ld + 1) ltac:(lia)) as Hm.
    pose proof (pow10_pos (ln + ld + 1)) as Hpp.
    apply Qle_shift_inv_r; [exact Hpp|].
    assert (Hmul : x * inject_Z (Z.pos (Qden x)) <= x * pow10 (ln + ld + 1)).
    { rewrite !(Qmult_comm x). apply Qmult_le_compat_r; lra. }
    lra.
  - rewrite Hfuel.
    pose proof (pow10_le (Z.succ ln) (ln + ld + 1 + 1) ltac:(lia)) as Hm.
    lra.
Qed.

(** The decimal exponent is determined by the interval it names. *)
Lemma floor_log10_unique (x : Q) (p : Z) :
  pow10 p <= x -> x < pow10 (p + 1) -> floor_log10 x = p.
Proof.
  intros H1 H2.
  assert (Hx : 0 < x) by (pose proof (pow10_pos p); lra).
  destruct (floor_log10_spec x Hx) as [H3 H4].
  assert (floor_log10 x < p + 1)%Z by (apply pow10_lt_inv; lra).
  assert (p < floor_log10 x + 1)%Z by (apply pow10_lt_inv; lra).
  lia.
Qed.

Lemma floor_log10_comp (x y : Q) :
  0 < x -> x == y -> floor_log10 x = floor_log10 y.
Proof.
  intros Hx E. destruct (floor_log10_spec x Hx) as [H1 H2].
  symmetry. apply floor_log10_unique; lra.
Qed.

Lemma floor_log10_mono (x y : Q) :
  0 < x -> x <= y -> (floor_log10 x <= floor_log10 y)%Z.
Proof.
  intros Hx Hxy.
  destruct (floor_log10_spec x Hx) as [H1 _].
  destruct (floor_log10_spec y ltac:(lra)) as [_ H2].
  assert (floor_log10 x < floor_log10 y + 1)%Z by (apply pow10_lt_inv; lra).
  lia.
Qed.

(** *** The tick of a span *)

Lemma tick_factor_comp (e1 e2 : Q) :
  e1 == e2 -> tick_factor e1 = tick_factor e2.
Proof.
  intro H. unfold tick_factor.
  assert (E : e1 * e1 == e2 * e2) by now rewrite H.
  now rewrite !(Qleb_comp _ _ (Qeq_refl _) _ _ E).
Qed.

(** The step depends on the span alone; its tick is [tick_size]. *)
Lemma tickIncrement_span (a b : Q) :
  a < b ->
  exists step, tickIncrement a b 10 = Some step /\
               tick_of step == tick_size (b - a) /\
               forall a' b' step', b' - a' == b - a ->
                 tickIncrement a' b' 10 = Some step' -> step' == step.
Proof.
  intro Hab.
  assert (Hraw : 0 < (b - a) / 10) by (apply Qlt_shift_div_l; lra).
  destruct (tickIncrement a b 10) as [step|] eqn:E.
  - exists step. split; [reflexivity|]. split.
    + unfold tickIncrement in E.
      apply Qlt_bool_iff in Hraw. rewrite Hraw in E. unfold tick_size.
      set (power := floor_log10 _) in *. set (f := tick_factor _) in *.
      pose proof (tick_factor_pos ((b - a) / 10 / pow10 power)) as Hf.
      fold f in Hf. pose proof (pow10_pos power) as Hp.
      destruct (Z.ltb_spec power 0); injection E as <-; unfold tick_of.
      * pose proof (pow10_pos (- power)) as Hp'.
        assert (Hq : 0 < pow10 (- power) / f) by (apply Qlt_shift_div_l; lra).
        assert (E : Qlt_bool 0 (- (pow10 (- power) / f)) = false)
          by (apply Qlt_bool_false_iff; lra).
        rewrite E. unfold pow10 in *. rewrite Qpower_opp in *.
        field. split; lra.
      * assert (E : Qlt_bool 0 (pow10 power * f) = true).
        { apply Qlt_bool_iff. apply Qmult_lt_0_compat; lra. }
        rewrite E. ring.
    + intros a' b' step' Hspan E'. unfold tickIncrement in E, E'.
      assert (Er : (b' - a') / 10 == (b - a) / 10) by now rewrite Hspan.
      assert (Hraw' : 0 < (b' - a') / 10) by now rewrite Er.
      rewrite (floor_log10_comp _ _ Hraw' Er) in E'.
      apply Qlt_bool_iff in Hraw, Hraw'. rewrite Hraw in E. rewrite Hraw' in E'.
      assert (Ef : tick_factor ((b' - a') / 10
                                / pow10 (floor_log10 ((b - a) / 10)))
                   = tick_factor ((b - a) / 10
                                  / pow10 (floor_log10 ((b - a) / 10)))).
      { apply tick_factor_comp. now rewrite Er. }
      rewrite Ef in E'. rewrite E in E'. now injection E' as <-.
  - exfalso. unfold tickIncrement in E.
    apply Qlt_bool_iff in Hraw. rewrite Hraw in E.
    destruct (_ <? _)%Z; discriminate.
Qed.

(** The mantissa of a positive number is in [[1, 10)]. *)
Lemma mantissa_bounds (x : Q) :
  0 < x -> 1 <= x / pow10 (floor_log10 x) /\ x / pow10 (floor_log10 x) < 10.
Proof.
  intro Hx. destruct (floor_log10_spec x Hx) as [H1 H2].
  rewrite pow10_succ in H2. pose proof (pow10_pos (floor_log10 x)) as Hp.
  split.
  - apply Qle_shift_div_l; lra.
  - apply Qlt_shift_div_r; lra.
Qed.

(** A span is between 6.32 and 15.82 ticks long. *)
Lemma tick_size_bounds (span : Q) :
  0 < span ->
  0 < tick_size span /\
  (632 # 100) * tick_size span <= span /\
  span < (1582 # 100) * tick_size span.
Proof.
  intro Hs. unfold tick_size.
  assert (Hraw : 0 < span / 10) by (apply Qlt_shift_div_l; lra).
  destruct (mantissa_bounds _ Hraw) as [He1 He2].
  pose proof (pow10_pos (floor_log10 (span / 10))) as Hp.
  set (P := pow10 (floor_log10 (span / 10))) in *.
  set (e := span / 10 / P) in *.
  assert (Espan : span == 10 * e * P) by (unfold e; field; lra).
  assert (Hbounds : (632 # 100) * tick_factor e <= 10 * e /\
                    10 * e < (1582 # 100) * tick_factor e).
  { destruct (tick_factor_spec e) as [[H E]|[[H E]|[[H E]|[H E]]]];
      rewrite E; split; nra. }
  pose proof (tick_factor_pos e) as Hf.
  destruct Hbounds as [Hb1 Hb2]. rewrite Espan. split; [|split].
  - apply Qmult_lt_0_compat; lra.
  - setoid_replace ((632 # 100) * (tick_factor e * P))
      with ((632 # 100) * tick_factor e * P) by ring.
    apply Qmult_le_compat_r; lra.
  - setoid_replace ((1582 # 100) * (tick_factor e * P))
      with ((1582 # 100) * tick_factor e * P) by ring.
    apply Qmult_lt_compat_r; lra.
Qed.

Lemma tick_factor_mono (e1 e2 : Q) :
  0 <= e1 -> e1 <= e2 -> tick_factor e1 <= tick_factor e2.
Proof.
  intros H0 H. assert (Hsq : e1 * e1 <= e2 * e2) by nra.
  destruct (tick_factor_spec e1) as [[H1 E1]|[[H1 E1]|[[H1 E1]|[H1 E1]]]],
           (tick_factor_spec e2) as [[H2 E2]|[[H2 E2]|[[H2 E2]|[H2 E2]]]];
    rewrite E1, E2; lra.
Qed.

Lemma tick_factor_le_10 (e : Q) : tick_factor e <= 10.
Proof.
  destruct (tick_factor_cases e) as [H|[H|[H|H]]]; rewrite H; discriminate.
Qed.

Lemma tick_factor_ge_1 (e : Q) : 1 <= tick_factor e.
Proof.
  destruct (tick_factor_cases e) as [H|[H|[H|H]]]; rewrite H; discriminate.
Qed.

(** A longer span has no smaller tick. *)
Lemma tick_size_mono (x y : Q) :
  0 < x -> x <= y -> tick_size x <= tick_size y.
Proof.
  intros Hx Hxy. unfold tick_size.
  assert (Hrx : 0 < x / 10) by (apply Qlt_shift_div_l; lra).
  assert (Hrxy : x / 10 <= y / 10).
  { apply Qmult_le_compat_r; [exact Hxy | discriminate]. }
  pose proof (floor_log10_mono _ _ Hrx Hrxy) as Hp.
  set (p := floor_log10 (x / 10)) in *. set (q := floor_log10 (y / 10)) in *.
  pose proof (pow10_pos p) as Hpp. pose proof (pow10_pos q) as Hpq.
  destruct (Z.eq_dec p q) as [E|N].
  - rewrite <- E.
    assert (He : x / 10 / pow10 p <= y / 10 / pow10 p).
    { apply Qmult_le_compat_r; [exact Hrxy|].
      apply Qlt_le_weak, Qinv_lt_0_compat, Hpp. }
    assert (H0 : 0 <= x / 10 / pow10 p).
    { apply Qle_shift_div_l; lra. }
    apply Qmult_le_compat_r; [|lra]. now apply tick_factor_mono.
  - pose proof (pow10_le (p + 1) q ltac:(lia)) as Hle.
    rewrite pow10_succ in Hle.
    pose proof (tick_factor_le_10 (x / 10 / pow10 p)) as H1.
    pose proof (tick_factor_ge_1 (y / 10 / pow10 q)) as H2.
    assert (Ha : tick_factor (x / 10 / pow10 p) * pow10 p <= 10 * pow10 p).
    { apply Qmult_le_compat_r; lra. }
    assert (Hb : 1 * pow10 q <= tick_factor (y / 10 / pow10 q) * pow10 q).
    { apply Qmult_le_compat_r; lra. }
    lra.
Qed.

(** Between two nice ticks there is at least a factor of two. *)
Lemma nice_tick_gap (f f' : Q) (p p' : Z) :
  (f == 1 \/ f == 2 \/ f == 5 \/ f == 10) ->
  (f' == 1 \/ f' == 2 \/ f' == 5 \/ f' == 10) ->
  f * pow10 p < f' * pow10 p' ->
  2 * (f * pow10 p) <= f' * pow10 p'.
Proof.
  intros Hf Hf' Hlt.
  pose proof (pow10_pos p) as Hp. pose proof (pow10_pos p') as Hp'.
  destruct (Z_lt_le_dec p' p) as [Hlow|Hge].
  - exfalso. pose proof (pow10_le (p' + 1) p ltac:(lia)) as H.
    rewrite pow10_succ in H.
    destruct Hf as [E|[E|[E|E]]], Hf' as [E'|[E'|[E'|E']]];
      rewrite E, E' in Hlt; lra.
  - destruct (Z.eq_dec p' p) as [->|N].
    + destruct Hf as [E|[E|[E|E]]], Hf' as [E'|[E'|[E'|E']]];
        rewrite E, E' in *; lra.
    + destruct (Z.eq_dec p' (p + 1)) as [->|N'].
      * rewrite pow10_succ in *.
        destruct Hf as [E|[E|[E|E]]], Hf' as [E'|[E'|[E'|E']]];
          rewrite E, E' in *; lra.
      * pose proof (pow10_le (p + 1 + 1) p' ltac:(lia)) as H.
        rewrite !pow10_succ in H.
        destruct Hf as [E|[E|[E|E]]], Hf' as [E'|[E'|[E'|E']]];
          rewrite E, E' in *; lra.
Qed.

Lemma tick_size_gap (x y : Q) :
  tick_size x < tick_size y -> 2 * tick_size x <= tick_size y.
Proof. unfold tick_size. apply nice_tick_gap; apply tick_factor_cases. Qed.

(** *** The loop of [nice] commits *)

Lemma multiple_floor_fix (step a : Q) (k : Z) :
  0 < step -> a == inject_Z k * step ->
  inject_Z (Qfloor (a / step)) * step == a /\
  inject_Z (Qceiling (a / step)) * step == a.
Proof.
  intros Hs E.
  assert (Ek : a / step == inject_Z k) by (rewrite E; field; lra).
  rewrite (Qfloor_comp _ _ Ek), (Qceiling_comp _ _ Ek), Qfloor_Z, Qceiling_Z.
  split; now symmetry.
Qed.

Lemma multiple_ceiling_fix (step a : Q) (k : Z) :
  step < 0 -> a == inject_Z k * (- / step) ->
  inject_Z (Qceiling (a * step)) / step == a /\
  inject_Z (Qfloor (a * step)) / step == a.
Proof.
  intros Hs E.
  assert (Ek : a * step == inject_Z (- k)).
  { rewrite E, inject_Z_opp. field. lra. }
  rewrite (Qfloor_comp _ _ Ek), (Qceiling_comp _ _ Ek), Qfloor_Z, Qceiling_Z.
  rewrite E, inject_Z_opp. split; field; lra.
Qed.

(** One turn of the loop on [a < b]: the step, and either the commit or
    the next turn on the domain rounded outward to multiples of the tick,
    which is the same domain when it was already on such multiples. *)
Lemma nice_turn (n : nat) (a b : Q) (pre : option Q) :
  a < b ->
  exists step a1 b1,
    tickIncrement a b 10 = Some step /\
    tick_of step == tick_size (b - a) /\
    nice_loop (S n) a b pre =
      (if match pre with Some p => Qeq_bool step p | None => false end
       then Some (a, b) else nice_loop n a1 b1 (Some step)) /\
    a1 <= a /\ b <= b1 /\ b1 - a1 < b - a + 2 * tick_of step /\
    multiple_of (tick_of step) a1 /\ multiple_of (tick_of step) b1 /\
    (multiple_of (tick_of step) a -> multiple_of (tick_of step) b ->
     a1 == a /\ b1 == b).
Proof.
  intro Hab. destruct (tickIncrement_span a b Hab) as (step & Et & Htick & _).
  destruct (tickIncrement_tick a b step Et) as (Hnz & _ & _).
  cbn [nice_loop]. rewrite Et.
  exists step. destruct (Qlt_bool 0 step) eqn:Epos.
  - pose proof Epos as Hpos. apply Qlt_bool_iff in Hpos.
    assert (Etick : tick_of step = step) by (unfold tick_of; now rewrite Epos).
    rewrite Etick in *.
    destruct (round_by_positive_step step a b Hpos) as (H1 & H2 & H3 & H4).
    eexists _, _. split; [reflexivity|]. split; [exact Htick|].
    split; [reflexivity|]. repeat split; try lra.
    + eexists; reflexivity.
    + eexists; reflexivity.
    + destruct H as [k Hk]. now apply (multiple_floor_fix step a k).
    + destruct H0 as [k Hk]. now apply (multiple_floor_fix step b k).
  - assert (Hneg : step < 0) by (apply Qlt_bool_false_iff in Epos; lra).
    pose proof Hneg as Eneg. apply Qlt_bool_iff in Eneg. rewrite Eneg.
    assert (Etick : tick_of step = - / step)
      by (unfold tick_of; now rewrite Epos).
    rewrite Etick in *.
    destruct (round_by_negative_step step a b Hneg)
      as (H1 & H2 & H3 & H4 & H5 & H6).
    eexists _, _. split; [reflexivity|]. split; [exact Htick|].
    split; [reflexivity|]. repeat split; try lra.
    + eexists; exact H5.
    + eexists; exact H6.
    + destruct H as [k Hk]. now apply (multiple_ceiling_fix step a k).
    + destruct H0 as [k Hk]. now apply (multiple_ceiling_fix step b k).
Qed.

(** On a domain that is not a single point, four turns are enough for the
    step to repeat: [nice] commits. *)
Lemma nice_loop_commits (n : nat) (a b : Q) :
  a < b -> exists r, nice_loop (4 + n) a b None = Some r.
Proof.
  intro Hab. change (4 + n)%nat with (S (S (S (S n)))).
  destruct (nice_turn (S (S (S n))) a b None Hab)
    as (s0 & a1 & b1 & E0 & T0 & L0 & Ha1 & Hb1 & G0 & Ma1 & Mb1 & _).
  rewrite L0. assert (Hab1 : a1 < b1) by lra.
  destruct (nice_turn (S (S n)) a1 b1 (Some s0) Hab1)
    as (s1 & a2 & b2 & E1 & T1 & L1 & Ha2 & Hb2 & G1 & Ma2 & Mb2 & F1).
  rewrite L1. destruct (Qeq_bool s1 s0) eqn:Q1; [eauto|].
  assert (Hab2 : a2 < b2) by lra.
  destruct (nice_turn (S n) a2 b2 (Some s1) Hab2)
    as (s2 & a3 & b3 & E2 & T2 & L2 & Ha3 & Hb3 & G2 & Ma3 & Mb3 & F2).
  rewrite L2. destruct (Qeq_bool s2 s1) eqn:Q2; [eauto|].
  assert (Hab3 : a3 < b3) by lra.
  destruct (nice_turn n a3 b3 (Some s2) Hab3)
    as (s3 & a4 & b4 & E3 & T3 & L3 & _).
  rewrite L3.
  assert (Q3 : Qeq_bool s3 s2 = true); [|rewrite Q3; eauto].
  apply Qeq_eq_bool.
  destruct (tick_size_bounds (b - a) ltac:(lra)) as (P0 & B0 & C0).
  destruct (tick_size_bounds (b1 - a1) ltac:(lra)) as (P1 & B1 & C1).
  destruct (tick_size_bounds (b2 - a2) ltac:(lra)) as (P2 & B2 & C2).
  pose proof (tick_size_mono (b - a) (b1 - a1) ltac:(lra) ltac:(lra)) as M01.
  pose proof (tick_size_mono (b1 - a1) (b2 - a2) ltac:(lra) ltac:(lra)) as M12.
  rewrite T0 in G0. rewrite T1 in G1.
  destruct (Qlt_le_dec (tick_size (b - a)) (tick_size (b1 - a1))) as [Lt01|Ge01].
  - apply tick_size_gap in Lt01.
    destruct (Qlt_le_dec (tick_size (b1 - a1)) (tick_size (b2 - a2)))
      as [Lt12|Ge12].
    + apply tick_size_gap in Lt12. exfalso. lra.
    + assert (Et : tick_of s2 == tick_of s1) by (rewrite T1, T2; lra).
      destruct F2 as [Fa Fb].
      * eapply multiple_of_comp; [symmetry; exact Et | exact Ma2].
      * eapply multiple_of_comp; [symmetry; exact Et | exact Mb2].
      * destruct (tickIncrement_span a2 b2 Hab2) as (s2' & E2' & _ & Hsame).
        rewrite E2 in E2'. injection E2' as <-.
        apply (Hsame a3 b3 s3); [|exact E3]. rewrite Fa, Fb. reflexivity.
  - exfalso.
    assert (Et : tick_of s1 == tick_of s0) by (rewrite T0, T1; lra).
    destruct F1 as [Fa Fb].
    + eapply multiple_of_comp; [symmetry; exact Et | exact Ma1].
    + eapply multiple_of_comp; [symmetry; exact Et | exact Mb1].
    + destruct (tickIncrement_span a1 b1 Hab1) as (s1' & E1' & _ & Hsame).
      rewrite E1 in E1'. injection E1' as <-.
      assert (H : s2 == s1).
      { apply (Hsame a2 b2 s2); [|exact E2]. rewrite Fa, Fb. reflexivity. }
      apply Qeq_eq_bool in H. congruence.
Qed.



(** ** The value scale *)

(** [nice] on an ascending domain: the domain grows outward, onto
    multiples of a nice tick; the range is kept. *)
Lemma nice_ascending (s : LinearScale) :
  l_domain0 s < l_domain1 s ->
  l_domain0 (nice s) <= l_domain0 s /\
  l_domain1 s <= l_domain1 (nice s) /\
  l_range0 (nice s) = l_range0 s /\ l_range1 (nice s) = l_range1 s /\
  exists t, nice_tick t /\ multiple_of t (l_domain0 (nice s)) /\
            multiple_of t (l_domain1 (nice s)).
Proof.
  intro H. unfold nice.
  assert (E : Qlt_bool (l_domain1 s) (l_domain0 s) = false)
    by (apply Qlt_bool_false_iff; lra).
  rewrite E.
  destruct (nice_loop_commits 6 _ _ H) as [[a b] Hc].
  change (4 + 6)%nat with 10%nat in Hc. rewrite Hc.
  destruct (nice_loop_spec 10 _ _ None a b I Hc)
    as (Ha & Hb & step & Et & Ma & Mb).
  cbn [l_domain0 l_domain1 l_range0 l_range1].
  split; [exact Ha|]. split; [exact Hb|]. split; [reflexivity|].
  split; [reflexivity|].
  exists (tick_of step). split; [|split; assumption].
  now destruct (tickIncrement_tick _ _ _ Et) as (_ & _ & Hn).
Qed.

Lemma max0_spec (x : Q) : 0 <= max0 x /\ x <= max0 x /\
                          (max0 x == 0 \/ max0 x == x).
Proof.
  unfold max0. destruct (Qlt_bool x 0) eqn:E.
  - apply Qlt_bool_iff in E. split; [lra|]. split; [lra|]. now left.
  - apply Qlt_bool_false_iff in E. split; [lra|]. split; [lra|]. now right.
Qed.

Lemma max0_comp (x y : Q) : x == y -> max0 x == max0 y.
Proof.
  intro H. unfold max0.
  destruct (Qlt_bool x 0) eqn:Ex, (Qlt_bool y 0) eqn:Ey; trivial;
    try reflexivity;
    [apply Qlt_bool_iff in Ex; apply Qlt_bool_false_iff in Ey
    |apply Qlt_bool_iff in Ey; apply Qlt_bool_false_iff in Ex]; lra.
Qed.






(** The values 62 and 78: the domain [[55.8, 85.8]] has the tick 2 and
    becomes [[54, 86]], which has the tick 5 and becomes [[50, 90]].  The
    lower end is more than one tick below 55.8: the neighbouring multiple
    of the tick, 55, is passed over. *)
Example yScale_lower_end_past_neighbouring_tick :
  let values := [62; 78] in
  let raw := yScale_raw Single.height Single.margin values in
  let s := yScale_of Single.height Single.margin values in
  l_domain0 raw == 558 # 10 /\ l_domain1 raw == 858 # 10 /\
  tickIncrement (l_domain0 raw) (l_domain1 raw) 10 = Some 2 /\
  l_domain0 s == 50 /\ l_domain1 s == 90 /\
  tickIncrement (l_domain0 s) (l_domain1 s) 10 = Some 5 /\
  multiple_of 5 55 /\ 55 <= l_domain0 raw /\
  ~ l_domain0 raw < l_domain0 s + 5.
Proof.
  cbv zeta. split; [reflexivity|]. split; [reflexivity|].
  split; [reflexivity|]. split; [reflexivity|]. split; [reflexivity|].
  split; [reflexivity|]. split; [exists 11%Z; reflexivity|].
  split; [discriminate|]. vm_compute. intro H. discriminate H.
Qed.

(** ** Two scenarios *)

(** Three samples of one student on the full window: the chart keeps the
    three in order, their mean is 100, and the time 9 is nearest to the
    sample at 10. *)
Example three_samples_of_one_student :
  let hr := [mkData 100 0 "S1"; mkData 110 10 "S1"; mkData 90 20 "S1"] in
  exists ch,
    Single.chart (Single.mounted hr) = Some ch /\
    Single.filteredData ch = hr /\
    mean_or0 (map value (Single.filteredData ch)) == 100 /\
    Single.locate (Single.filteredData ch) 9 = Some (mkData 110 10 "S1").
Proof.
  eexists. split; [vm_compute; reflexivity|].
  split; [reflexivity|]. split; reflexivity.
Qed.

(** The numeric order of identifiers is not their order as strings. *)
Example sort_three_students :
  sortStudentIds ["S10"; "S2"; "S1"]%string = ["S1"; "S2"; "S10"]%string.
Proof. reflexivity. Qed.

(** * More of the two components *)

(** ** A recompute of the single-student chart *)

Module SinglePage.
Import Single.

(** [createChart] reads the prop and the three state variables, not the
    chart it replaces. *)
Lemma single_createChart_reads (st st' : State) :
  hr_data st = hr_data st' -> studentId st = studentId st' ->
  timeRange st = timeRange st' -> showAverage st = showAverage st' ->
  createChart st = createChart st'.
Proof. intros H1 H2 H3 H4. unfold createChart. now rewrite H1, H2, H3, H4. Qed.

Lemma single_createChart_again (st : State) :
  createChart (createChart st) = createChart st.
Proof.
  unfold createChart at 2 3.
  destruct (List.length _ =? 0)%nat eqn:E; unfold createChart;
    cbn [hr_data studentId timeRange showAverage];
    rewrite init_timeRange_idem, E; reflexivity.
Qed.

Lemma single_step_fixpoint (st : State) (e : Event) :
  createChart st = st -> createChart (step st e) = step st e.
Proof.
  intro H. destruct e; cbn [step]; try apply single_createChart_again.
  unfold drag. destruct (chart st) as [c|]; [|exact H].
  unfold brushed. destruct (brush_selection _ _ _ _) as [[p0 p1]|]; [|exact H].
  apply single_createChart_again.
Qed.

(** Every state of the page is one that [createChart] has left. *)
Lemma single_run_fixpoint (hr : list HeartRateData) (events : list Event) :
  createChart (run hr events) = run hr events.
Proof.
  unfold run.
  assert (H : createChart (mounted hr) = mounted hr)
    by apply single_createChart_again.
  revert H. generalize (mounted hr). induction events as [|e events IH];
    intros st H; cbn [fold_left]; [exact H|].
  apply IH. now apply single_step_fixpoint.
Qed.

Lemma single_step_hr_data (st : State) (e : Event) :
  hr_data (step st e) = hr_data st.
Proof.
  destruct e; cbn [step]; unfold drag, brushed, resetZoom, toggleAverage,
    handleStudentChange;
    repeat match goal with
           | |- context [match ?x with _ => _ end] => destruct x
           end;
    rewrite ?SingleFacts.single_createChart_hr_data; reflexivity.
Qed.

Lemma single_run_hr_data (hr : list HeartRateData) (events : list Event) :
  hr_data (run hr events) = hr.
Proof.
  unfold run.
  assert (H : hr_data (mounted hr) = hr)
    by (unfold mounted; now rewrite SingleFacts.single_createChart_hr_data).
  revert H. generalize (mounted hr). induction events as [|e events IH];
    intros st H; cbn [fold_left]; [exact H|].
  apply IH. now rewrite single_step_hr_data.
Qed.

End SinglePage.

(** X1.  In every state the single-student chart can reach, pressing the
    average button twice gives back the page as it was: the state
    variables and the chart drawn. *)
Theorem toggle_average_twice (hr : list HeartRateData)
  (events : list Single.Event) :
  let st := Single.run hr events in
  Single.toggleAverage (Single.toggleAverage st) = st.
Proof.
  intro st.
  pose proof (SinglePage.single_run_fixpoint hr events) as Hfix.
  pose proof (SingleFacts.single_run_settled hr events) as Hset.
  fold st in Hfix, Hset. unfold Single.settled in Hset.
  transitivity (Single.createChart st); [|exact Hfix].
  unfold Single.toggleAverage at 1.
  apply SinglePage.single_createChart_reads; cbn [Single.hr_data
    Single.studentId Single.timeRange Single.showAverage];
    unfold Single.toggleAverage.
  - now rewrite SingleFacts.single_createChart_hr_data.
  - now rewrite SingleFacts.single_createChart_studentId.
  - rewrite SingleFacts.single_createChart_timeRange. exact Hset.
  - rewrite SingleFacts.single_createChart_showAverage.
    cbn [Single.showAverage]. apply negb_involutive.
Qed.

(** X2.  In every state the single-student chart can reach, choosing
    another student keeps the zoom window and the average flag, draws
    samples of that student only, and choosing the first student again
    gives back the page as it was. *)
Theorem select_student_keeps_zoom (hr : list HeartRateData)
  (events : list Single.Event) (id : string) :
  let st := Single.run hr events in
  let st' := Single.step st (Single.SelectStudent id) in
  Single.studentId st' = id /\
  Single.timeRange st' = Single.timeRange st /\
  Single.showAverage st' = Single.showAverage st /\
  (forall ch d, Single.chart st' = Some ch ->
     In d (Single.filteredData ch) -> student d = id) /\
  Single.step st' (Single.SelectStudent (Single.studentId st)) = st.
Proof.
  intros st st'.
  pose proof (SinglePage.single_run_fixpoint hr events) as Hfix.
  pose proof (SingleFacts.single_run_settled hr events) as Hset.
  fold st in Hfix, Hset. unfold Single.settled in Hset.
  assert (Htr : Single.timeRange st' = Single.timeRange st).
  { unfold st'. cbn [Single.step].
    rewrite SingleFacts.single_createChart_timeRange. exact Hset. }
  split; [|split; [exact Htr|split; [|split]]].
  - unfold st'. cbn [Single.step].
    now rewrite SingleFacts.single_createChart_studentId.
  - unfold st'. cbn [Single.step].
    now rewrite SingleFacts.single_createChart_showAverage.
  - intros ch d. unfold st'. cbn [Single.step]. unfold Single.createChart.
    destruct (List.length _ =? 0)%nat; cbn [Single.chart]; [discriminate|].
    intros [= <-]. cbn [Single.filteredData Single.handleStudentChange
      Single.studentId]. rewrite sort_by_timestamp_In.
    unfold Single.filter_data. rewrite filter_In, andb_true_iff, String.eqb_eq.
    tauto.
  - transitivity (Single.createChart st); [|exact Hfix]. cbn [Single.step].
    apply SinglePage.single_createChart_reads;
      cbn [Single.handleStudentChange Single.hr_data Single.studentId
           Single.timeRange Single.showAverage]; trivial.
    + unfold st'. cbn [Single.step].
      now rewrite SingleFacts.single_createChart_hr_data.
    + unfold st'. cbn [Single.step].
      now rewrite SingleFacts.single_createChart_showAverage.
Qed.

(** X3.  Whatever the state of the single-student chart, [resetZoom] after
    a drag of the brush gives the page that [resetZoom] gives without the
    drag, and a second [resetZoom] changes nothing. *)
Theorem resetZoom_undoes_drag (st : Single.State) (a b : number) :
  Single.resetZoom (Single.drag st a b) = Single.resetZoom st /\
  Single.resetZoom (Single.resetZoom st) = Single.resetZoom st.
Proof.
  split.
  - unfold Single.drag. destruct (Single.chart st) as [c|]; [|reflexivity].
    unfold Single.brushed.
    destruct (brush_selection _ _ _ _) as [[p0 p1]|]; [|reflexivity].
    unfold Single.resetZoom.
    apply SinglePage.single_createChart_reads;
      cbn [Single.hr_data Single.studentId Single.timeRange Single.showAverage].
    + now rewrite SingleFacts.single_createChart_hr_data.
    + now rewrite SingleFacts.single_createChart_studentId.
    + now rewrite SingleFacts.single_createChart_hr_data.
    + now rewrite SingleFacts.single_createChart_showAverage.
  - unfold Single.resetZoom at 1 3.
    apply SinglePage.single_createChart_reads;
      cbn [Single.hr_data Single.studentId Single.timeRange Single.showAverage];
      unfold Single.resetZoom.
    + now rewrite SingleFacts.single_createChart_hr_data.
    + now rewrite SingleFacts.single_createChart_studentId.
    + now rewrite SingleFacts.single_createChart_hr_data.
    + now rewrite SingleFacts.single_createChart_showAverage.
Qed.

(** ** Inside the scales *)

(** A continuous scale with an ascending range keeps its domain inside
    the range. *)
Lemma bimap_within (d0 d1 r0 r1 x : number) :
  d0 <= x <= d1 -> r0 <= r1 ->
  r0 <= bimap d0 d1 r0 r1 x <= r1.
Proof.
  intros [H0 H1] Hr. destruct (Qlt_le_dec d0 d1) as [Hlt|Hge].
  - rewrite bimap_up by exact Hlt.
    assert (Ht0 : 0 <= (x - d0) / (d1 - d0)) by (apply Qle_shift_div_l; lra).
    assert (Ht1 : (x - d0) / (d1 - d0) <= 1) by (apply Qle_shift_div_r; lra).
    assert (Hm0 : 0 * (r1 - r0) <= (x - d0) / (d1 - d0) * (r1 - r0))
      by (apply Qmult_le_compat_r; lra).
    assert (Hm1 : (x - d0) / (d1 - d0) * (r1 - r0) <= 1 * (r1 - r0))
      by (apply Qmult_le_compat_r; lra).
    split; lra.
  - assert (E : d0 == d1) by lra. rewrite (bimap_flat d0 d1 r0 r1 x E).
    split; [apply Qle_shift_div_l | apply Qle_shift_div_r]; lra.
Qed.

(** The pixel of a [Date] of the domain is inside the range, and the
    [Date] at a pixel of the range is inside the domain. *)
Lemma time_apply_within (s : TimeScale) (z : Z) :
  t_range0 s <= t_range1 s -> (t_domain0 s <= z <= t_domain1 s)%Z ->
  t_range0 s <= time_apply s z <= t_range1 s.
Proof.
  intros Hr [H0 H1]. apply bimap_within; [|exact Hr].
  split; rewrite <- Zle_Qle; assumption.
Qed.

Lemma time_invert_within (s : TimeScale) (x : number) :
  (t_domain0 s <= t_domain1 s)%Z -> t_range0 s <= x <= t_range1 s ->
  (t_domain0 s <= time_invert s x <= t_domain1 s)%Z.
Proof.
  intros Hd Hx. unfold time_invert.
  assert (H : inject_Z (t_domain0 s)
              <= bimap (t_range0 s) (t_range1 s) (inject_Z (t_domain0 s))
                   (inject_Z (t_domain1 s)) x
              <= inject_Z (t_domain1 s)).
  { apply bimap_within; [exact Hx|]. now rewrite <- Zle_Qle. }
  destruct H as [H0 H1]. apply Qtrunc_le in H0, H1.
  rewrite Qtrunc_Z in H0, H1. lia.
Qed.

Lemma time_at_within (s : TimeScale) (x : number) :
  (t_domain0 s <= t_domain1 s)%Z -> t_range0 s <= x <= t_range1 s ->
  inject_Z (t_domain0 s) / 1000 <= time_at s x
  /\ time_at s x <= inject_Z (t_domain1 s) / 1000.
Proof.
  intros Hd Hx. destruct (time_invert_within s x Hd Hx) as [H0 H1].
  unfold time_at. rewrite Zle_Qle in H0, H1.
  split; apply Qmult_le_compat_r; trivial; easy.
Qed.

Lemma clamp_within (e0 e1 x : number) :
  e0 <= e1 -> e0 <= clamp e0 e1 x <= e1.
Proof.
  intro H. unfold clamp. split.
  - apply Q.le_max_l.
  - apply Q.max_lub; [exact H | apply Q.le_min_l].
Qed.

Lemma brush_selection_inside (e0 e1 a b p0 p1 : number) :
  brush_selection e0 e1 a b = Some (p0, p1) ->
  e0 <= p0 /\ p0 <= p1 /\ p1 <= e1.
Proof.
  unfold brush_selection.
  destruct (Qlt_bool a e0) eqn:E0; [discriminate|].
  destruct (Qlt_bool e1 a) eqn:E1; [discriminate|]. cbn [orb].
  apply Qlt_bool_false_iff in E0, E1.
  destruct (Qeq_bool _ _); [discriminate|]. intros [= <- <-].
  destruct (clamp_within e0 e1 b ltac:(lra)) as [H0 H1]. split; [|split].
  - now apply Q.min_glb.
  - eapply Qle_trans; [apply Q.le_min_l | apply Q.le_max_l].
  - now apply Q.max_lub.
Qed.

(** X4.  In every state the single-student chart can reach, and after any
    drag of the brush from there, the window has both bounds set with
    [start <= end]; a drag leaves the window as it was, or puts it back to
    the full extent of [hr_data], or sets it inside the two [Date]s of the
    scale it was drawn on: the brush never zooms out. *)
Theorem brush_zoom_narrows (hr : list HeartRateData)
  (events : list Single.Event) (a b : number) :
  let st := Single.run hr events in
  let st' := Single.drag st a b in
  ordered (Single.timeRange st) /\ ordered (Single.timeRange st') /\
  (Single.timeRange st' = Single.timeRange st \/
   Single.timeRange st' = full_extent hr \/
   exists ch lo hi,
     Single.chart st = Some ch /\
     Single.timeRange st' = {| start := Some lo; end_ := Some hi |} /\
     inject_Z (t_domain0 (Single.xScale ch)) / 1000 <= lo /\ lo <= hi /\
     hi <= inject_Z (t_domain1 (Single.xScale ch)) / 1000).
Proof.
  intros st st'.
  pose proof (BrushFacts.run_consistent hr events) as Hc. fold st in Hc.
  pose proof (BrushFacts.step_consistent st (Single.Drag a b) Hc) as Hc'.
  cbn [Single.step] in Hc'. fold st' in Hc'.
  split; [apply Hc|]. split; [apply Hc'|].
  unfold st', Single.drag.
  destruct (Single.chart st) as [ch|] eqn:Ech; [|now left].
  unfold Single.brushed.
  destruct (brush_selection _ _ a b) as [[p0 p1]|] eqn:Eb; [|now left].
  right. rewrite SingleFacts.single_createChart_timeRange.
  cbn [Single.hr_data Single.timeRange].
  unfold init_timeRange. destruct (not_set _).
  - left. unfold st. now rewrite SinglePage.single_run_hr_data.
  - right. exists ch. eexists _, _. split; [reflexivity|].
    split; [reflexivity|].
    destruct (brush_selection_inside _ _ _ _ _ _ Eb) as (H0 & H01 & H1).
    destruct Hc as [Hord Hch]. pose proof (Hch ch Ech) as Ex.
    assert (Hd : (t_domain0 (Single.xScale ch)
                  <= t_domain1 (Single.xScale ch))%Z).
    { rewrite Ex. now apply xScale_of_ascending. }
    assert (Hr0 : t_range0 (Single.xScale ch) = margin_left Single.margin)
      by now rewrite Ex.
    assert (Hr1 : t_range1 (Single.xScale ch)
                  = Single.width - margin_right Single.margin)
      by now rewrite Ex.
    assert (Hp0 : t_range0 (Single.xScale ch) <= p0 <= t_range1 (Single.xScale ch))
      by (rewrite Hr0, Hr1; split; lra).
    assert (Hp1 : t_range0 (Single.xScale ch) <= p1 <= t_range1 (Single.xScale ch))
      by (rewrite Hr0, Hr1; split; lra).
    destruct (time_at_within _ p0 Hd Hp0) as [A0 _].
    destruct (time_at_within _ p1 Hd Hp1) as [_ A1].
    split; [exact A0|]. split; [|exact A1].
    apply time_at_mono; trivial. rewrite Hr0, Hr1. reflexivity.
Qed.

(** ** The chart on the page of the single-student view *)

Lemma single_createChart_shape (st : Single.State) (ch : Single.Chart) :
  Single.chart (Single.createChart st) = Some ch ->
  let tr := init_timeRange (Single.hr_data st) (Single.timeRange st) in
  let sorted :=
    sort_by_timestamp
      (Single.filter_data (Single.hr_data st) (Single.studentId st) tr) in
  sorted <> [] /\
  ch = {| Single.filteredData := sorted;
          Single.xScale := xScale_of Single.width Single.margin tr;
          Single.yScale :=
            yScale_of Single.height Single.margin (map value sorted);
          Single.averageLine :=
            if Single.showAverage st
            then Some (mean_or0 (map value sorted)) else None |}.
Proof.
  unfold Single.createChart.
  destruct (List.length _ =? 0)%nat eqn:E; cbn [Single.chart];
    [discriminate|].
  intros [= <-]. cbv zeta.
  assert (Hne : sort_by_timestamp
                  (Single.filter_data (Single.hr_data st) (Single.studentId st)
                     (init_timeRange (Single.hr_data st) (Single.timeRange st)))
                <> []).
  { intro H. apply (f_equal (@List.length _)) in H.
    rewrite sort_by_timestamp_length in H. cbn in H. rewrite H in E.
    discriminate. }
  split; [exact Hne|].
  destruct (sort_by_timestamp _) eqn:Es; [congruence|].
  cbn [List.length Nat.eqb negb]. now rewrite andb_true_r.
Qed.

(** The chart of a state the page can reach, from the state variables. *)
Lemma single_run_chart (hr : list HeartRateData)
  (events : list Single.Event) (ch : Single.Chart) :
  let st := Single.run hr events in
  Single.chart st = Some ch ->
  let sorted :=
    sort_by_timestamp
      (Single.filter_data hr (Single.studentId st) (Single.timeRange st)) in
  sorted <> [] /\
  ch = {| Single.filteredData := sorted;
          Single.xScale :=
            xScale_of Single.width Single.margin (Single.timeRange st);
          Single.yScale :=
            yScale_of Single.height Single.margin (map value sorted);
          Single.averageLine :=
            if Single.showAverage st
            then Some (mean_or0 (map value sorted)) else None |}.
Proof.
  intros st Hch.
  pose proof (SinglePage.single_run_fixpoint hr events) as Hfix.
  pose proof (SingleFacts.single_run_settled hr events) as Hset.
  pose proof (SinglePage.single_run_hr_data hr events) as Hhr.
  fold st in Hfix, Hset, Hhr. unfold Single.settled in Hset.
  rewrite <- Hfix in Hch. apply single_createChart_shape in Hch.
  cbv zeta in Hch. rewrite Hset, Hhr in Hch. exact Hch.
Qed.

(** ** The mean *)

Lemma sum_between (values : list number) (lo hi acc : number) :
  (forall v, In v values -> lo <= v <= hi) ->
  acc + inject_Z (Z.of_nat (List.length values)) * lo
    <= fold_left Qplus values acc /\
  fold_left Qplus values acc
    <= acc + inject_Z (Z.of_nat (List.length values)) * hi.
Proof.
  revert acc. induction values as [|v values IH]; intros acc H.
  - cbn [fold_left List.length Z.of_nat]. change (inject_Z 0) with 0.
    split; lra.
  - cbn [fold_left List.length]. rewrite Nat2Z.inj_succ.
    unfold Z.succ. rewrite inject_Z_plus. change (inject_Z 1) with 1.
    destruct (H v (or_introl eq_refl)) as [H0 H1].
    destruct (IH (acc + v) (fun w Hw => H w (or_intror Hw))) as [I0 I1].
    split; lra.
Qed.

(** The mean of values that are not none is between any two bounds of the
    values. *)
Lemma mean_or0_between (values : list number) (lo hi : number) :
  values <> [] -> (forall v, In v values -> lo <= v <= hi) ->
  lo <= mean_or0 values <= hi.
Proof.
  intros Hne H. destruct (sum_between values lo hi 0 H) as [H0 H1].
  assert (Hn : 0 < inject_Z (Z.of_nat (List.length values))).
  { destruct values; [congruence|]. cbn [List.length].
    change 0 with (inject_Z 0). rewrite <- Zlt_Qlt. lia. }
  unfold mean_or0. destruct values as [|v vs] eqn:E; [congruence|].
  rewrite <- E in *.
  split.
  - apply Qle_shift_div_l; [exact Hn | lra].
  - apply Qle_shift_div_r; [exact Hn | lra].
Qed.

Lemma extremes_of (values : list number) :
  values <> [] ->
  exists lo hi, d3_min values = Some lo /\ d3_max values = Some hi /\
                In lo values /\ In hi values /\
                forall v, In v values -> lo <= v <= hi.
Proof.
  intro Hne.
  destruct (d3_min_spec values Hne) as (lo & E0 & I0 & H0).
  destruct (d3_max_spec values Hne) as (hi & E1 & I1 & H1).
  exists lo, hi. repeat split; trivial; [now apply H0 | now apply H1].
Qed.

(** X5.  In every state the single-student chart can reach with a chart
    on the page, the average line is drawn exactly when the average flag
    is set, and its value is the mean of the bpm values of the drawn
    samples, between the least and the greatest of them. *)
Theorem average_line_between_extremes (hr : list HeartRateData)
  (events : list Single.Event) :
  let st := Single.run hr events in
  match Single.chart st with
  | None => True
  | Some ch =>
      let values := map value (Single.filteredData ch) in
      if Single.showAverage st then
        exists lo hi,
          d3_min values = Some lo /\ d3_max values = Some hi /\
          Single.averageLine ch = Some (mean_or0 values) /\
          lo <= mean_or0 values <= hi /\
          mean_or0 values * inject_Z (Z.of_nat (List.length values))
            == fold_left Qplus values 0
      else Single.averageLine ch = None
  end.
Proof.
  intro st. destruct (Single.chart st) as [ch|] eqn:Ech; [|exact I].
  destruct (single_run_chart hr events ch Ech) as [Hne ->].
  fold st. cbn [Single.filteredData Single.averageLine].
  destruct (Single.showAverage st); [|reflexivity].
  set (sorted := sort_by_timestamp _) in *.
  assert (Hv : map value sorted <> []).
  { destruct sorted; [congruence | discriminate]. }
  destruct (extremes_of _ Hv) as (lo & hi & E0 & E1 & _ & _ & Hall).
  exists lo, hi. split; [exact E0|]. split; [exact E1|].
  split; [reflexivity|]. split; [now apply mean_or0_between|].
  unfold mean_or0. destruct (map value sorted) as [|v vs] eqn:Em; [congruence|].
  field. cbn [List.length]. change 0 with (inject_Z 0).
  intro H. apply eq_sym, Qeq_sym in H.
  assert (Hz : inject_Z 0 < inject_Z (Z.of_nat (S (List.length vs)))).
  { rewrite <- Zlt_Qlt. lia. }
  lra.
Qed.

(** X6.  The tooltip of the single-student chart, in every state the page
    can reach.  With no chart on the page, or with the pointer left of the
    left margin or right of the right margin, nothing is shown.  With a
    chart and the pointer between the margins, a sample is shown: it is a
    sample of [hr_data] of the selected student inside the window, and a
    nearest one of the drawn samples to the time under the pointer. *)
Theorem tooltip_shows_nearest_sample (hr : list HeartRateData)
  (events : list Single.Event) (mouseX : number) :
  let st := Single.run hr events in
  match Single.chart st with
  | None => Single.mousemove st mouseX = None
  | Some ch =>
      (mouseX < 80 \/ 700 < mouseX -> Single.mousemove st mouseX = None) /\
      (80 <= mouseX <= 700 ->
       exists d,
         Single.mousemove st mouseX = Some d /\
         In d hr /\ student d = Single.studentId st /\
         in_window (Single.timeRange st) d = true /\
         nearest (Single.filteredData ch)
                 (time_at (Single.xScale ch) mouseX) d)
  end.
Proof.
  intro st. unfold Single.mousemove.
  destruct (Single.chart st) as [ch|] eqn:Ech; [|reflexivity].
  destruct (single_run_chart hr events ch Ech) as [Hne Hch]. fold st in Hch.
  set (sorted := sort_by_timestamp _) in *.
  assert (Hfd : Single.filteredData ch = sorted) by now rewrite Hch.
  rewrite Hfd.
  assert (Hlen : (List.length sorted =? 0)%nat = false).
  { destruct sorted; [congruence | reflexivity]. }
  rewrite Hlen.
  change (margin_left Single.margin) with 80.
  change (Single.width - margin_right Single.margin) with (800 - 100).
  split.
  - intros [H|H].
    + apply Qlt_bool_iff in H. now rewrite H.
    + assert (H' : Qlt_bool (800 - 100) mouseX = true)
        by (apply Qlt_bool_iff; lra).
      rewrite H'. now rewrite orb_true_r.
  - intros [H0 H1].
    assert (E0 : Qlt_bool mouseX 80 = false) by now apply Qlt_bool_false_iff.
    assert (E1 : Qlt_bool (800 - 100) mouseX = false)
      by (apply Qlt_bool_false_iff; lra).
    rewrite E0, E1. cbn [orb].
    destruct (single_locate_nearest sorted (time_at (Single.xScale ch) mouseX))
      as (d & Hd & Hn).
    { apply sort_by_timestamp_ascending. }
    { exact Hne. }
    exists d. split; [exact Hd|].
    destruct Hn as [Hin Hn']. pose proof Hin as Hin'.
    unfold sorted in Hin'. apply -> sort_by_timestamp_In in Hin'.
    unfold Single.filter_data in Hin'. apply filter_In in Hin'.
    destruct Hin' as [Hhr Hb]. apply andb_true_iff in Hb.
    destruct Hb as [Hs Hw]. apply String.eqb_eq in Hs.
    split; [exact Hhr|]. split; [exact Hs|]. split; [exact Hw|].
    split; [exact Hin | exact Hn'].
Qed.

(** ** Where the points are drawn *)

(** With a range that runs downwards, as the one of a value scale. *)
Lemma bimap_within_inverted (d0 d1 r0 r1 x : number) :
  d0 <= x <= d1 -> r1 <= r0 ->
  r1 <= bimap d0 d1 r0 r1 x <= r0.
Proof.
  intros [H0 H1] Hr. destruct (Qlt_le_dec d0 d1) as [Hlt|Hge].
  - rewrite bimap_up by exact Hlt.
    assert (Ht0 : 0 <= (x - d0) / (d1 - d0)) by (apply Qle_shift_div_l; lra).
    assert (Ht1 : (x - d0) / (d1 - d0) <= 1) by (apply Qle_shift_div_r; lra).
    assert (Hm0 : 0 * (r0 - r1) <= (x - d0) / (d1 - d0) * (r0 - r1))
      by (apply Qmult_le_compat_r; lra).
    assert (Hm1 : (x - d0) / (d1 - d0) * (r0 - r1) <= 1 * (r0 - r1))
      by (apply Qmult_le_compat_r; lra).
    split; lra.
  - assert (E : d0 == d1) by lra. rewrite (bimap_flat d0 d1 r0 r1 x E).
    split; [apply Qle_shift_div_l | apply Qle_shift_div_r]; lra.
Qed.

Lemma nice_range (s : LinearScale) :
  l_range0 (nice s) = l_range0 s /\ l_range1 (nice s) = l_range1 s.
Proof.
  unfold nice. destruct (Qlt_bool _ _).
  - destruct (nice_loop _ _ _ _) as [[a b]|]; split; reflexivity.
  - destruct (nice_loop _ _ _ _) as [[a b]|]; split; reflexivity.
Qed.

(** A one-point domain is left as it is. *)
Lemma nice_flat (s : LinearScale) :
  l_domain0 s == l_domain1 s -> nice s = s.
Proof.
  intro H. unfold nice.
  assert (E : Qlt_bool (l_domain1 s) (l_domain0 s) = false)
    by (apply Qlt_bool_false_iff; lra).
  rewrite E. cbn [nice_loop]. unfold tickIncrement.
  assert (E' : Qlt_bool 0 ((l_domain1 s - l_domain0 s) / 10) = false).
  { apply Qlt_bool_false_iff. apply Qle_shift_div_r; lra. }
  now rewrite E'.
Qed.

(** The domain of the value scale holds every value that is not negative. *)
Lemma yScale_of_covers (height : number) (margin : Margin)
  (values : list number) (v : number) :
  In v values -> 0 <= v ->
  let s := yScale_of height margin values in
  l_domain0 s <= v <= l_domain1 s.
Proof.
  intros Hin Hv. cbv zeta.
  assert (Hne : values <> []) by (intros ->; contradiction).
  destruct (extremes_of values Hne) as (lo & hi & E0 & E1 & _ & _ & Hall).
  destruct (Hall v Hin) as [Hlo Hhi].
  unfold yScale_of. set (raw := yScale_raw height margin values).
  assert (R0 : l_domain0 raw == max0 (lo * (9 # 10))).
  { unfold raw, yScale_raw. cbn [l_domain0]. rewrite E0.
    apply max0_comp. now rewrite or0_Some. }
  assert (R1 : l_domain1 raw == hi * (11 # 10)).
  { unfold raw, yScale_raw. cbn [l_domain1]. rewrite E1.
    now rewrite or0_Some. }
  assert (Hbelow : l_domain0 raw <= v).
  { rewrite R0.
    destruct (max0_spec (lo * (9 # 10))) as (_ & _ & [H|H]); rewrite H; lra. }
  assert (Habove : v <= l_domain1 raw) by (rewrite R1; lra).
  destruct (Qlt_le_dec (l_domain0 raw) (l_domain1 raw)) as [Hlt|Hge].
  - destruct (nice_ascending raw Hlt) as (N0 & N1 & _). split; lra.
  - rewrite nice_flat by lra. split; assumption.
Qed.

(** X7.  In every state the single-student chart can reach, each drawn
    sample has its horizontal pixel between the left margin and the right
    one, samples later in time are not drawn further left, and a sample
    whose bpm value is not negative has its vertical pixel between the top
    margin and the bottom one. *)
Theorem drawn_points_inside_plot (hr : list HeartRateData)
  (events : list Single.Event) :
  let st := Single.run hr events in
  match Single.chart st with
  | None => True
  | Some ch =>
      let px d := pixel_of (Single.xScale ch) (timestamp d) in
      let py d := linear_apply (Single.yScale ch) (value d) in
      (forall d, In d (Single.filteredData ch) ->
         80 <= px d <= 700 /\ (0 <= value d -> 50 <= py d <= 370)) /\
      (forall d e,
         In d (Single.filteredData ch) -> In e (Single.filteredData ch) ->
         timestamp d <= timestamp e -> px d <= px e)
  end.
Proof.
  intro st. destruct (Single.chart st) as [ch|] eqn:Ech; [|exact I].
  cbv zeta.
  destruct (single_run_chart hr events ch Ech) as [Hne Hch].
  fold st in Hch, Hne.
  destruct (BrushFacts.run_consistent hr events) as [Hord _]. fold st in Hord.
  pose proof (xScale_of_ascending Single.width Single.margin _ Hord) as Hdom.
  destruct Hord as (lo & hi & Etr & Hlohi). rewrite Etr in Hch, Hdom, Hne.
  set (sorted := sort_by_timestamp _) in *.
  set (xs := xScale_of Single.width Single.margin _) in *.
  assert (Hfd : Single.filteredData ch = sorted) by now rewrite Hch.
  assert (Hx : Single.xScale ch = xs) by now rewrite Hch.
  assert (Hy : Single.yScale ch
               = yScale_of Single.height Single.margin (map value sorted))
    by now rewrite Hch.
  rewrite Hfd, Hx, Hy.
  assert (Hwin : forall d, In d sorted -> lo <= timestamp d <= hi).
  { intros d Hd. unfold sorted in Hd. apply -> sort_by_timestamp_In in Hd.
    apply single_filter_data_iff in Hd. tauto. }
  assert (Hz : forall d, In d sorted ->
                 (t_domain0 xs <= Qtrunc (timestamp d * 1000) <= t_domain1 xs)%Z).
  { intros d Hd. destruct (Hwin d Hd) as [H0 H1].
    unfold xs. cbn [xScale_of t_domain0 t_domain1 start end_].
    pose proof (or0_Some lo) as Elo. pose proof (or0_Some hi) as Ehi.
    split; apply Qtrunc_le; lra. }
  split.
  - intros d Hd. split.
    + unfold pixel_of.
      apply (time_apply_within xs (Qtrunc (timestamp d * 1000))).
      * apply Qle_bool_iff. reflexivity.
      * now apply Hz.
    + intro Hv.
      pose proof (yScale_of_covers Single.height Single.margin
                    (map value sorted) (value d) (in_map value _ _ Hd) Hv)
        as Hcov.
      cbv zeta in Hcov. unfold linear_apply.
      destruct (nice_range (yScale_raw Single.height Single.margin
                              (map value sorted))) as [Er0 Er1].
      unfold yScale_of. rewrite Er0, Er1. cbn [yScale_raw l_range0 l_range1].
      change (Single.height - margin_bottom Single.margin) with (450 - 80).
      change (margin_top Single.margin) with 50.
      assert (H : 50 <= bimap (l_domain0 (nice (yScale_raw Single.height
                                                   Single.margin
                                                   (map value sorted))))
                          (l_domain1 (nice (yScale_raw Single.height
                                              Single.margin
                                              (map value sorted))))
                          (450 - 80) 50 (value d) <= 450 - 80).
      { apply bimap_within_inverted; [exact Hcov | lra]. }
      lra.
  - intros d e Hd He Hle. unfold pixel_of, time_apply.
    assert (Hq : inject_Z (Qtrunc (timestamp d * 1000))
                 <= inject_Z (Qtrunc (timestamp e * 1000))).
    { rewrite <- Zle_Qle. apply Qtrunc_le. lra. }
    rewrite Zle_Qle in Hdom.
    destruct (Qlt_le_dec (inject_Z (t_domain0 xs)) (inject_Z (t_domain1 xs)))
      as [Hlt|Hge].
    + apply bimap_mono; [exact Hlt| |exact Hq].
      apply Qle_bool_iff. reflexivity.
    + assert (E : inject_Z (t_domain0 xs) == inject_Z (t_domain1 xs)) by lra.
      rewrite !(bimap_flat _ _ _ _ _ E). lra.
Qed.

(** ** The message that takes the place of the chart *)

Lemma filter_nil_iff {A : Type} (f : A -> bool) (l : list A) :
  filter f l = [] <-> forall x, In x l -> f x = false.
Proof.
  induction l as [|a l IH]; cbn [filter].
  - split; [intros _ x [] | reflexivity].
  - destruct (f a) eqn:E.
    + split; [discriminate|]. intro H.
      specialize (H a (or_introl eq_refl)). congruence.
    + rewrite IH. split.
      * intros H x [<-|Hx]; [exact E | now apply H].
      * intros H x Hx. apply H. now right.
Qed.

Lemma single_createChart_none (st : Single.State) :
  Single.chart (Single.createChart st) = None <->
  forall d, In d (Single.hr_data st) ->
            student d = Single.studentId st ->
            in_window (init_timeRange (Single.hr_data st) (Single.timeRange st))
                      d = false.
Proof.
  unfold Single.createChart.
  set (tr := init_timeRange _ _).
  destruct (List.length _ =? 0)%nat eqn:E; cbn [Single.chart].
  - apply length_zero_iff_nil in E.
    unfold Single.filter_data in E. rewrite filter_nil_iff in E.
    split; [|reflexivity]. intros _ d Hd Hs. specialize (E d Hd).
    apply andb_false_iff in E. destruct E as [E|E]; [|exact E].
    apply String.eqb_neq in E. contradiction.
  - split; [discriminate|]. intro H. exfalso.
    apply not_true_iff_false in E. apply E. apply length_zero_iff_nil.
    unfold Single.filter_data. apply filter_nil_iff. intros d Hd.
    destruct (String.eqb_spec (student d) (Single.studentId st)) as [Hs|Hs];
      [|reflexivity].
    cbn [andb]. now apply H.
Qed.

Lemma init_timeRange_full_extent (hr : list HeartRateData) :
  init_timeRange hr (full_extent hr) = full_extent hr.
Proof.
  unfold init_timeRange. now destruct (not_set _).
Qed.

(** X8.  In every state the single-student chart can reach, the no-data
    message is on the page in place of the chart exactly when no sample of
    the selected student is inside the window; and after a reset of the
    zoom exactly when [hr_data] has no sample of the selected student. *)
Theorem no_data_message_iff (hr : list HeartRateData)
  (events : list Single.Event) :
  let st := Single.run hr events in
  (Single.chart st = None <->
   forall d, In d hr -> student d = Single.studentId st ->
             in_window (Single.timeRange st) d = false) /\
  (Single.chart (Single.resetZoom st) = None <->
   forall d, In d hr -> student d <> Single.studentId st).
Proof.
  intro st.
  pose proof (SinglePage.single_run_fixpoint hr events) as Hfix.
  pose proof (SingleFacts.single_run_settled hr events) as Hset.
  pose proof (SinglePage.single_run_hr_data hr events) as Hhr.
  fold st in Hfix, Hset, Hhr. unfold Single.settled in Hset.
  split.
  - rewrite <- Hfix at 1. rewrite single_createChart_none, Hset, Hhr.
    reflexivity.
  - unfold Single.resetZoom. rewrite single_createChart_none.
    cbn [Single.hr_data Single.studentId Single.timeRange].
    rewrite Hhr, init_timeRange_full_extent. split.
    + intros H d Hd Hs. specialize (H d Hd Hs).
      rewrite in_full_extent in H by exact Hd. discriminate.
    + intros H d Hd Hs. exfalso. exact (H d Hd Hs).
Qed.

(** * The comparison chart on the page *)

(** ** The colours of a run of [createChart] *)

Lemma pairs_as_map {A B : Type} (f : A -> B) (l : list (A * B)) :
  (forall a b, In (a, b) l -> f a = b) ->
  l = map (fun a => (a, f a)) (map fst l).
Proof.
  induction l as [|[a b] l IH]; intro H; cbn [map fst]; [reflexivity|].
  rewrite (H a b (or_introl eq_refl)). f_equal.
  apply IH. intros a' b' Hin. apply H. now right.
Qed.

Lemma color_each_paint (domain ids : list string) :
  fst (color_each domain ids) = paint (snd (color_each domain ids)) ids.
Proof.
  destruct (color_each_spec ids domain) as (more & _ & Hids & Hcol).
  unfold paint. rewrite <- Hids at 2.
  apply pairs_as_map. intros s col Hin. now apply Hcol.
Qed.

Lemma color_each_domain (domain ids : list string) (s : string) :
  In s domain \/ In s ids -> In s (snd (color_each domain ids)).
Proof.
  destruct (color_each_spec ids domain) as (more & Hdom & Hids & Hcol).
  intros [H|H].
  - rewrite Hdom. apply in_or_app. now left.
  - rewrite <- Hids in H. apply in_map_iff in H.
    destruct H as ([s' col] & E & Hin). cbn in E. subst s'.
    now apply (Hcol s col).
Qed.

Lemma paint_stable (domain more ids : list string) :
  (forall s, In s ids -> In s domain) ->
  paint (domain ++ more) ids = paint domain ids.
Proof.
  intro H. unfold paint. apply map_ext_in. intros s Hs.
  now rewrite colorScale_stable by now apply H.
Qed.

(** With every student in the domain already, the scale is only read. *)
Lemma color_each_closed (domain ids : list string) :
  (forall s, In s ids -> In s domain) ->
  color_each domain ids = (paint domain ids, domain).
Proof.
  induction ids as [|s ids IH]; intro H; cbn [color_each paint map];
    [reflexivity|].
  destruct (proj1 (index_of_In s domain) (H s (or_introl eq_refl))) as [i Ei].
  unfold colorScale at 1. rewrite Ei.
  rewrite IH by (intros s' Hs'; apply H; now right).
  unfold paint, colorScale at 2. now rewrite Ei.
Qed.

(** ** What is on the page *)

Module ComparisonPage.
Import Comparison.

(** A line is drawn only for a selected student. *)
Lemma keys_selected (hr : list HeartRateData) (selected : list string)
  (tr : TimeRange) (k : string) :
  In k (map fst (sort_groups (d3_group (filter_data hr selected tr)))) ->
  In k selected.
Proof.
  intro H. apply in_map_iff in H. destruct H as ([k' ds] & E & Hin).
  cbn in E. subst k'. apply sort_groups_In in Hin.
  destruct Hin as (ds0 & Hin & _). apply d3_group_spec in Hin.
  destruct Hin as [-> Hne].
  destruct (samples_of k (filter_data hr selected tr)) as [|d l] eqn:Es;
    [congruence|].
  assert (Hd : In d (samples_of k (filter_data hr selected tr)))
    by (rewrite Es; now left).
  apply samples_of_In in Hd. destruct Hd as [Hd <-].
  unfold filter_data in Hd. apply filter_In in Hd. destruct Hd as [_ Hb].
  apply andb_true_iff in Hb. destruct Hb as [Hb _]. now apply includes_iff.
Qed.

Lemma comparison_drawn_intro (st : State) :
  selectedStudents st <> [] ->
  init_timeRange (hr_data st) (timeRange st) = timeRange st /\
  (forall s, In s (selectedStudents st) -> In s (colorDomain st)) /\
  chart st = Some (comparison_chart_of st) ->
  comparison_drawn st.
Proof.
  intros Hne H. unfold comparison_drawn.
  destruct (selectedStudents st) eqn:E; [congruence|].
  exact H.
Qed.

Lemma comparison_createChart_drawn (st : State) :
  comparison_drawn (createChart st).
Proof.
  unfold comparison_drawn, createChart.
  destruct (selectedStudents st) as [|x l] eqn:Esel.
  - reflexivity.
  - cbn [List.length Nat.eqb]. rewrite <- Esel.
    set (tr := init_timeRange (hr_data st) (timeRange st)).
    set (keys := map fst (sort_groups (d3_group
                   (filter_data (hr_data st) (selectedStudents st) tr)))).
    pose proof (color_each_paint (colorDomain st) keys) as P1.
    pose proof (color_each_domain (colorDomain st) keys) as D1.
    destruct (color_each (colorDomain st) keys) as [strokes domain1].
    cbn [fst snd] in P1, D1.
    pose proof (color_each_paint domain1 (selectedStudents st)) as P2.
    pose proof (color_each_domain domain1 (selectedStudents st)) as D2.
    destruct (color_each_spec (selectedStudents st) domain1)
      as (more & Emore & _).
    destruct (color_each domain1 (selectedStudents st)) as [items domain2].
    cbn [fst snd] in P2, D2, Emore.
    apply comparison_drawn_intro;
      cbn [selectedStudents hr_data timeRange colorDomain chart];
      [congruence|].
    split; [apply init_timeRange_idem|].
    split; [intros s Hs; apply D2; now right|].
    unfold comparison_chart_of.
    cbn [selectedStudents hr_data timeRange colorDomain showAverages].
    fold tr. fold keys. f_equal. f_equal; [|exact P2].
    rewrite P1, Emore. symmetry. apply paint_stable.
    intros s Hs. apply D1. now right.
Qed.

Lemma comparison_initial_drawn (hr : list HeartRateData) :
  comparison_drawn (initial hr).
Proof. reflexivity. Qed.

Lemma comparison_step_drawn (st : State) (e : Event) :
  comparison_drawn st -> comparison_drawn (step st e).
Proof.
  intro H. destruct e; cbn [step].
  - unfold toggleStudentSelection.
    set (selected := if includes _ _ then _ else _).
    destruct (Nat.ltb_spec 0 (List.length selected)) as [Hlt|Hge].
    + apply comparison_createChart_drawn.
    + rewrite (SelectionFacts.nil_of_length selected) by lia. reflexivity.
  - apply comparison_createChart_drawn.
  - reflexivity.
  - unfold toggleAverages. cbn [selectedStudents].
    destruct (Nat.ltb_spec 0 (List.length (selectedStudents st))) as [Hlt|Hge].
    + apply comparison_createChart_drawn.
    + unfold comparison_drawn in *. cbn [selectedStudents chart].
      destruct (selectedStudents st); [exact H | cbn in Hge; lia].
Qed.

Lemma comparison_run_drawn (hr : list HeartRateData) (events : list Event) :
  comparison_drawn (run hr events).
Proof.
  unfold run. pose proof (comparison_initial_drawn hr) as H.
  revert H. generalize (initial hr). induction events as [|e events IH];
    intros st H; cbn [fold_left]; [exact H|].
  apply IH. now apply comparison_step_drawn.
Qed.

(** A recompute of what is on the page changes nothing. *)
Lemma comparison_createChart_fixpoint (st : State) :
  comparison_drawn st -> createChart st = st.
Proof.
  unfold comparison_drawn, createChart. destruct st as [hr sel tr show dom ch].
  cbn [selectedStudents hr_data timeRange colorDomain showAverages chart].
  destruct sel as [|x l].
  - intros ->. reflexivity.
  - intros (Htr & Hdom & ->). cbn [List.length Nat.eqb]. rewrite Htr.
    rewrite color_each_closed.
    2:{ intros s Hs. apply Hdom. now apply keys_selected in Hs. }
    rewrite color_each_closed by exact Hdom.
    reflexivity.
Qed.

End ComparisonPage.

(** ** The selection and the window *)

Lemma unique_from_NoDup (xs seen : list string) :
  NoDup seen ->
  NoDup (fold_left (fun seen x => if includes seen x then seen else seen ++ [x])
           xs seen).
Proof.
  revert seen. induction xs as [|x xs IH]; intros seen H; cbn [fold_left];
    [exact H|].
  apply IH. destruct (includes seen x) eqn:E; [exact H|].
  apply NoDup_app; [exact H | repeat constructor; intros [] |].
  intros y Hy [<-|[]]. apply includes_iff in Hy. congruence.
Qed.

Lemma unique_NoDup (xs : list string) : NoDup (unique xs).
Proof. apply unique_from_NoDup. constructor. Qed.

Lemma filter_out_absent (s : string) (l : list string) :
  ~ In s l -> filter (fun x => negb (String.eqb x s)) l = l.
Proof.
  induction l as [|a l IH]; intro H; cbn [filter]; [reflexivity|].
  destruct (String.eqb_spec a s) as [->|Hne].
  - exfalso. apply H. now left.
  - cbn [negb]. f_equal. apply IH. intro Hin. apply H. now right.
Qed.

Module ComparisonInvariants.
Import Comparison.

Lemma toggled_NoDup (sel : list string) (s : string) :
  NoDup sel ->
  NoDup (if includes sel s
         then filter (fun x => negb (String.eqb x s)) sel
         else sel ++ [s]).
Proof.
  intro H. destruct (includes sel s) eqn:E.
  - now apply NoDup_filter.
  - apply NoDup_app; [exact H | repeat constructor; intros [] |].
    intros y Hy [<-|[]]. apply includes_iff in Hy. congruence.
Qed.

Lemma comparison_step_NoDup (st : State) (e : Event) :
  NoDup (selectedStudents st) -> NoDup (selectedStudents (step st e)).
Proof.
  intro H. destruct e; cbn [step].
  - unfold toggleStudentSelection. destruct (_ <? _)%nat.
    + rewrite ComparisonFacts.comparison_createChart_selectedStudents.
      now apply toggled_NoDup.
    + now apply toggled_NoDup.
  - unfold selectAllStudents.
    rewrite ComparisonFacts.comparison_createChart_selectedStudents.
    cbn [with_selection selectedStudents].
    apply (Permutation_NoDup (Permutation_sym (sortStudentIds_perm _))).
    apply unique_NoDup.
  - constructor.
  - unfold toggleAverages. destruct (_ <? _)%nat; [|exact H].
    now rewrite ComparisonFacts.comparison_createChart_selectedStudents.
Qed.

Lemma comparison_run_NoDup (hr : list HeartRateData) (events : list Event) :
  NoDup (selectedStudents (run hr events)).
Proof.
  unfold run.
  assert (H : NoDup (selectedStudents (initial hr))) by constructor.
  revert H. generalize (initial hr). induction events as [|e events IH];
    intros st H; cbn [fold_left]; [exact H|].
  apply IH. now apply comparison_step_NoDup.
Qed.

(** The window of a recompute from a window never set, or from the full
    extent, is the full extent. *)
Lemma init_timeRange_unzoomed (hr : list HeartRateData) (tr : TimeRange) :
  tr = {| start := None; end_ := None |} \/ tr = full_extent hr ->
  init_timeRange hr tr = full_extent hr.
Proof.
  intros [->| ->]; [reflexivity | apply init_timeRange_full_extent].
Qed.

Lemma comparison_createChart_unzoomed (st : State) :
  timeRange st = {| start := None; end_ := None |}
  \/ timeRange st = full_extent (hr_data st) ->
  (timeRange (createChart st) = {| start := None; end_ := None |}
   \/ timeRange (createChart st) = full_extent (hr_data st)) /\
  (selectedStudents st <> [] ->
   timeRange (createChart st) = full_extent (hr_data st)).
Proof.
  intro H. rewrite ComparisonFacts.comparison_createChart_timeRange.
  destruct (selectedStudents st) as [|x l]; cbn [List.length Nat.eqb].
  - split; [exact H | congruence].
  - rewrite init_timeRange_unzoomed by exact H. split; [now right | trivial].
Qed.

Lemma comparison_step_unzoomed (st : State) (e : Event) :
  (timeRange st = {| start := None; end_ := None |}
   \/ timeRange st = full_extent (hr_data st)) /\
  (selectedStudents st <> [] -> timeRange st = full_extent (hr_data st)) ->
  (timeRange (step st e) = {| start := None; end_ := None |}
   \/ timeRange (step st e) = full_extent (hr_data (step st e))) /\
  (selectedStudents (step st e) <> [] ->
   timeRange (step st e) = full_extent (hr_data (step st e))).
Proof.
  intros [H1 H2]. rewrite SelectionFacts.step_hr_data.
  destruct e; cbn [step].
  - unfold toggleStudentSelection.
    set (selected := if includes _ _ then _ else _).
    destruct (Nat.ltb_spec 0 (List.length selected)) as [Hlt|Hge].
    + destruct (comparison_createChart_unzoomed (with_selection st selected) H1)
        as [G1 G2].
      split; [exact G1|]. intros _. apply G2. cbn [with_selection selectedStudents].
      intro E. rewrite E in Hlt. cbn in Hlt. lia.
    + rewrite (SelectionFacts.nil_of_length selected) by lia.
      split; [exact H1 | cbn; congruence].
  - destruct (comparison_createChart_unzoomed
                (with_selection st
                   (sortStudentIds (unique (map student (hr_data st))))) H1)
      as [G1 G2].
    split; [exact G1|].
    unfold selectAllStudents.
    rewrite ComparisonFacts.comparison_createChart_selectedStudents.
    exact G2.
  - split; [exact H1 | cbn; congruence].
  - unfold toggleAverages. cbn [selectedStudents].
    destruct (Nat.ltb_spec 0 (List.length (selectedStudents st))) as [Hlt|Hge].
    + set (st' := {| hr_data := hr_data st |}).
      destruct (comparison_createChart_unzoomed st' H1) as [G1 G2].
      split; [exact G1|].
      rewrite ComparisonFacts.comparison_createChart_selectedStudents.
      exact G2.
    + split; [exact H1 | exact H2].
Qed.

Lemma comparison_run_unzoomed (hr : list HeartRateData) (events : list Event) :
  (timeRange (run hr events) = {| start := None; end_ := None |}
   \/ timeRange (run hr events) = full_extent hr) /\
  (selectedStudents (run hr events) <> [] ->
   timeRange (run hr events) = full_extent hr).
Proof.
  assert (G : forall st,
             (timeRange st = {| start := None; end_ := None |}
              \/ timeRange st = full_extent (hr_data st)) /\
             (selectedStudents st <> [] ->
              timeRange st = full_extent (hr_data st)) ->
             let st' := fold_left step events st in
             (timeRange st' = {| start := None; end_ := None |}
              \/ timeRange st' = full_extent (hr_data st')) /\
             (selectedStudents st' <> [] ->
              timeRange st' = full_extent (hr_data st'))).
  { induction events as [|e events IH]; intros st H; cbn [fold_left];
      [exact H|].
    apply IH. now apply comparison_step_unzoomed. }
  specialize (G (initial hr)). cbv zeta in G. fold (run hr events) in G.
  rewrite SelectionFacts.run_hr_data in G. apply G.
  split; [now left | cbn; congruence].
Qed.

End ComparisonInvariants.

(** X9.  In every state either page can reach, running [createChart]
    again, as the [$effect] of each component does, changes nothing: not
    the window, not the chart on the page, and in the comparison view not
    the domain of the colour scale either. *)
Theorem recompute_changes_nothing (hr : list HeartRateData)
  (es : list Single.Event) (ec : list Comparison.Event) :
  Single.createChart (Single.run hr es) = Single.run hr es /\
  Comparison.createChart (Comparison.run hr ec) = Comparison.run hr ec.
Proof.
  split.
  - apply SinglePage.single_run_fixpoint.
  - apply ComparisonPage.comparison_createChart_fixpoint,
      ComparisonPage.comparison_run_drawn.
Qed.

(** X10.  In every state the comparison view can reach: no student is
    selected twice; the empty-selection message is on the page exactly
    when no student is selected; and the window was never zoomed: it is
    the full extent of [hr_data] once a student is selected, and before
    that the window not yet set or the full extent, so that the time scale
    of a chart on the page always spans the full extent. *)
Theorem comparison_selection_and_window (hr : list HeartRateData)
  (events : list Comparison.Event) :
  let st := Comparison.run hr events in
  NoDup (Comparison.selectedStudents st) /\
  (Comparison.chart st = None <-> Comparison.selectedStudents st = []) /\
  (Comparison.timeRange st = {| start := None; end_ := None |}
   \/ Comparison.timeRange st = full_extent hr) /\
  match Comparison.chart st with
  | None => True
  | Some ch =>
      Comparison.timeRange st = full_extent hr /\
      Comparison.xScale ch
        = xScale_of Comparison.width Comparison.margin (full_extent hr)
  end.
Proof.
  intro st.
  pose proof (ComparisonPage.comparison_run_drawn hr events) as Hd.
  destruct (ComparisonInvariants.comparison_run_unzoomed hr events) as [W1 W2].
  fold st in Hd, W1, W2.
  split; [apply ComparisonInvariants.comparison_run_NoDup|].
  unfold comparison_drawn in Hd.
  destruct (Comparison.selectedStudents st) as [|x l] eqn:Esel.
  - rewrite Hd. repeat split; trivial.
  - destruct Hd as (_ & _ & Hch). rewrite Hch.
    split; [split; discriminate|]. split; [exact W1|].
    assert (Htr : Comparison.timeRange st = full_extent hr)
      by (apply W2; discriminate).
    split; [exact Htr|].
    unfold comparison_chart_of. cbn [Comparison.xScale]. now rewrite Htr.
Qed.

(** ** The lines and the legend *)

Lemma paint_names (domain ids : list string) :
  map fst (paint domain ids) = ids.
Proof.
  unfold paint. rewrite map_map. cbn [fst]. apply map_id.
Qed.

Lemma paint_In (domain ids : list string) (s col : string) :
  In (s, col) (paint domain ids) <->
  In s ids /\ col = fst (colorScale domain s).
Proof.
  unfold paint. rewrite in_map_iff. split.
  - intros (s' & E & Hs). injection E as <- <-. now split.
  - intros [Hs ->]. now exists s.
Qed.

(** The students that have a group: those with a sample in the data. *)
Lemma d3_group_names (data : list HeartRateData) (k : string) :
  In k (map fst (d3_group data)) <-> exists d, In d data /\ student d = k.
Proof.
  rewrite in_map_iff. split.
  - intros ([k' ds] & E & Hin). cbn in E. subst k'.
    apply d3_group_spec in Hin. destruct Hin as [-> Hne].
    destruct (samples_of k data) as [|d l] eqn:Es; [congruence|].
    assert (Hd : In d (samples_of k data)) by (rewrite Es; now left).
    apply samples_of_In in Hd. now exists d.
  - intros (d & Hd & Hs). exists (k, samples_of k data). split; [reflexivity|].
    apply d3_group_spec. split; [reflexivity|].
    intro E. assert (Hin : In d (samples_of k data))
      by (apply samples_of_In; now split).
    rewrite E in Hin. contradiction.
Qed.

(** X11.  In every state the comparison view can reach with a chart on
    the page: there is one line for each group of samples and no student
    has two lines; a line is drawn exactly for the selected students that
    have a sample in [hr_data] (a selected student with none has a legend
    item and no line); and the stroke colour of each line is the colour of
    the legend item of its student. *)
Theorem lines_match_legend (hr : list HeartRateData)
  (events : list Comparison.Event) :
  let st := Comparison.run hr events in
  match Comparison.chart st with
  | None => True
  | Some ch =>
      map fst (Comparison.lines ch) = map fst (Comparison.studentData ch) /\
      NoDup (map fst (Comparison.lines ch)) /\
      (forall s, In s (map fst (Comparison.lines ch)) <->
                 In s (Comparison.selectedStudents st) /\
                 exists d, In d hr /\ student d = s) /\
      (forall s col, In (s, col) (Comparison.lines ch) ->
                     In (s, col) (Comparison.legend ch))
  end.
Proof.
  intro st.
  destruct (Comparison.chart st) as [ch|] eqn:Ech; [|exact I].
  pose proof (ComparisonPage.comparison_run_drawn hr events) as Hd.
  destruct (ComparisonInvariants.comparison_run_unzoomed hr events) as [_ W].
  pose proof (SelectionFacts.run_hr_data hr events) as Hhr.
  fold st in Hd, W, Hhr. unfold comparison_drawn in Hd.
  destruct (Comparison.selectedStudents st) as [|x l] eqn:Esel;
    [congruence|].
  destruct Hd as (_ & _ & Hch). rewrite Ech in Hch. injection Hch as ->.
  specialize (W ltac:(discriminate)).
  unfold comparison_chart_of.
  cbn [Comparison.lines Comparison.studentData Comparison.legend].
  rewrite Esel, W, Hhr, paint_names, sort_groups_names.
  split; [reflexivity|]. split; [apply d3_group_NoDup|]. split.
  - intro s. rewrite d3_group_names. split.
    + intros (d & Hd & Hs). unfold Comparison.filter_data in Hd.
      apply filter_In in Hd. destruct Hd as [Hd Hb].
      apply andb_true_iff in Hb. destruct Hb as [Hb _].
      apply includes_iff in Hb. rewrite Hs in Hb.
      split; [exact Hb | now exists d].
    + intros [Hs (d & Hd & E)]. exists d. split; [|exact E].
      unfold Comparison.filter_data. apply filter_In. split; [exact Hd|].
      apply andb_true_iff. split.
      * apply includes_iff. now rewrite E.
      * now apply in_full_extent.
  - intros s col Hin. apply paint_In in Hin. destruct Hin as [Hs ->].
    apply paint_In. split; [|reflexivity].
    rewrite <- sort_groups_names in Hs.
    now apply ComparisonPage.keys_selected in Hs.
Qed.

(** ** The colours of the declared students *)

Lemma comparison_run_domain (hr : list HeartRateData)
  (events : list Comparison.Event) :
  exists more,
    Comparison.colorDomain (Comparison.run hr events) = color_domain0 ++ more.
Proof.
  unfold Comparison.run.
  assert (H : exists more,
             Comparison.colorDomain (Comparison.initial hr)
             = color_domain0 ++ more)
    by (exists []; reflexivity).
  revert H. generalize (Comparison.initial hr).
  induction events as [|e events IH]; intros st H; cbn [fold_left];
    [exact H|].
  apply IH. destruct H as [m1 E1].
  destruct (SelectionFacts.step_domain_grows st e) as [m2 E2].
  exists (m1 ++ m2). now rewrite E2, E1, app_assoc.
Qed.

Lemma index_of_lt (d : string) (domain : list string) (i : nat) :
  index_of d domain = Some i -> (i < List.length domain)%nat.
Proof.
  revert i. induction domain as [|k rest IH]; intros i; cbn [index_of];
    [discriminate|].
  destruct (String.eqb k d).
  - intros [= <-]. cbn. lia.
  - destruct (index_of d rest) as [j|]; [|discriminate].
    intros [= <-]. specialize (IH j eq_refl). cbn. lia.
Qed.

Lemma index_of_nth (d : string) (domain : list string) (i : nat) :
  index_of d domain = Some i -> nth i domain EmptyString = d.
Proof.
  revert i. induction domain as [|k rest IH]; intros i; cbn [index_of];
    [discriminate|].
  destruct (String.eqb_spec k d) as [->|Hne].
  - intros [= <-]. reflexivity.
  - destruct (index_of d rest) as [j|]; [|discriminate].
    intros [= <-]. cbn [nth]. now apply IH.
Qed.

Lemma palette_NoDup : NoDup palette.
Proof.
  unfold palette.
  repeat (constructor; [cbn [In]; intuition discriminate|]). constructor.
Qed.

(** X12.  In every state the comparison view can reach, the legend item
    of a student at the position [i] of the declared domain [S1 .. S10]
    has the colour at the position [i] of the palette, whatever was
    selected before; two declared students never share a colour; and a
    student outside the declared domain has the colour at its position in
    the grown domain, counted modulo the ten colours of the palette. *)
Theorem declared_students_keep_their_colours (hr : list HeartRateData)
  (events : list Comparison.Event) :
  let st := Comparison.run hr events in
  match Comparison.chart st with
  | None => True
  | Some ch =>
      (forall s col i,
         In (s, col) (Comparison.legend ch) ->
         index_of s color_domain0 = Some i ->
         col = nth i palette EmptyString) /\
      (forall s col s' i i',
         In (s, col) (Comparison.legend ch) ->
         In (s', col) (Comparison.legend ch) ->
         index_of s color_domain0 = Some i ->
         index_of s' color_domain0 = Some i' -> s = s') /\
      (forall s col,
         In (s, col) (Comparison.legend ch) ->
         exists i, index_of s (Comparison.colorDomain st) = Some i /\
                   col = nth (i mod 10) palette EmptyString)
  end.
Proof.
  intro st.
  destruct (Comparison.chart st) as [ch|] eqn:Ech; [|exact I].
  destruct (SelectionFacts.run_matches hr events) as [_ Hcol].
  destruct (comparison_run_domain hr events) as [more Edom].
  fold st in Hcol, Edom.
  assert (Hpos : forall s col,
            In (s, col) (Comparison.legend ch) ->
            exists i, index_of s (Comparison.colorDomain st) = Some i /\
                      col = nth (i mod 10) palette EmptyString).
  { intros s col Hin. destruct (Hcol ch s col Ech Hin) as [Hs E].
    apply index_of_In in Hs. destruct Hs as [i Ei]. exists i.
    split; [exact Ei|]. rewrite <- E. unfold colorScale. now rewrite Ei. }
  assert (Hdecl : forall s col i,
            In (s, col) (Comparison.legend ch) ->
            index_of s color_domain0 = Some i ->
            col = nth i palette EmptyString /\ (i < 10)%nat).
  { intros s col i Hin Ei. destruct (Hpos s col Hin) as (j & Ej & ->).
    rewrite Edom in Ej. rewrite (index_of_app _ _ more _ Ei) in Ej.
    injection Ej as <-.
    assert (Hi : (i < 10)%nat) by exact (index_of_lt _ _ _ Ei).
    split; [|exact Hi]. now rewrite Nat.mod_small by exact Hi. }
  split; [|split].
  - intros s col i Hin Ei. now apply (Hdecl s col i).
  - intros s col s' i i' Hin Hin' Ei Ei'.
    destruct (Hdecl s col i Hin Ei) as [E Hi].
    destruct (Hdecl s' col i' Hin' Ei') as [E' Hi'].
    assert (Eii : i = i').
    { apply (proj1 (NoDup_nth palette EmptyString) palette_NoDup);
        [exact Hi | exact Hi' | congruence]. }
    subst i'. apply index_of_nth in Ei, Ei'. congruence.
  - exact Hpos.
Qed.

(** ** The average lines of the comparison chart *)

Lemma averages_off (groups : list (string * list HeartRateData)) :
  Comparison.averages false groups = [].
Proof.
  unfold Comparison.averages. induction groups as [|g groups IH];
    [reflexivity | exact IH].
Qed.

Lemma averages_on (groups : list (string * list HeartRateData)) :
  (forall g, In g groups -> snd g <> []) ->
  Comparison.averages true groups
  = map (fun g => (fst g, mean_or0 (map value (snd g)))) groups.
Proof.
  unfold Comparison.averages. induction groups as [|g groups IH]; intro H;
    [reflexivity|].
  cbn [flat_map map]. rewrite IH by (intros g' Hg'; apply H; now right).
  assert (Hg : snd g <> []) by (apply H; now left).
  destruct (snd g) as [|d l]; [congruence | reflexivity].
Qed.

(** No group of the chart is empty. *)
Lemma sorted_groups_inhabited (data : list HeartRateData)
  (g : string * list HeartRateData) :
  In g (Comparison.sort_groups (d3_group data)) -> snd g <> [].
Proof.
  destruct g as [k ds]. intro H. apply sort_groups_In in H.
  destruct H as (ds0 & Hin & ->). apply d3_group_spec in Hin.
  destruct Hin as [_ Hne]. cbn [snd]. intro E.
  apply (f_equal (@List.length _)) in E.
  rewrite sort_by_timestamp_length in E. destruct ds0; [congruence|].
  discriminate.
Qed.

(** X13.  In every state the comparison view can reach with a chart on
    the page: with the averages switched off no average line is drawn;
    with them on there is one average line for each line of the chart, in
    the same order, at the mean of the bpm values of that student's drawn
    samples, between the least and the greatest of them. *)
Theorem comparison_average_lines (hr : list HeartRateData)
  (events : list Comparison.Event) :
  let st := Comparison.run hr events in
  match Comparison.chart st with
  | None => True
  | Some ch =>
      if Comparison.showAverages st then
        map fst (Comparison.averageLines ch) = map fst (Comparison.lines ch) /\
        forall s m, In (s, m) (Comparison.averageLines ch) ->
          exists ds lo hi,
            In (s, ds) (Comparison.studentData ch) /\
            m = mean_or0 (map value ds) /\
            d3_min (map value ds) = Some lo /\
            d3_max (map value ds) = Some hi /\
            lo <= m <= hi
      else Comparison.averageLines ch = []
  end.
Proof.
  intro st.
  destruct (Comparison.chart st) as [ch|] eqn:Ech; [|exact I].
  pose proof (ComparisonPage.comparison_run_drawn hr events) as Hd.
  fold st in Hd. unfold comparison_drawn in Hd.
  destruct (Comparison.selectedStudents st) as [|x l] eqn:Esel;
    [congruence|].
  destruct Hd as (_ & _ & Hch). rewrite Ech in Hch. injection Hch as ->.
  unfold comparison_chart_of.
  cbn [Comparison.lines Comparison.studentData Comparison.averageLines].
  rewrite Esel.
  set (sorted := Comparison.sort_groups _).
  destruct (Comparison.showAverages st); [|apply averages_off].
  rewrite averages_on by (intros g Hg; now apply sorted_groups_inhabited in Hg).
  split.
  - rewrite paint_names, map_map. reflexivity.
  - intros s m Hin. apply in_map_iff in Hin.
    destruct Hin as ([k ds] & E & Hg). cbn [fst snd] in E.
    injection E as -> <-.
    pose proof (sorted_groups_inhabited _ _ Hg) as Hne. cbn [snd] in Hne.
    assert (Hv : map value ds <> []).
    { destruct ds; [congruence | discriminate]. }
    destruct (extremes_of _ Hv) as (lo & hi & E0 & E1 & _ & _ & Hall).
    exists ds, lo, hi. split; [exact Hg|]. split; [reflexivity|].
    split; [exact E0|]. split; [exact E1|].
    now apply mean_or0_between.
Qed.

(** ** The points under the pointer of the comparison chart *)

Lemma flat_map_option_In {A B : Type} (f : A -> option B) (l : list A)
  (k : A -> string) (s : string) (b : B) :
  In (s, b) (flat_map (fun g => match f g with
                                | Some d => [(k g, d)]
                                | None => []
                                end) l) <->
  exists g, In g l /\ k g = s /\ f g = Some b.
Proof.
  rewrite in_flat_map. split.
  - intros (g & Hg & Hin). exists g. split; [exact Hg|].
    destruct (f g) as [d|]; [|contradiction].
    destruct Hin as [E|[]]. injection E as <- <-. now split.
  - intros (g & Hg & <- & E). exists g. split; [exact Hg|].
    rewrite E. now left.
Qed.

Lemma flat_map_option_NoDup {A B : Type} (f : A -> option B) (l : list A)
  (k : A -> string) :
  NoDup (map k l) ->
  NoDup (map fst (flat_map (fun g => match f g with
                                     | Some d => [(k g, d)]
                                     | None => []
                                     end) l)).
Proof.
  induction l as [|g l IH]; cbn [map flat_map]; intro H; [constructor|].
  inversion H as [|? ? Hnot Hrest]; subst.
  destruct (f g) as [d|]; cbn [app map fst]; [|now apply IH].
  constructor; [|now apply IH].
  intro Hin. apply Hnot. apply in_map_iff in Hin.
  destruct Hin as ([s b] & E & Hin). cbn [fst] in E. subst s.
  apply flat_map_option_In in Hin. destruct Hin as (g' & Hg' & E & _).
  rewrite <- E. now apply in_map.
Qed.

(** X14.  The points that the comparison chart shows under the pointer,
    in every state the view can reach.  With no chart on the page, or with
    the pointer outside the margins, none is shown.  Otherwise at most
    one point is shown for each student, and a point shown for a student
    is a sample of [hr_data] of that selected student, a nearest one of
    the student's drawn samples to the time under the pointer, which is
    then after the first of them and not after the last. *)
Theorem comparison_tooltip_points (hr : list HeartRateData)
  (events : list Comparison.Event) (mouseX : number) :
  let st := Comparison.run hr events in
  match Comparison.chart st with
  | None => Comparison.mousemove st mouseX = []
  | Some ch =>
      let t := time_at (Comparison.xScale ch) mouseX in
      (mouseX < 80 \/ 1550 < mouseX -> Comparison.mousemove st mouseX = []) /\
      NoDup (map fst (Comparison.mousemove st mouseX)) /\
      forall s d, In (s, d) (Comparison.mousemove st mouseX) ->
        In s (Comparison.selectedStudents st) /\
        In d hr /\ student d = s /\
        exists ds, In (s, ds) (Comparison.studentData ch) /\
                   nearest ds t d /\
                   (exists e, In e ds /\ timestamp e < t) /\
                   (exists e, In e ds /\ t <= timestamp e)
  end.
Proof.
  intro st. unfold Comparison.mousemove.
  destruct (Comparison.chart st) as [ch|] eqn:Ech; [|reflexivity].
  cbv zeta.
  pose proof (ComparisonPage.comparison_run_drawn hr events) as Hd.
  pose proof (SelectionFacts.run_hr_data hr events) as Hhr.
  fold st in Hd, Hhr. unfold comparison_drawn in Hd.
  destruct (Comparison.selectedStudents st) as [|x l] eqn:Esel;
    [congruence|].
  destruct Hd as (_ & _ & Hch). rewrite Ech in Hch. injection Hch as Hch.
  rewrite <- Esel in *.
  change (margin_left Comparison.margin) with 80.
  change (Comparison.width - margin_right Comparison.margin)
    with (1800 - 250).
  split; [|split].
  - intros [H|H].
    + apply Qlt_bool_iff in H. now rewrite H.
    + assert (H' : Qlt_bool (1800 - 250) mouseX = true)
        by (apply Qlt_bool_iff; lra).
      rewrite H'. now rewrite orb_true_r.
  - destruct (_ || _); [constructor|].
    apply flat_map_option_NoDup.
    rewrite Hch. unfold comparison_chart_of. cbn [Comparison.studentData].
    rewrite sort_groups_names. apply d3_group_NoDup.
  - intros s d Hin. destruct (_ || _); [contradiction|].
    apply flat_map_option_In in Hin. destruct Hin as ([k ds] & Hg & E & Hloc).
    cbn [fst snd] in E, Hloc. subst k.
    set (t := time_at (Comparison.xScale ch) mouseX) in *.
    assert (Hg' : In (s, ds) (Comparison.sort_groups
                    (d3_group (Comparison.filter_data (Comparison.hr_data st)
                       (Comparison.selectedStudents st)
                       (Comparison.timeRange st))))).
    { rewrite Hch in Hg. exact Hg. }
    assert (Hs : In s (Comparison.selectedStudents st)).
    { apply (ComparisonPage.keys_selected (Comparison.hr_data st) _
               (Comparison.timeRange st)).
      apply in_map_iff. exists (s, ds). now split. }
    apply sort_groups_In in Hg'. destruct Hg' as (ds0 & Hin0 & Eds).
    apply d3_group_spec in Hin0. destruct Hin0 as [-> _].
    assert (Hasc : ascending ds)
      by (rewrite Eds; apply sort_by_timestamp_ascending).
    destruct (lt_dec 0 (bisect_left ds t)) as [H0|H0];
      [destruct (lt_dec (bisect_left ds t) (List.length ds)) as [H1|H1]|].
    + destruct (comparison_locate_inside ds t Hasc (conj H0 H1))
        as (d' & Hd' & Hn).
      rewrite Hd' in Hloc. injection Hloc as ->.
      pose proof Hn as (Hdin & _).
      rewrite Eds in Hdin. apply -> sort_by_timestamp_In in Hdin.
      apply samples_of_In in Hdin. destruct Hdin as [Hfd Hst].
      unfold Comparison.filter_data in Hfd. apply filter_In in Hfd.
      rewrite Hhr in Hfd.
      split; [exact Hs|]. split; [tauto|]. split; [exact Hst|].
      exists ds. split; [exact Hg|]. split; [exact Hn|].
      destruct (bisect_left_spec ds t Hasc) as (_ & Hbelow & Habove).
      destruct (nth_error_in_range ds (bisect_left ds t - 1)) as [e0 He0];
        [lia|].
      destruct (nth_error_in_range ds (bisect_left ds t) H1) as [e1 He1].
      split.
      * exists e0. split; [now apply nth_error_In in He0|].
        apply (Hbelow (bisect_left ds t - 1)%nat); [lia | exact He0].
      * exists e1. split; [now apply nth_error_In in He1|].
        apply (Habove (bisect_left ds t)); [lia | exact He1].
    + rewrite comparison_locate_outside in Hloc by lia. discriminate.
    + rewrite comparison_locate_outside in Hloc by lia. discriminate.
Qed.

(** ** Events that undo each other in the comparison view *)

Module ComparisonEvents.
Import Comparison.

(** With a settled window and every selected student in the domain of the
    colour scale, [createChart] only replaces the chart. *)
Lemma comparison_createChart_closed (st : State) :
  selectedStudents st <> [] ->
  init_timeRange (hr_data st) (timeRange st) = timeRange st ->
  (forall s, In s (selectedStudents st) -> In s (colorDomain st)) ->
  createChart st
  = {| hr_data := hr_data st; selectedStudents := selectedStudents st;
       timeRange := timeRange st; showAverages := showAverages st;
       colorDomain := colorDomain st;
       chart := Some (comparison_chart_of st) |}.
Proof.
  intros Hne Htr Hdom. unfold createChart.
  destruct (selectedStudents st) as [|x l] eqn:Esel; [congruence|].
  cbn [List.length Nat.eqb]. rewrite <- Esel in *. rewrite Htr.
  rewrite color_each_closed.
  2:{ intros s Hs. apply Hdom. now apply ComparisonPage.keys_selected in Hs. }
  rewrite color_each_closed by exact Hdom.
  reflexivity.
Qed.

(** What a reachable state with a selection is made of. *)
Lemma comparison_run_selected (hr : list HeartRateData)
  (events : list Event) :
  let st := run hr events in
  selectedStudents st <> [] ->
  hr_data st = hr /\ timeRange st = full_extent hr /\
  (forall s, In s (selectedStudents st) -> In s (colorDomain st)) /\
  chart st = Some (comparison_chart_of st).
Proof.
  intros st Hne.
  pose proof (ComparisonPage.comparison_run_drawn hr events) as Hd.
  destruct (ComparisonInvariants.comparison_run_unzoomed hr events) as [_ W].
  fold st in Hd, W. unfold comparison_drawn in Hd.
  split; [apply SelectionFacts.run_hr_data|]. split; [now apply W|].
  destruct (selectedStudents st); [congruence|]. tauto.
Qed.

Lemma comparison_run_snoc (hr : list HeartRateData) (events : list Event)
  (e : Event) :
  step (run hr events) e = run hr (events ++ [e]).
Proof. unfold run. now rewrite fold_left_app. Qed.

End ComparisonEvents.


Lemma includes_snoc (sel : list string) (s : string) :
  includes (sel ++ [s]) s = true.
Proof. apply includes_iff, in_or_app. right. now left. Qed.

Lemma filter_out_snoc (sel : list string) (s : string) :
  filter (fun x => negb (String.eqb x s)) (sel ++ [s])
  = filter (fun x => negb (String.eqb x s)) sel.
Proof.
  rewrite filter_app. cbn [filter]. rewrite String.eqb_refl. cbn [negb].
  apply app_nil_r.
Qed.

Lemma filter_out_excludes (sel : list string) (s : string) :
  includes (filter (fun x => negb (String.eqb x s)) sel) s = false.
Proof.
  destruct (includes _ s) eqn:E; [|reflexivity].
  apply includes_iff, filter_In in E. destruct E as [_ E].
  now rewrite String.eqb_refl in E.
Qed.

Lemma toggle_selectedStudents (st : Comparison.State) (s : string) :
  Comparison.selectedStudents (Comparison.toggleStudentSelection st s)
  = if includes (Comparison.selectedStudents st) s
    then filter (fun x => negb (String.eqb x s)) (Comparison.selectedStudents st)
    else Comparison.selectedStudents st ++ [s].
Proof.
  unfold Comparison.toggleStudentSelection. destruct (_ <? _)%nat.
  - now rewrite ComparisonFacts.comparison_createChart_selectedStudents.
  - reflexivity.
Qed.

(** X16.  Toggling the same student twice, from every state the
    comparison view can reach.  A student that was not selected is
    selected and deselected again: the selection and the chart on the page
    are as before.  A student that was selected is deselected and selected
    again: it is now the last of the selection, behind the others in their
    order. *)
Theorem toggle_student_twice (hr : list HeartRateData)
  (events : list Comparison.Event) (s : string) :
  let st := Comparison.run hr events in
  let st2 :=
    Comparison.toggleStudentSelection
      (Comparison.toggleStudentSelection st s) s in
  if includes (Comparison.selectedStudents st) s
  then Comparison.selectedStudents st2
       = filter (fun x => negb (String.eqb x s))
                (Comparison.selectedStudents st) ++ [s]
  else Comparison.selectedStudents st2 = Comparison.selectedStudents st /\
       Comparison.chart st2 = Comparison.chart st /\
       Comparison.showAverages st2 = Comparison.showAverages st.
Proof.
  intros st st2.
  assert (Esel2 : Comparison.selectedStudents st2
                  = if includes (Comparison.selectedStudents st) s
                    then filter (fun x => negb (String.eqb x s))
                           (Comparison.selectedStudents st) ++ [s]
                    else Comparison.selectedStudents st).
  { unfold st2. rewrite !toggle_selectedStudents.
    destruct (includes (Comparison.selectedStudents st) s) eqn:E.
    - now rewrite filter_out_excludes.
    - rewrite includes_snoc, filter_out_snoc. apply filter_out_absent.
      intro H. apply includes_iff in H. congruence. }
  destruct (includes (Comparison.selectedStudents st) s) eqn:E;
    [exact Esel2|].
  split; [exact Esel2|].
  assert (R2 : st2 = Comparison.run hr
                       (events ++ [Comparison.ToggleStudent s]
                               ++ [Comparison.ToggleStudent s])).
  { rewrite app_assoc, <- !ComparisonEvents.comparison_run_snoc. reflexivity. }
  pose proof (ComparisonPage.comparison_run_drawn hr events) as Hd.
  pose proof (ComparisonPage.comparison_run_drawn hr
                (events ++ [Comparison.ToggleStudent s]
                        ++ [Comparison.ToggleStudent s])) as Hd2.
  pose proof (ComparisonEvents.comparison_run_selected hr events) as Hrun.
  pose proof (ComparisonEvents.comparison_run_selected hr
                (events ++ [Comparison.ToggleStudent s]
                        ++ [Comparison.ToggleStudent s])) as Hrun2.
  cbv zeta in Hrun, Hrun2. rewrite <- R2 in Hd2, Hrun2. fold st in Hd, Hrun.
  assert (Eshow : Comparison.showAverages st2 = Comparison.showAverages st).
  { unfold st2, Comparison.toggleStudentSelection.
    repeat (destruct (_ <? _)%nat;
            rewrite ?ComparisonFacts.comparison_createChart_showAverages;
            cbn [Comparison.with_selection Comparison.cleared
                 Comparison.showAverages]);
      reflexivity. }
  split; [|exact Eshow].
  assert (Edom : exists more,
             Comparison.colorDomain st2 = Comparison.colorDomain st ++ more).
  { destruct (SelectionFacts.step_domain_grows st (Comparison.ToggleStudent s))
      as [m1 E1].
    destruct (SelectionFacts.step_domain_grows
                (Comparison.step st (Comparison.ToggleStudent s))
                (Comparison.ToggleStudent s)) as [m2 E2].
    exists (m1 ++ m2). unfold st2.
    change (Comparison.toggleStudentSelection
              (Comparison.toggleStudentSelection st s) s)
      with (Comparison.step (Comparison.step st (Comparison.ToggleStudent s))
              (Comparison.ToggleStudent s)).
    now rewrite E2, E1, app_assoc. }
  destruct Edom as [more Edom].
  unfold comparison_drawn in Hd, Hd2. rewrite Esel2 in Hd2.
  destruct (Comparison.selectedStudents st) as [|x l] eqn:El.
  - now rewrite Hd, Hd2.
  - destruct (Hrun ltac:(discriminate)) as (Hhr & Htr & Hdom & Hch).
    destruct (Hrun2 ltac:(rewrite Esel2; discriminate))
      as (Hhr2 & Htr2 & _ & Hch2).
    rewrite Hch, Hch2. f_equal. unfold comparison_chart_of.
    rewrite Hhr, Hhr2, Htr, Htr2, Esel2, El, Eshow, Edom.
    rewrite !paint_stable; [reflexivity | exact Hdom |].
    intros k Hk. apply Hdom.
    now apply ComparisonPage.keys_selected in Hk.
Qed.

(** X17.  In every state the comparison view can reach, toggling the
    averages twice gives back the state as it was: the flag, the chart on
    the page with its average lines, the window and the domain of the
    colour scale. *)
Theorem toggle_averages_twice (hr : list HeartRateData)
  (events : list Comparison.Event) :
  let st := Comparison.run hr events in
  Comparison.toggleAverages (Comparison.toggleAverages st) = st.
Proof.
  intro st.
  pose proof (ComparisonPage.comparison_run_drawn hr events) as Hd.
  pose proof (ComparisonEvents.comparison_run_selected hr events) as Hrun.
  pose proof (ComparisonFacts.comparison_run_settled hr events) as Hset.
  cbv zeta in Hrun. fold st in Hd, Hrun, Hset.
  unfold comparison_drawn in Hd. unfold Comparison.settled in Hset.
  destruct st as [hr' sel tr show dom ch].
  cbn [Comparison.selectedStudents Comparison.hr_data Comparison.timeRange
       Comparison.colorDomain Comparison.chart] in *.
  destruct sel as [|x l].
  - unfold Comparison.toggleAverages. cbn. now rewrite negb_involutive.
  - destruct (Hrun ltac:(discriminate)) as (_ & _ & Hdom & Hch).
    specialize (Hset ltac:(discriminate)).
    unfold Comparison.toggleAverages.
    cbn [Comparison.selectedStudents Comparison.hr_data Comparison.timeRange
         Comparison.colorDomain Comparison.chart Comparison.showAverages
         List.length Nat.ltb Nat.leb].
    rewrite (ComparisonEvents.comparison_createChart_closed
               (Comparison.mkState hr' (x :: l) tr (negb show) dom ch));
      [|discriminate | exact Hset | exact Hdom].
    cbn [Comparison.selectedStudents Comparison.hr_data Comparison.timeRange
         Comparison.colorDomain Comparison.chart Comparison.showAverages
         List.length Nat.ltb Nat.leb].
    rewrite ComparisonEvents.comparison_createChart_closed;
      [|discriminate | exact Hset | exact Hdom].
    cbn [Comparison.selectedStudents Comparison.hr_data Comparison.timeRange
         Comparison.colorDomain Comparison.chart Comparison.showAverages].
    rewrite negb_involutive, Hch. reflexivity.
Qed.

(** * The ECG monitor *)

Lemma Qmax_Qmin_within (lo hi x : Q) :
  lo <= hi -> lo <= Qmax lo (Qmin hi x) <= hi.
Proof.
  intro H. split.
  - apply Q.le_max_l.
  - apply Q.max_lub; [exact H | apply Q.le_min_l].
Qed.

Lemma slice_last_suffix {A : Type} (n : nat) (a : list A) :
  exists dropped,
    a = dropped ++ slice_last n a /\
    List.length dropped = (List.length a - n)%nat /\
    List.length (slice_last n a) = Nat.min n (List.length a).
Proof.
  unfold slice_last. exists (firstn (List.length a - n) a).
  split; [now rewrite firstn_skipn|]. split.
  - rewrite length_firstn. lia.
  - rewrite length_skipn. lia.
Qed.

Lemma last_of_app {A : Type} (a b : list A) (d : A) :
  b <> [] -> last (a ++ b) d = last b d.
Proof.
  intro H. induction a as [|x a IH]; [reflexivity|].
  cbn [app]. destruct (a ++ b) eqn:E.
  - apply app_eq_nil in E. destruct E. congruence.
  - rewrite <- E, <- IH. cbn [last]. now rewrite E.
Qed.

Section MonitorFacts.

Variable sine : number -> number.

Lemma monitor_interval (rate : number) :
  40 <= rate <= 200 -> 0.3 <= 60 / rate <= 1.5.
Proof.
  intros [H0 H1]. split.
  - apply Qle_shift_div_l; lra.
  - apply Qle_shift_div_r; lra.
Qed.

Lemma monitor_animate_ecgData (st : Monitor.State) (timestamp rnd : number) :
  (List.length (Monitor.ecgData st) <= 150)%nat ->
  let st' := Monitor.animate sine st timestamp rnd in
  (List.length (Monitor.ecgData st') <= 150)%nat /\
  if Monitor.isRunning st then
    exists p dropped,
      Monitor.ecgData st ++ [p] = dropped ++ Monitor.ecgData st' /\
      (List.length dropped <= 1)%nat /\
      (List.length dropped = 1%nat <->
       List.length (Monitor.ecgData st) = 150%nat) /\
      last (Monitor.ecgData st') 0 = p /\
      p = Monitor.generateEcgPoint sine rnd (Monitor.heartRate st)
            ((timestamp
              - match Monitor.startTime st with
                | Some s => if truthy s then s else timestamp
                | None => timestamp
                end) / 1000)
  else Monitor.ecgData st' = Monitor.ecgData st.
Proof.
  intro Hlen. cbv zeta. unfold Monitor.animate. cbn [Monitor.ecgData].
  destruct (Monitor.isRunning st); [|split; [exact Hlen | reflexivity]].
  set (p := Monitor.generateEcgPoint _ _ _ _).
  set (data := Monitor.ecgData st ++ [p]).
  assert (Hdata : List.length data = S (List.length (Monitor.ecgData st))).
  { unfold data. rewrite length_app. cbn. lia. }
  destruct (Nat.ltb_spec 150 (List.length data)) as [Hlt|Hge].
  - destruct (slice_last_suffix 150 data) as (dropped & E & Hd & Hs).
    split; [lia|]. exists p, dropped. split; [exact E|].
    split; [lia|]. split; [lia|]. split; [|reflexivity].
    assert (Hne : slice_last 150 data <> []).
    { intro E0. rewrite E0 in Hs. cbn [List.length] in Hs. lia. }
    assert (El : last data 0 = p) by (unfold data; apply last_last).
    rewrite E in El. now rewrite last_of_app in El by exact Hne.
  - split; [lia|]. exists p, []. split; [reflexivity|].
    split; [cbn; lia|]. split; [cbn; lia|]. split; [|reflexivity].
    unfold data. apply last_last.
Qed.

Lemma monitor_step_kept (st : Monitor.State) (e : Monitor.Event) :
  Monitor.kept st -> Monitor.kept (Monitor.step sine st e).
Proof.
  intros (Hr & Hv & Hl & Hg & Ht & Hs & Ha).
  destruct e as [ts rnd|student| |amount|p|amount| ]; cbn [Monitor.step].
  - destruct (monitor_animate_ecgData st ts rnd Hl) as [Hl' _].
    split; [exact Hr|]. split; [exact Hv|]. split; [exact Hl'|].
    unfold Monitor.animate.
    cbn [Monitor.beats Monitor.lastHeartbeat Monitor.audio].
    set (elapsed := (ts - _) / 1000).
    destruct (Qle_bool _ _) eqn:Eb.
    + apply Qle_bool_iff in Eb.
      destruct (monitor_interval _ Hr) as [Hi _].
      assert (Ht' : Forall (fun b => fst b <= elapsed) (Monitor.beats st)).
      { eapply Forall_impl; [|exact Ht]. intros b Hb. cbv beta in Hb. lra. }
      destruct (Monitor.audio st) eqn:Ea; cbn [andb];
        [destruct (Monitor.isRunning st)|].
      * split; [constructor; [cbn; exact Hv | exact Hg]|].
        split; [constructor; [cbn; lra | exact Ht']|].
        split; [|discriminate].
        constructor; [exact Hs|].
        eapply Forall_impl; [|exact Ht]. intros b Hb. cbv beta in Hb |- *.
        cbn [fst]. lra.
      * split; [exact Hg|]. split; [exact Ht'|]. split; [exact Hs|].
        discriminate.
      * split; [exact Hg|]. split; [exact Ht'|]. split; [exact Hs|].
        intros _. now apply Ha.
    + cbn [andb]. split; [exact Hg|]. split; [exact Ht|].
      split; [exact Hs | exact Ha].
  - refine (conj _ (conj Hv (conj Hl (conj Hg (conj Ht (conj Hs Ha)))))).
    cbn [Monitor.handleStudentChange Monitor.heartRate].
    destruct student as [s|]; [|exact Hr].
    destruct s; cbn; split; lra.
  - exact (conj Hr (conj Hv (conj Hl (conj Hg (conj Ht (conj Hs Ha)))))).
  - refine (conj _ (conj Hv (conj Hl (conj Hg (conj Ht (conj Hs Ha)))))).
    apply Qmax_Qmin_within. lra.
  - refine (conj _ (conj Hv (conj Hl (conj Hg (conj Ht (conj Hs Ha)))))).
    destruct p; cbn; split; lra.
  - refine (conj Hr (conj _ (conj Hl (conj Hg (conj Ht (conj Hs Ha)))))).
    apply Qmax_Qmin_within. lra.
  - exact (conj Hr (conj Hv (conj Hl (conj Hg (conj Ht (conj Hs Ha)))))).
Qed.

Lemma monitor_run_kept (audio : bool) (events : list Monitor.Event) :
  Monitor.kept (Monitor.run sine audio events).
Proof.
  unfold Monitor.run.
  assert (H : Monitor.kept (Monitor.initial audio)).
  { unfold Monitor.kept. cbn. split; [split; lra|]. split; [split; lra|].
    split; [lia|]. repeat split; constructor. }
  revert H. generalize (Monitor.initial audio).
  induction events as [|e events IH]; intros st H; cbn [fold_left];
    [exact H|].
  apply IH. now apply monitor_step_kept.
Qed.

End MonitorFacts.

(** The value of a point: the wave is between [-0.2] and [0.8], the noise
    within [0.015] of zero. *)
Lemma monitor_wave_bounds (sine : number -> number)
  (rnd rate time : number) :
  (forall x, 0 <= x <= 1 -> 0 <= sine x <= 1) -> 0 <= rnd < 1 ->
  - 0.215 <= Monitor.generateEcgPoint sine rnd rate time <= 0.815.
Proof.
  intros Hsine Hrnd. unfold Monitor.generateEcgPoint.
  set (t := js_rem time (60 / rate) / (60 / rate)).
  cbv zeta.
  destruct (Qle_bool 0 t && Qle_bool t 0.1) eqn:Ep.
  { apply andb_true_iff in Ep. destruct Ep as [E0 E1].
    apply Qle_bool_iff in E0, E1.
    assert (Hx : 0 <= (t - 0) / (0.1 - 0) <= 1).
    { split; [apply Qle_shift_div_l | apply Qle_shift_div_r]; lra. }
    destruct (Hsine _ Hx) as [S0 S1]. split; lra. }
  destruct (Qle_bool 0.15 t && Qle_bool t 0.25) eqn:Eq.
  { apply andb_true_iff in Eq. destruct Eq as [E0 E1].
    apply Qle_bool_iff in E0, E1.
    set (qrsT := (t - 0.15) / (0.25 - 0.15)).
    assert (Hq : 0 <= qrsT <= 1).
    { unfold qrsT.
      split; [apply Qle_shift_div_l | apply Qle_shift_div_r]; lra. }
    destruct (Qlt_bool qrsT 0.2) eqn:Q1.
    { apply Qlt_bool_iff in Q1.
      assert (Hd : 0 <= qrsT / 0.2 <= 1).
      { split; [apply Qle_shift_div_l | apply Qle_shift_div_r]; lra. }
      split; lra. }
    apply Qlt_bool_false_iff in Q1.
    destruct (Qlt_bool qrsT 0.4) eqn:Q2.
    { apply Qlt_bool_iff in Q2. split; lra. }
    apply Qlt_bool_false_iff in Q2.
    destruct (Qlt_bool qrsT 0.6) eqn:Q3.
    { apply Qlt_bool_iff in Q3. split; lra. }
    apply Qlt_bool_false_iff in Q3. split; lra. }
  destruct (Qle_bool 0.3 t && Qle_bool t 0.45) eqn:Et.
  { apply andb_true_iff in Et. destruct Et as [E0 E1].
    apply Qle_bool_iff in E0, E1.
    assert (Hx : 0 <= (t - 0.3) / (0.45 - 0.3) <= 1).
    { split; [apply Qle_shift_div_l | apply Qle_shift_div_r]; lra. }
    destruct (Hsine _ Hx) as [S0 S1]. split; lra. }
  split; lra.
Qed.

Lemma monitor_run_points (sine : number -> number) (audio : bool)
  (events : list Monitor.Event) :
  (forall x, 0 <= x <= 1 -> 0 <= sine x <= 1) ->
  Forall Monitor.random_value events ->
  Forall (fun v => - 0.215 <= v <= 0.815)
         (Monitor.ecgData (Monitor.run sine audio events)).
Proof.
  intros Hsine. unfold Monitor.run.
  assert (H : Forall (fun v => - 0.215 <= v <= 0.815)
                (Monitor.ecgData (Monitor.initial audio))) by constructor.
  revert H. generalize (Monitor.initial audio).
  induction events as [|e events IH]; intros st H Hev; cbn [fold_left];
    [exact H|].
  inversion Hev as [|? ? He Hrest]; subst. apply IH; [|exact Hrest].
  destruct e as [ts rnd|student| |amount|p|amount| ]; cbn [Monitor.step];
    try exact H.
  unfold Monitor.animate. cbn [Monitor.ecgData].
    destruct (Monitor.isRunning st); [|exact H].
    set (p := Monitor.generateEcgPoint _ _ _ _).
    assert (Hall : Forall (fun v => - 0.215 <= v <= 0.815)
                     (Monitor.ecgData st ++ [p])).
    { apply Forall_app. split; [exact H|]. constructor; [|constructor].
      apply monitor_wave_bounds; [exact Hsine | exact He]. }
    destruct (_ <? _)%nat; [|exact Hall].
    destruct (slice_last_suffix 150 (Monitor.ecgData st ++ [p]))
      as (dropped & E & _).
    rewrite E in Hall. apply Forall_app in Hall. tauto.
Qed.

(** X18.  Whatever happens on the page of the ECG monitor (frames,
    student choices, the rate buttons with any amount, the presets, the
    volume buttons, pause and resume), the heart rate stays between 40 and
    200 beats per minute, so that the time between two beats is between
    0.3 and 1.5 seconds.  Choosing a student sets the rate of that
    student, which is between 87 and 120; choosing the empty option keeps
    the rate; and a rate button adds its amount when the sum is between 40
    and 200. *)
Theorem monitor_heart_rate_in_range (sine : number -> number) (audio : bool)
  (events : list Monitor.Event) :
  let st := Monitor.run sine audio events in
  40 <= Monitor.heartRate st <= 200 /\
  0.3 <= 60 / Monitor.heartRate st <= 1.5 /\
  (forall s,
     Monitor.heartRate (Monitor.handleStudentChange st (Some s))
       = Monitor.studentData s /\
     87 <= Monitor.studentData s <= 120) /\
  Monitor.heartRate (Monitor.handleStudentChange st None)
    = Monitor.heartRate st /\
  (forall amount,
     40 <= Monitor.heartRate st + amount <= 200 ->
     Monitor.heartRate (Monitor.adjustHeartRate st amount)
       == Monitor.heartRate st + amount).
Proof.
  intro st. destruct (monitor_run_kept sine audio events) as (Hr & _).
  fold st in Hr. split; [exact Hr|]. split; [now apply monitor_interval|].
  split; [|split; [reflexivity|]].
  - intro s. split; [reflexivity|]. destruct s; cbn; split; lra.
  - intros amount [H0 H1].
    unfold Monitor.adjustHeartRate. cbn [Monitor.with_heartRate Monitor.heartRate].
    rewrite (Q.min_r _ _ H1). now apply Q.max_r.
Qed.

Lemma monitor_run_audio (sine : number -> number) (audio : bool)
  (events : list Monitor.Event) :
  Monitor.audio (Monitor.run sine audio events) = audio.
Proof.
  unfold Monitor.run.
  assert (H : Monitor.audio (Monitor.initial audio) = audio) by reflexivity.
  revert H. generalize (Monitor.initial audio).
  induction events as [|e events IH]; intros s0 H; cbn [fold_left];
    [exact H|].
  apply IH. destruct e; exact H.
Qed.

(** X19.  Whatever happens on the page of the ECG monitor, the volume
    stays between 0 and 1, and every heartbeat sound that was started was
    played at a gain between 0 and 1.  No sound is started without the
    audio context and buffer, and while the monitor is paused a frame
    starts no sound and adds no point to the trace. *)
Theorem monitor_volume_in_range (sine : number -> number) (audio : bool)
  (events : list Monitor.Event) :
  let st := Monitor.run sine audio events in
  0 <= Monitor.volume st <= 1 /\
  Forall (fun b => 0 <= snd b <= 1) (Monitor.beats st) /\
  (audio = false -> Monitor.beats st = []) /\
  (forall timestamp rnd,
     Monitor.isRunning st = false ->
     Monitor.beats (Monitor.animate sine st timestamp rnd) = Monitor.beats st /\
     Monitor.ecgData (Monitor.animate sine st timestamp rnd)
       = Monitor.ecgData st).
Proof.
  intro st.
  destruct (monitor_run_kept sine audio events) as (_ & Hv & _ & Hg & _ & _ & Ha).
  fold st in Hv, Hg, Ha.
  split; [exact Hv|]. split; [exact Hg|]. split.
  - intro E. apply Ha. unfold st. now rewrite monitor_run_audio.
  - intros ts rnd E. unfold Monitor.animate.
    cbn [Monitor.beats Monitor.ecgData]. rewrite E.
    now rewrite !andb_false_r.
Qed.

(** X20.  The trace buffer of the ECG monitor never holds more than 150
    points.  A frame of the running monitor puts its new point at the end
    of the buffer and drops the oldest point exactly when the buffer was
    full; the points kept stay in their order. *)
Theorem monitor_buffer_keeps_latest_points (sine : number -> number)
  (audio : bool) (events : list Monitor.Event) (timestamp rnd : number) :
  let st := Monitor.run sine audio events in
  let st' := Monitor.animate sine st timestamp rnd in
  (List.length (Monitor.ecgData st) <= 150)%nat /\
  (List.length (Monitor.ecgData st') <= 150)%nat /\
  if Monitor.isRunning st then
    exists p dropped,
      Monitor.ecgData st ++ [p] = dropped ++ Monitor.ecgData st' /\
      (List.length dropped <= 1)%nat /\
      (List.length dropped = 1%nat <->
       List.length (Monitor.ecgData st) = 150%nat) /\
      last (Monitor.ecgData st') 0 = p /\
      p = Monitor.generateEcgPoint sine rnd (Monitor.heartRate st)
            ((timestamp
              - match Monitor.startTime st with
                | Some s => if truthy s then s else timestamp
                | None => timestamp
                end) / 1000)
  else Monitor.ecgData st' = Monitor.ecgData st.
Proof.
  intros st st'.
  destruct (monitor_run_kept sine audio events) as (_ & _ & Hl & _).
  fold st in Hl. split; [exact Hl|].
  exact (monitor_animate_ecgData sine st timestamp rnd Hl).
Qed.

(** X21.  The heartbeat sounds of the ECG monitor, whatever the
    timestamps of the frames: each sound is started at least 0.3 seconds
    of monitor time after the one before it, none after the time of the
    last trigger, and a frame starts at most one sound. *)
Theorem monitor_beats_spaced (sine : number -> number) (audio : bool)
  (events : list Monitor.Event) (timestamp rnd : number) :
  let st := Monitor.run sine audio events in
  StronglySorted (fun b a => fst a + 0.3 <= fst b) (Monitor.beats st) /\
  Forall (fun b => fst b <= Monitor.lastHeartbeat st) (Monitor.beats st) /\
  (List.length (Monitor.beats (Monitor.animate sine st timestamp rnd))
   <= S (List.length (Monitor.beats st)))%nat.
Proof.
  intro st.
  destruct (monitor_run_kept sine audio events)
    as (_ & _ & _ & _ & Ht & Hs & _).
  fold st in Ht, Hs. split; [exact Hs|]. split; [exact Ht|].
  unfold Monitor.animate. cbn [Monitor.beats].
  destruct (_ && _); cbn [List.length]; lia.
Qed.

(** A stand-in for the sine of a half turn: the parabola through the same
    zeros and the same peak. *)
Lemma parabola_range (x : Q) : 0 <= x <= 1 -> 0 <= 4 * x * (1 - x) <= 1.
Proof.
  intros [H0 H1].
  assert (Hp : 0 <= x * (1 - x)) by (apply Qmult_le_0_compat; lra).
  assert (Hs : 0 <= (2 * x - 1) * (2 * x - 1)).
  { destruct (Qlt_le_dec (2 * x - 1) 0) as [Hn|Hn].
    - setoid_replace ((2 * x - 1) * (2 * x - 1))
        with ((1 - 2 * x) * (1 - 2 * x)) by ring.
      apply Qmult_le_0_compat; lra.
    - apply Qmult_le_0_compat; lra. }
  split; lra.
Qed.

(** X22.  The trace of the ECG monitor stays inside its view box.  With a
    sine between 0 and 1 on the half turn and random values in [[0, 1)],
    every point of the buffer has a value between [-0.215] and [0.815],
    so that its vertical coordinate [50 - value * 40] is between 17.4 and
    58.6, inside the height 100 of the view box, and its index is below
    the width 150. *)
Theorem monitor_trace_inside_viewBox (sine : number -> number)
  (audio : bool) (events : list Monitor.Event) :
  (forall x, 0 <= x <= 1 -> 0 <= sine x <= 1) ->
  Forall Monitor.random_value events ->
  forall i v,
    nth_error (Monitor.ecgData (Monitor.run sine audio events)) i = Some v ->
    (i < 150)%nat /\ - 0.215 <= v <= 0.815 /\
    17.4 <= Monitor.trace_y v <= 58.6.
Proof.
  intros Hsine Hev i v Hnth.
  destruct (monitor_run_kept sine audio events) as (_ & _ & Hl & _).
  pose proof (monitor_run_points sine audio events Hsine Hev) as Hall.
  assert (Hi : (i < List.length
                     (Monitor.ecgData (Monitor.run sine audio events)))%nat)
    by (apply nth_error_Some; congruence).
  split; [lia|].
  apply nth_error_In in Hnth.
  pose proof (proj1 (Forall_forall _ _) Hall v Hnth) as Hv.
  cbv beta in Hv. split; [exact Hv|].
  unfold Monitor.trace_y. destruct Hv. split; lra.
Qed.

Lemma monitor_trace_inside_viewBox_witness :
  let sine := fun x : number => 4 * x * (1 - x) in
  let events := [Monitor.Frame 1000 0.5; Monitor.Frame 1030 0.25] in
  (forall x, 0 <= x <= 1 -> 0 <= sine x <= 1) /\
  Forall Monitor.random_value events /\
  forall i v,
    nth_error (Monitor.ecgData (Monitor.run sine true events)) i = Some v ->
    (i < 150)%nat /\ - 0.215 <= v <= 0.815 /\
    17.4 <= Monitor.trace_y v <= 58.6.
Proof.
  cbv zeta.
  assert (Hsine : forall x, 0 <= x <= 1 -> 0 <= 4 * x * (1 - x) <= 1)
    by exact parabola_range.
  assert (Hev : Forall Monitor.random_value
                  [Monitor.Frame 1000 0.5; Monitor.Frame 1030 0.25]).
  { repeat constructor; cbn; discriminate || reflexivity. }
  split; [exact Hsine|]. split; [exact Hev|].
  exact (monitor_trace_inside_viewBox (fun x => 4 * x * (1 - x)) true
           [Monitor.Frame 1000 0.5; Monitor.Frame 1030 0.25] Hsine Hev).
Defined.

(** * The list of the student controls *)

(** A list in ascending numeric order is left as it is. *)
Lemma sortStudentIds_fix (l : list string) :
  StronglySorted numeric_le l -> sortStudentIds l = l.
Proof.
  induction 1 as [|a l Hs IH Hall]; [reflexivity|].
  cbn [sortStudentIds]. rewrite IH.
  destruct l as [|b l']; [reflexivity|]. cbn [insert_student].
  inversion Hall as [|? ? (x & y & Ex & Ey & Hxy) _]; subst.
  unfold number_after. rewrite Ex, Ey.
  destruct (Z.ltb_spec y x); [lia | reflexivity].
Qed.

(** X23.  [sortStudentIds], which orders the options of the student
    select and the student buttons, on identifiers that all carry a
    number: the result holds the same identifiers, each as often as
    before, in ascending order of their numbers; sorting it again changes
    nothing; and a list without duplicates stays without. *)
Theorem sortStudentIds_orders_by_number (students : list string) :
  (forall b, In b students -> student_number b <> None) ->
  Permutation (sortStudentIds students) students /\
  StronglySorted numeric_le (sortStudentIds students) /\
  sortStudentIds (sortStudentIds students) = sortStudentIds students /\
  (NoDup students -> NoDup (sortStudentIds students)).
Proof.
  intro H. pose proof (sortStudentIds_sorted students H) as Hs.
  split; [apply sortStudentIds_perm|]. split; [exact Hs|].
  split; [now apply sortStudentIds_fix|].
  apply Permutation_NoDup, Permutation_sym, sortStudentIds_perm.
Qed.

Lemma sortStudentIds_orders_by_number_witness :
  let students := ["S10"; "S2"; "S1"]%string in
  sortStudentIds students = ["S1"; "S2"; "S10"]%string /\
  (forall b, In b students -> student_number b <> None) /\
  Permutation (sortStudentIds students) students /\
  StronglySorted numeric_le (sortStudentIds students) /\
  sortStudentIds (sortStudentIds students) = sortStudentIds students /\
  (NoDup students -> NoDup (sortStudentIds students)).
Proof.
  cbv zeta. split; [reflexivity|].
  assert (H : forall b, In b ["S10"; "S2"; "S1"]%string ->
                        student_number b <> None).
  { intros b [<-|[<-|[<-|[]]]]; vm_compute; discriminate. }
  split; [exact H|].
  exact (sortStudentIds_orders_by_number ["S10"; "S2"; "S1"]%string H).
Defined.
